(** * prj_overview: the inclusion decider, the tree renderer, the file
      collector and the document assembler of [src/prj_overview/main.py]

    The development is a shallow embedding of [main.py].  Paths are lists of
    components (pathlib's [parts]), the file system is a finite tree with
    symbolic links, and every function of the source is written in a small
    monad that
    carries the two effects the source has: exceptions and an ordered trace
    of what the program does to the outside (log records, calls into the
    matching libraries, terminal output, writes to the output file). *)

From Stdlib Require Import String Ascii List Bool Arith NArith ZArith Lia.
From Stdlib Require Import Permutation DecimalString Sorted.
Import ListNotations.

Open Scope string_scope.
Open Scope list_scope.

Notation "a +++ b" := (String.append a b)
  (at level 60, right associativity) : string_scope.

(** ** Paths

    A [Path] is the tuple [path.parts] of pathlib: an absolute POSIX path
    starts with the component ["/"]. *)

Definition Path := list string.

(** Exceptions that the modelled code can raise. *)
Inductive exn : Type :=
| ValueError                 (* relative_to: not a sub-path *)
| FileNotFoundError          (* iterdir on a path that does not exist *)
| NotADirectoryError         (* iterdir on something else than a directory *)
| UnicodeDecodeError         (* read_text: the bytes are not UTF-8 *)
| OSError                    (* read_text: any other failure *)
| GitIgnorePatternError      (* pathspec: a line that is no pattern
                                (GitWildMatchPatternError before 1.0) *)
| Exit (code : Z).           (* typer.Exit(code) *)

Inductive res (A : Type) : Type :=
| Ok (a : A)
| Raise (e : exn).

Arguments Ok {A} a.
Arguments Raise {A} e.

(** [path.is_absolute()]. *)
Definition is_absolute (p : Path) : bool :=
  match p with
  | c :: _ => String.eqb c "/"
  | [] => false
  end.

(** The components of [path] left after the components [other], when
    [path] starts with them. *)
Fixpoint strip_parts (path other : Path) {struct other} : res Path :=
  match other with
  | [] => Ok path
  | o :: other' =>
      match path with
      | [] => Raise ValueError
      | p :: path' =>
          if String.eqb o p then strip_parts path' other' else Raise ValueError
      end
  end.

(** [path.relative_to(other)]: the components left after [other], or
    [ValueError] when [other] is not a prefix of [path].  [Path(".")] has
    no component; an absolute path is not relative to it. *)
Definition relative_to (path other : Path) : res Path :=
  match other with
  | [] => if is_absolute path then Raise ValueError else Ok path
  | _ :: _ => strip_parts path other
  end.

(** The components [l] lead from [root] to a path below it: when [root]
    is [Path(".")], they do not start at the root directory. *)
Definition below (root l : Path) : Prop := root = [] -> is_absolute l = false.

(** The block
    [try: relative_parts = path.relative_to(project_root).parts]
    [except ValueError: relative_parts = path.parts]
    that [should_process] and [get_code_files] both start with. *)
Definition relative_parts (path project_root : Path) : list string :=
  match relative_to path project_root with
  | Ok r => r
  | Raise _ => path
  end.

(** [path.as_posix()], which on POSIX is also [str(path)]. *)
Definition as_posix (p : Path) : string :=
  match p with
  | [] => "."
  | "/" :: rest => "/" +++ String.concat "/" rest
  | _ => String.concat "/" p
  end.

(** The path is the root directory alone. *)
Definition is_root (p : Path) : bool :=
  match p with
  | [c] => String.eqb c "/"
  | _ => false
  end.

(** [path.name]: the final component; empty when there is none, and for
    the root directory alone. *)
Definition name (p : Path) : string :=
  if is_root p then "" else last p "".

(** [path.parent]. *)
Definition parent (p : Path) : Path :=
  if is_root p then p else removelast p.

(** The line feed, written [\n] in the source. *)
Definition nl : string := String (ascii_of_nat 10) "".

(** [x in parts] for a tuple of strings. *)
Definition contains (x : string) (parts : list string) : bool :=
  existsb (String.eqb x) parts.

(** ** Effects *)

Inductive event : Type :=
| LogInfo (msg : string)                      (* logging.info *)
| LogWarning (msg : string)                   (* logging.warning *)
| BasicConfig (level : string)                (* logging.basicConfig *)
| Fnmatch (identifier pattern : string)       (* fnmatch.fnmatch is called *)
| MatchFile (ignore_path : Path) (rel : string) (* spec.match_file is called *)
| Echo (msg : string)                         (* typer.echo *)
| EchoErr (msg : string)                      (* typer.echo(err=True) *)
| OpenW (file : Path)                         (* open(file, "w") truncates *)
| Write (text : string).                      (* md_file.write *)

(** A computation returns a value or raises, and leaves a trace. *)
Definition M (A : Type) : Type := (res A * list event)%type.

Definition ret {A} (a : A) : M A := (Ok a, []).
Definition raise {A} (e : exn) : M A := (Raise e, []).
Definition emit (ev : event) : M unit := (Ok tt, [ev]).
Definition lift {A} (r : res A) : M A := (r, []).

Definition bind {A B} (m : M A) (f : A -> M B) : M B :=
  match m with
  | (Ok a, w) => let (r, w') := f a in (r, w ++ w')
  | (Raise e, w) => (Raise e, w)
  end.

Arguments bind {A B} m f : simpl never.

Definition value {A} (m : M A) : res A := fst m.
Definition trace {A} (m : M A) : list event := snd m.

Notation "x <- m ;; k" := (bind m (fun x => k))
  (at level 61, m at next level, right associativity).
Notation "m ;; k" := (bind m (fun _ => k))
  (at level 61, right associativity).

Definition log_info (msg : string) : M unit := emit (LogInfo msg).
Definition log_warning (msg : string) : M unit := emit (LogWarning msg).

(** An event that consults a pattern. *)
Definition consults (ev : event) : bool :=
  match ev with
  | Fnmatch _ _ | MatchFile _ _ => true
  | _ => false
  end.

(** An event that consults an ignore spec. *)
Definition consults_spec (ev : event) : bool :=
  match ev with
  | MatchFile _ _ => true
  | _ => false
  end.

(** ** The matching libraries

    [fnmatch.fnmatch] and [pathspec.PathSpec] are libraries the program
    imports; the program is verified for every implementation of them.
    [PathSpec.from_lines] raises on a line that is no pattern.  The last
    field is the text [str(e)] of the exception [e] that reading the file
    at a path raised, which Python makes from the bytes and from the
    answer of the operating system. *)

Class Matching : Type := {
  fnmatch : string -> string -> bool;      (* fnmatch.fnmatch(name, pat) *)
  PathSpec : Type;                         (* pathspec.PathSpec *)
  from_lines : list string -> res PathSpec; (* PathSpec.from_lines("gitwildmatch", lines) *)
  match_file : PathSpec -> string -> bool; (* spec.match_file(rel) *)
  str_exception : Path -> exn -> string    (* str(e) *)
}.

Section Decider.

Context `{Matching}.

(** An entry of [ignore_specs]:
    [(base_dir, ignore_path, content, spec)]. *)
Definition IgnoreSpec : Type := (Path * Path * string * PathSpec)%type.

(** [matches_any(identifier, patterns)]. *)
Fixpoint matches_any (identifier : string) (patterns : list string) : M bool :=
  match patterns with
  | [] => ret false
  | pattern :: patterns' =>
      m <- (emit (Fnmatch identifier pattern) ;; ret (fnmatch identifier pattern)) ;;
      if m then
        log_info ("Match: '" +++ pattern +++ "' for identifier: '" +++ identifier +++ "'") ;;
        ret true
      else matches_any identifier patterns'
  end.

(** The loop over [ignore_specs] at the end of [should_process]: [false]
    as soon as one spec in scope matches, [true] when the loop runs out. *)
Fixpoint should_process_specs (path : Path) (identifier : string)
    (ignore_specs : list IgnoreSpec) : M bool :=
  match ignore_specs with
  | [] =>
      log_info ("Included: " +++ identifier) ;;
      ret true
  | (base_dir, ignore_path, content, spec) :: ignore_specs' =>
      match relative_to path base_dir with
      | Raise _ => should_process_specs path identifier ignore_specs'
      | Ok r =>
          let rel := as_posix r in
          m <- (emit (MatchFile ignore_path rel) ;; ret (match_file spec rel)) ;;
          if m then
            log_info ("Excluded by ignore file (" +++ as_posix ignore_path
                      +++ ") for: " +++ rel) ;;
            ret false
          else should_process_specs path identifier ignore_specs'
      end
  end.

(** [should_process(path, exclude_patterns, ignore_specs, project_root)].
    The source guards the loop with [if ignore_specs:]; the loop over an
    empty list does the same. *)
Definition should_process (path : Path) (exclude_patterns : list string)
    (ignore_specs : list IgnoreSpec) (project_root : Path) : M bool :=
  let relative_parts := relative_parts path project_root in
  if contains ".git" relative_parts then
    log_info ("Ignoring .git folder or file: " +++ as_posix path) ;;
    ret false
  else
    r <- lift (relative_to path project_root) ;;
    let identifier := as_posix r in
    m <- matches_any identifier exclude_patterns ;;
    if m then
      log_info ("Excluded by CLI exclude pattern: " +++ identifier) ;;
      ret false
    else should_process_specs path identifier ignore_specs.

End Decider.

(** ** The file system

    The file system is a finite tree.  A directory lists its entries in
    the order the operating system reports them ([iterdir], [scandir]).  A
    symbolic link carries what it resolves to.  Links that resolve to
    nothing, links that form a cycle and entries that the process has no
    permission to read are outside the model: on them [stat], [iterdir]
    and [read_text] fail in ways that the model does not have. *)

#[local] Set Warnings "-register-all".

Inductive node : Type :=
| Dir (children : list (string * node))
| File (st_size : N) (text : option string)
    (* [text] is what [read_text] returns, [None] when the bytes are not
       valid UTF-8; [st_size] is the size in bytes *)
| Special (st_size : N)
    (* a socket, FIFO or device: neither is_dir() nor is_file() *)
| Link (target : node).
    (* a symbolic link to [target] *)

(** What [n] is once symbolic links are followed, as [stat] does. *)
Fixpoint follow (n : node) : node :=
  match n with
  | Link target => follow target
  | _ => n
  end.

(** [is_dir()], [is_file()] and [stat().st_size] follow symbolic links. *)
Definition is_dir (n : node) : bool :=
  match follow n with Dir _ => true | _ => false end.

Definition is_file (n : node) : bool :=
  match follow n with File _ _ => true | _ => false end.

Definition st_size (n : node) : N :=
  match follow n with
  | File sz _ => sz
  | Special sz => sz
  | _ => 4096   (* the program never asks for the size of a directory *)
  end.

(** [path.read_text(encoding="utf-8")] where the file system holds [n]
    at [path] ([None]: nothing there).  Only a regular file can be read:
    a directory or a special file gives an [OSError]. *)
Definition read_text (n : option node) : res string :=
  match option_map follow n with
  | Some (File _ (Some text)) => Ok text
  | Some (File _ None) => Raise UnicodeDecodeError
  | _ => Raise OSError
  end.

(** The entry found at [p], walking down from [n] through directories
    and symbolic links to directories. *)
Fixpoint walk (n : node) (p : Path) {struct p} : option node :=
  match p with
  | [] => Some n
  | c :: p' =>
      match follow n with
      | Dir children =>
          match find (fun e => String.eqb (fst e) c) children with
          | Some (_, m) => walk m p'
          | None => None
          end
      | _ => None
      end
  end.

(** [fs] is the file system as the process sees it: it holds the entries
    of the working directory under their names and, under the name ["/"],
    the root directory.  The working directory itself is [Path(".")]. *)
Definition working_directory (fs : node) : node :=
  match follow fs with
  | Dir children =>
      Dir (filter (fun e => negb (String.eqb (fst e) "/")) children)
  | n => n
  end.

(** What the file system holds at [p], symbolic links followed. *)
Definition lookup (fs : node) (p : Path) : option node :=
  match p with
  | [] => Some (working_directory fs)
  | _ :: _ => option_map follow (walk fs p)
  end.

(** A path object together with what the file system holds there. *)
Definition Entry : Type := (Path * node)%type.

(** [current_path.iterdir()] on a directory with these children. *)
Definition iterdir (current_path : Path) (children : list (string * node))
  : list Entry :=
  map (fun e => (current_path ++ [fst e], snd e)) children.

(** [current_path.rglob("*")]: the entries of the directory, then those of
    each sub-directory in turn; something that is not a directory has
    none.  [rglob] lists a symbolic link and does not descend into it. *)
Fixpoint rglob (current : node) (current_path : Path) : list Entry :=
  match current with
  | Dir children =>
      iterdir current_path children ++
      flat_map (fun e => rglob (snd e) (current_path ++ [fst e])) children
  | _ => []
  end.

(** What the renderer can reach from a directory: like [rglob], but
    also what lies below a symbolic link to a directory, which [iterdir]
    lists and [rglob] does not descend into. *)
Fixpoint rglob_links (current : node) (current_path : Path) : list Entry :=
  match current with
  | Dir children =>
      iterdir current_path children ++
      flat_map (fun e => rglob_links (snd e) (current_path ++ [fst e])) children
  | Link target => rglob_links target current_path
  | _ => []
  end.

(** ** Sorting keys of the tree renderer *)

Definition lower_ascii (c : ascii) : ascii :=
  let n := nat_of_ascii c in
  if ((65 <=? n) && (n <=? 90))%nat then ascii_of_nat (n + 32) else c.

(** [s.lower()] for a string of ASCII characters.  (On other strings
    [str.lower] also lowers the letters outside ASCII, which this function
    keeps as they are.) *)
Fixpoint lower (s : string) : string :=
  match s with
  | EmptyString => EmptyString
  | String c s' => String (lower_ascii c) (lower s')
  end.

(** Comparison of the tuples [(not x.is_dir(), x.name.lower())]. *)
Definition key_le (a b : bool * string) : bool :=
  match fst a, fst b with
  | false, true => true
  | true, false => false
  | _, _ => String.leb (snd a) (snd b)
  end.

Fixpoint insert_by {A} (key : A -> bool * string) (x : A) (l : list A) : list A :=
  match l with
  | [] => [x]
  | y :: l' => if key_le (key x) (key y) then x :: l else y :: insert_by key x l'
  end.

(** [sorted(l, key=key)]: a stable sort, equal keys keep their order. *)
Definition sorted {A} (key : A -> bool * string) (l : list A) : list A :=
  fold_right (insert_by key) [] l.

(** ** Tree renderer *)

Section Traversals.

Context `{Matching}.

Section Renderer.

Variable exclude_patterns : list string.
Variable ignore_specs : list IgnoreSpec.
Variable project_root : Path.

(** An entry of the listing together with [_tree(entry, .)], the rendering
    of what lies below it. *)
Definition TreeEntry : Type := (Entry * (string -> M (list string)))%type.

Definition prefiltered (p : Path) : bool :=
  negb (String.eqb (name p) "__pycache__" || String.eqb (name p) ".git").

Definition tree_key (x : Entry) : bool * string :=
  (negb (is_dir (snd x)), lower (name (fst x))).

(** The [for index, entry in enumerate(entries)] loop of [_tree]. *)
Fixpoint tree_loop (entries_count index : nat) (entries : list TreeEntry)
    (prefix : string) (tree_lines : list string) : M (list string) :=
  match entries with
  | [] => ret tree_lines
  | ((entry, n), subtree) :: entries' =>
      ok <- should_process entry exclude_patterns ignore_specs project_root ;;
      if negb ok then
        tree_loop entries_count (S index) entries' prefix tree_lines
      else
        let connector :=
          if (index =? entries_count - 1)%nat then "└──" else "├──" in
        if is_dir n then
          let tree_lines :=
            tree_lines ++ [prefix +++ connector +++ " " +++ name entry +++ "/"] in
          let extension :=
            if (index =? entries_count - 1)%nat then "    " else "│   " in
          sub <- subtree (prefix +++ extension) ;;
          tree_loop entries_count (S index) entries' prefix (tree_lines ++ sub)
        else if String.eqb (name entry) "__init__.py" && (st_size n =? 0)%N then
          tree_loop entries_count (S index) entries' prefix tree_lines
        else
          tree_loop entries_count (S index) entries' prefix
            (tree_lines ++ [prefix +++ connector +++ " " +++ name entry])
  end.

(** [_tree(current_path, prefix)], by recursion on the directory found at
    [current_path].  The recursive call [_tree(entry, ...)] of the source
    is attached to each entry before the listing is filtered and sorted;
    it runs only where the loop reaches it.  [iterdir] lists the directory
    that a symbolic link resolves to. *)
Fixpoint _tree (current : node) (current_path : Path) (prefix : string)
  : M (list string) :=
  match current with
  | Dir children =>
      let entries :=
        sorted (fun x : TreeEntry => tree_key (fst x))
          (filter (fun x : TreeEntry => prefiltered (fst (fst x)))
             (map (fun e => ((current_path ++ [fst e], snd e),
                             _tree (snd e) (current_path ++ [fst e])))
                children)) in
      let entries_count := length entries in
      tree_loop entries_count 0 entries prefix []
  | Link target => _tree target current_path prefix
  | _ => raise NotADirectoryError
  end.

End Renderer.

(** [generate_tree(dir_path, exclude_patterns, ignore_specs, project_root)]
    on the file system [fs]. *)
Definition generate_tree (fs : node) (dir_path : Path)
    (exclude_patterns : list string) (ignore_specs : list IgnoreSpec)
    (project_root : option Path) : M string :=
  let project_root :=
    match project_root with None => dir_path | Some r => r end in
  let tree_lines := [name dir_path +++ "/"] in
  sub <- match lookup fs dir_path with
         | Some current =>
             _tree exclude_patterns ignore_specs project_root current dir_path ""
         | None => raise FileNotFoundError
         end ;;
  ret (String.concat nl (tree_lines ++ sub)).

(** ** File collector *)

(** The [for path in dir_path.rglob("*")] loop of [get_code_files]. *)
Fixpoint get_code_files_loop (exclude_patterns : list string)
    (ignore_specs : list IgnoreSpec) (project_root dir_path : Path)
    (paths : list Entry) (code_files : list (string * Path))
  : M (list (string * Path)) :=
  match paths with
  | [] => ret code_files
  | (path, n) :: paths' =>
      let continue :=
        get_code_files_loop exclude_patterns ignore_specs project_root dir_path
          paths' in
      let relative_parts := relative_parts path project_root in
      if contains ".git" relative_parts then continue code_files
      else
        ok <- should_process path exclude_patterns ignore_specs project_root ;;
        if negb ok then continue code_files
        else if is_file n then
          if String.eqb (name path) "__init__.py" && (st_size n =? 0)%N then
            continue code_files
          else
            rel_path <- lift (relative_to path dir_path) ;;
            continue (code_files ++ [(as_posix rel_path, path)])
        else continue code_files
  end.

(** [get_code_files(dir_path, exclude_patterns, ignore_specs, project_root)]
    on the file system [fs].  [rglob] yields nothing when [dir_path] is not
    a directory. *)
Definition get_code_files (fs : node) (dir_path : Path)
    (exclude_patterns : list string) (ignore_specs : list IgnoreSpec)
    (project_root : option Path) : M (list (string * Path)) :=
  let project_root :=
    match project_root with None => dir_path | Some r => r end in
  let paths :=
    match lookup fs dir_path with
    | Some current => rglob current dir_path
    | None => []
    end in
  get_code_files_loop exclude_patterns ignore_specs project_root dir_path paths [].

End Traversals.

(** ** Ignore-file loader *)

(** The bytes at which [str.splitlines] breaks a line: LF, VT, FF, CR and
    the separators FS, GS, RS.  (The breaks outside ASCII, NEL and the
    Unicode line and paragraph separators, are not modelled.) *)
Definition is_linebreak (c : ascii) : bool :=
  let n := nat_of_ascii c in
  ((10 <=? n) && (n <=? 13) || (28 <=? n) && (n <=? 30))%nat.

(** [content.splitlines()], with [cur] the line read so far. *)
Fixpoint splitlines_from (cur : string) (s : string) : list string :=
  match s with
  | EmptyString => if String.eqb cur "" then [] else [cur]
  | String c s' =>
      if is_linebreak c then
        match s' with
        | String c' s'' =>
            if (nat_of_ascii c =? 13)%nat && (nat_of_ascii c' =? 10)%nat
            then cur :: splitlines_from "" s''
            else cur :: splitlines_from "" s'
        | EmptyString => [cur]
        end
      else splitlines_from (cur +++ String c "") s'
  end.

Definition splitlines (s : string) : list string := splitlines_from "" s.

Section Loader.

Context `{Matching}.

(** The [for ignore_file in project_dir.rglob(file_name)] loop.  Whatever
    [read_text] raises is caught and logged; what [from_lines] raises is
    not caught. *)
Fixpoint load_ignore_files_loop (found : list Entry)
    (ignore_list : list IgnoreSpec) : M (list IgnoreSpec) :=
  match found with
  | [] => ret ignore_list
  | (ignore_file, n) :: found' =>
      match read_text (Some n) with
      | Raise e =>
          log_warning ("Could not read " +++ as_posix ignore_file +++ ": "
                       +++ str_exception ignore_file e) ;;
          load_ignore_files_loop found' ignore_list
      | Ok content =>
          let lines := splitlines content in
          spec <- lift (from_lines lines) ;;
          load_ignore_files_loop found'
            (ignore_list ++ [(parent ignore_file, ignore_file, content, spec)])
      end
  end.

(** [load_ignore_files(project_dir, file_name)] on the file system [fs]:
    [rglob(file_name)] finds the entries of that name at any depth ([main]
    passes [.llmignore] and [.gitignore], names without wildcards). *)
Definition load_ignore_files (fs : node) (project_dir : Path)
    (file_name : string) : M (list IgnoreSpec) :=
  let found :=
    match lookup fs project_dir with
    | Some current =>
        filter (fun e : Entry => String.eqb (name (fst e)) file_name)
          (rglob current project_dir)
    | None => []
    end in
  load_ignore_files_loop found [].

End Loader.

(** ** Document assembler *)

(** [s.rfind(c)]: the index of the last [c] in [s], or [-1]. *)
Fixpoint rfind (c : ascii) (s : string) : Z :=
  match s with
  | EmptyString => (-1)%Z
  | String a s' =>
      let i := rfind c s' in
      if (0 <=? i)%Z then (i + 1)%Z
      else if Ascii.eqb a c then 0%Z else (-1)%Z
  end.

(** The slices [s[i:]] and [s[:i]] for an index [0 <= i]. *)
Definition slice_from (i : Z) (s : string) : string :=
  substring (Z.to_nat i) (String.length s - Z.to_nat i) s.

Definition slice_to (i : Z) (s : string) : string :=
  substring 0 (Z.to_nat i) s.

(** [path.suffix] of pathlib. *)
Definition suffix (p : Path) : string :=
  let nm := name p in
  let i := rfind "." nm in
  if ((0 <? i) && (i <? Z.of_nat (String.length nm) - 1))%Z
  then slice_from i nm else "".

(** [path.stem] of pathlib. *)
Definition stem (p : Path) : string :=
  let nm := name p in
  let i := rfind "." nm in
  if ((0 <? i) && (i <? Z.of_nat (String.length nm) - 1))%Z
  then slice_to i nm else nm.

(** The language tag computed in [create_markdown]:
    [file_path.suffix[1:] if file_path.suffix else file_path.stem]. *)
Definition extension_of (file_path : Path) : string :=
  if negb (String.eqb (suffix file_path) "")
  then slice_from 1 (suffix file_path)
  else stem file_path.

Definition code_block_start (extension : string) : string :=
  if String.eqb extension "md"
  then "````" +++ extension +++ nl
  else "```" +++ extension +++ nl.

Definition code_block_end (extension : string) : string :=
  if String.eqb extension "md" then "````" +++ nl +++ nl else "```" +++ nl +++ nl.

(** The [for rel_path, file_path in code_files] loop of
    [create_markdown]; only [UnicodeDecodeError] is caught. *)
Fixpoint create_markdown_loop (fs : node) (code_files : list (string * Path))
  : M unit :=
  match code_files with
  | [] => ret tt
  | (rel_path, file_path) :: code_files' =>
      emit (Write ("### " +++ rel_path +++ nl)) ;;
      let extension := extension_of file_path in
      emit (Write (code_block_start extension)) ;;
      content <- match read_text (lookup fs file_path) with
                 | Ok text => ret text
                 | Raise UnicodeDecodeError =>
                     ret ("# [Binary file not displayed]" +++ nl)
                 | Raise e => raise e
                 end ;;
      emit (Write (content +++ nl)) ;;
      emit (Write (code_block_end extension)) ;;
      create_markdown_loop fs code_files'
  end.

Section Assembler.

Context `{Matching}.

(** What the program cannot compute from the tree: [path.resolve()]. *)
Variable resolve : Path -> Path.

(** [create_markdown(dir_path, output_file, exclude_patterns,
    ignore_specs, tree_only)].  The file system [fs] is read as it was
    found: the output file is taken to lie outside the scanned directory.
    [open(output_file, "w")] is taken to succeed: an output path that
    cannot be opened for writing (a directory, a missing parent) is
    outside the model. *)
Definition create_markdown (fs : node) (dir_path output_file : Path)
    (exclude_patterns : list string) (ignore_specs : list IgnoreSpec)
    (tree_only : bool) : M unit :=
  let project_name := name (resolve dir_path) in
  emit (OpenW output_file) ;;
  emit (Write ("# " +++ project_name +++ " Overview" +++ nl +++ nl)) ;;
  emit (Write ("## Folder Structure" +++ nl)) ;;
  emit (Write ("```tree" +++ nl)) ;;
  tree_str <- generate_tree fs dir_path exclude_patterns ignore_specs
                (Some dir_path) ;;
  emit (Write (tree_str +++ nl)) ;;
  emit (Write ("```" +++ nl +++ nl)) ;;
  if negb tree_only then
    emit (Write ("## Code" +++ nl)) ;;
    code_files <- get_code_files fs dir_path exclude_patterns ignore_specs
                    (Some dir_path) ;;
    create_markdown_loop fs code_files
  else ret tt.

(** [directory.exists()] and [directory.is_dir()]. *)
Definition path_exists (fs : node) (p : Path) : bool :=
  match lookup fs p with Some _ => true | None => false end.

Definition path_is_dir (fs : node) (p : Path) : bool :=
  match lookup fs p with Some n => is_dir n | None => false end.

(** [str(n)] for a length. *)
Definition str_of_nat (n : nat) : string :=
  DecimalString.NilEmpty.string_of_uint (Nat.to_uint n).

(** One of the two [if ...: load_ignore_files ...] blocks of [main]. *)
Definition extend_with (fs : node) (directory : Path) (file_name : string)
    (ignore_specs : list IgnoreSpec) : M (list IgnoreSpec) :=
  data <- load_ignore_files fs directory file_name ;;
  match data with
  | _ :: _ =>
      log_info ("Found " +++ str_of_nat (length data) +++ " " +++ file_name
                +++ " files") ;;
      ret (ignore_specs ++ data)
  | [] =>
      log_info ("No " +++ file_name +++ " files found") ;;
      ret ignore_specs
  end.

(** [main], the command behind the CLI. *)
Definition main (fs : node) (directory output : Path)
    (exclude_patterns : list string) (no_llmignore use_gitignore : bool)
    (log_level : option string) (tree_only : bool) : M unit :=
  emit (BasicConfig
          (match log_level with
           | Some "warning" => "WARNING"
           | Some "info" => "INFO"
           | _ => "ERROR"
           end)) ;;
  if negb (path_exists fs directory) || negb (path_is_dir fs directory) then
    emit (EchoErr ("Error: The directory '" +++ as_posix directory
                   +++ "' does not exist or is not a directory.")) ;;
    raise (Exit 1)
  else
    let ignore_specs := [] in
    ignore_specs <- (if negb no_llmignore
                     then extend_with fs directory ".llmignore" ignore_specs
                     else ret ignore_specs) ;;
    ignore_specs <- (if use_gitignore
                     then extend_with fs directory ".gitignore" ignore_specs
                     else ret ignore_specs) ;;
    create_markdown fs directory output exclude_patterns ignore_specs tree_only ;;
    emit (Echo ("Markdown file '" +++ as_posix output
                +++ "' has been generated.")).

End Assembler.


(** ** The matching libraries, as the program uses them

    The two libraries are not part of the repository.  The models below
    give the general results a concrete instance and let the program run
    on concrete inputs. *)

Module Glob.

(** One element of a shell pattern. *)
Inductive tok : Type :=
| Star                                       (* [*]: any run of characters *)
| Any                                        (* [?]: any one character *)
| Lit (c : ascii)
| Class (negated : bool) (items : list (ascii * ascii)). (* [[seq]], [[!seq]] *)

Definition ascii_le (a b : ascii) : bool :=
  (nat_of_ascii a <=? nat_of_ascii b)%nat.

(** Index of the first ["]"] of [s] at or after position [from]. *)
Fixpoint find_close (from : nat) (s : string) : option nat :=
  match s with
  | EmptyString => None
  | String c s' =>
      match from with
      | S k => option_map S (find_close k s')
      | O => if Ascii.eqb c "]" then Some 0%nat
             else option_map S (find_close 0 s')
      end
  end.

(** After a ["["]: the length of the bracket expression's content, when
    it is closed.  A ["!"] and then a ["]"] right after the bracket do not
    close it. *)
Definition class_end (s : string) : option nat :=
  let j := match s with String "!" _ => 1%nat | _ => 0%nat end in
  let j := match String.get j s with Some "]"%char => S j | _ => j end in
  find_close j s.

(** The members of a bracket expression, read left to right: [a-b] is a
    range, anything else stands for itself. *)
Fixpoint class_items (s : string) : list (ascii * ascii) :=
  match s with
  | EmptyString => []
  | String a s' =>
      match s' with
      | String "-" (String b s'') => (a, b) :: class_items s''
      | _ => (a, a) :: class_items s'
      end
  end.

Definition make_class (stuff : string) : tok :=
  match stuff with
  | String "!" body => Class true (class_items body)
  | _ => Class false (class_items stuff)
  end.

(** The pattern as a list of elements; [skip] characters are passed over
    first (the content of a bracket expression just read). *)
Fixpoint translate_from (skip : nat) (pat : string) : list tok :=
  match pat with
  | EmptyString => []
  | String c pat' =>
      match skip with
      | S k => translate_from k pat'
      | O =>
          if Ascii.eqb c "*" then Star :: translate_from 0 pat'
          else if Ascii.eqb c "?" then Any :: translate_from 0 pat'
          else if Ascii.eqb c "[" then
            match class_end pat' with
            | Some k =>
                make_class (substring 0 k pat') :: translate_from (S k) pat'
            | None => Lit c :: translate_from 0 pat'
            end
          else Lit c :: translate_from 0 pat'
      end
  end.

Definition translate (pat : string) : list tok := translate_from 0 pat.

Definition in_class (a : ascii) (items : list (ascii * ascii)) : bool :=
  existsb (fun r => ascii_le (fst r) a && ascii_le a (snd r)) items.

(** The whole of [s] matches the elements [p]. *)
Fixpoint glob_match (p : list tok) (s : string) {struct p} : bool :=
  match p with
  | [] => String.eqb s ""
  | Star :: p' =>
      (fix star (s : string) : bool :=
         glob_match p' s ||
         match s with
         | EmptyString => false
         | String _ s' => star s'
         end) s
  | Any :: p' =>
      match s with
      | String _ s' => glob_match p' s'
      | EmptyString => false
      end
  | Lit c :: p' =>
      match s with
      | String a s' => Ascii.eqb a c && glob_match p' s'
      | EmptyString => false
      end
  | Class negated items :: p' =>
      match s with
      | String a s' => xorb negated (in_class a items) && glob_match p' s'
      | EmptyString => false
      end
  end.

(** Modelled from the spec: [fnmatch.fnmatch] of Python's standard
    library, which the repository calls and does not contain.  A pattern
    uses the shell wildcards [*], [?] and [[...]] and is matched against
    the whole identifier, case-sensitively.  As in the library, [*] is any
    run of characters and [?] any one character, ["/"] included, so that
    [*test*] matches anywhere in a relative path. *)
Definition fnmatch (identifier pattern : string) : bool :=
  glob_match (translate pattern) identifier.

End Glob.

Module GitWildMatch.

(** One segment of a gitignore pattern. *)
Inductive Seg : Type :=
| DoubleStar                 (* a segment that is [**] *)
| Segment (g : list Glob.tok).

(** A compiled line of an ignore file. *)
Record Rule : Type := {
  pattern : list Seg;
  isNegation : bool;      (* the line starts with [!] *)
  anchored : bool;        (* a leading or an inner [/] *)
  directoryOnly : bool    (* a trailing [/] *)
}.

(** [s.split(sep)] for a one-character separator; [cur] is the piece
    read so far. *)
Fixpoint split_from (sep : ascii) (cur : string) (s : string) : list string :=
  match s with
  | EmptyString => [cur]
  | String c s' =>
      if Ascii.eqb c sep then cur :: split_from sep "" s'
      else split_from sep (cur +++ String c "") s'
  end.

Definition split (sep : ascii) (s : string) : list string :=
  split_from sep "" s.

(** [s] without its trailing blanks. *)
Fixpoint rstrip (s : string) : string :=
  match s with
  | EmptyString => EmptyString
  | String c s' =>
      match rstrip s' with
      | EmptyString => if Ascii.eqb c " " then EmptyString else String c ""
      | r => String c r
      end
  end.

Definition to_seg (s : string) : Seg :=
  if String.eqb s "**" then DoubleStar else Segment (Glob.translate s).

Definition is_empty (s : string) : bool := String.eqb s "".

(** Blank lines and [#]-comments compile to nothing; a [!] with nothing
    after it is no pattern. *)
Definition parse_line (line : string) : res (option Rule) :=
  let line := rstrip line in
  match line with
  | EmptyString => Ok None
  | String "#" _ => Ok None
  | _ =>
      let negation := match line with String "!" _ => true | _ => false end in
      let body := match line with String "!" b => b | _ => line end in
      if is_empty body then Raise GitIgnorePatternError
      else
        let segs := split "/" body in
        let leading := is_empty (hd "" segs) in
        let trailing := is_empty (last segs "") in
        let core := filter (fun s => negb (is_empty s)) segs in
        match core with
        | [] => Ok None
        | _ =>
            Ok (Some {| pattern := map to_seg core;
                        isNegation := negation;
                        anchored := leading || (1 <? length core)%nat;
                        directoryOnly := trailing |})
        end
  end.

(** The segments [ps] match a leading part of the path [segs]; what lies
    below a match is matched too.  A final [**] needs something below. *)
Fixpoint match_segs (ps : list Seg) (segs : list string) {struct ps} : bool :=
  match ps with
  | [] => true
  | DoubleStar :: ps' =>
      match ps' with
      | [] => match segs with [] => false | _ :: _ => true end
      | _ :: _ =>
          (fix skip (segs : list string) : bool :=
             match_segs ps' segs ||
             match segs with
             | [] => false
             | _ :: segs' => skip segs'
             end) segs
      end
  | Segment g :: ps' =>
      match segs with
      | [] => false
      | s :: segs' => Glob.glob_match g s && match_segs ps' segs'
      end
  end.

(** A rule that is not anchored matches at any depth; a directory-only
    rule matches what lies inside the directory (the path handed to
    [match_file] does not say whether it is a directory itself). *)
Definition rule_matches (r : Rule) (segs : list string) : bool :=
  match_segs
    ((if anchored r then [] else [DoubleStar]) ++ pattern r ++
     (if directoryOnly r then [DoubleStar] else []))
    segs.

Definition PathSpec : Type := list Rule.

(** Modelled from the spec: [pathspec.PathSpec.from_lines("gitwildmatch",
    lines)], a library outside the repository.  The lines compile to an
    ordered list of (pattern, isNegation, anchored, directoryOnly)
    records; blank lines and [#]-comments are ignored, and the first line
    that is no pattern raises.  Backslash escapes are not modelled. *)
Fixpoint from_lines (lines : list string) : res PathSpec :=
  match lines with
  | [] => Ok []
  | line :: lines' =>
      match parse_line line with
      | Raise e => Raise e
      | Ok r =>
          match from_lines lines' with
          | Raise e => Raise e
          | Ok spec =>
              Ok (match r with
                  | Some rule => rule :: spec
                  | None => spec
                  end)
          end
      end
  end.

(** The spec of lines that all compile. *)
Definition compile (lines : list string) : PathSpec :=
  match from_lines lines with
  | Ok spec => spec
  | Raise _ => []
  end.

(** Modelled from the spec: [PathSpec.match_file], of the same library:
    the rules are evaluated in order and the last rule that matches
    decides, a negation un-ignoring the path. *)
Definition match_file (spec : PathSpec) (rel : string) : bool :=
  let segs := split "/" rel in
  fold_left
    (fun matched r => if rule_matches r segs then negb (isNegation r) else matched)
    spec false.

End GitWildMatch.

(** The texts of the exceptions in the examples: those that Python gives
    for a file that starts with the byte [0xff], and for a directory. *)
Definition example_str_exception (p : Path) (e : exn) : string :=
  match e with
  | UnicodeDecodeError =>
      "'utf-8' codec can't decode byte 0xff in position 0: invalid start byte"
  | _ => "[Errno 21] Is a directory: '" +++ as_posix p +++ "'"
  end.

(** The program with the two libraries as modelled above. *)
#[export] Instance python_matching : Matching := {|
  fnmatch := Glob.fnmatch;
  PathSpec := GitWildMatch.PathSpec;
  from_lines := GitWildMatch.from_lines;
  match_file := GitWildMatch.match_file;
  str_exception := example_str_exception
|}.

(** ** Vocabulary of the properties *)

(** The spec [s] has [path] in its scope and reports it ignored. *)
Definition excluded_by `{Matching} (path : Path) (s : IgnoreSpec) : bool :=
  let '(base_dir, _, _, spec) := s in
  match relative_to path base_dir with
  | Ok r => match_file spec (as_posix r)
  | Raise _ => false
  end.

(** No event of the trace satisfies [p]. *)
Definition never (p : event -> bool) (w : list event) : Prop :=
  forallb (fun ev => negb (p ev)) w = true.

(** The listing that the loop of [_tree] runs over:
    [sorted([p for p in current_path.iterdir() if p.name not in {...}], key=...)]. *)
Definition listing (current_path : Path) (children : list (string * node))
  : list Entry :=
  sorted tree_key
    (filter (fun p : Entry => prefiltered (fst p)) (iterdir current_path children)).

(** *** The rendered tree, line by line

    [_tree] returns bare lines.  To say which file a line shows, the
    traversal is repeated with every line paired with the entry it
    renders; [tree_rows_lines] below proves that the lines of the rows are
    the lines of [_tree]. *)

Definition Row : Type := (Entry * string)%type.

(** An [__init__.py] of length zero, which both traversals skip. *)
Definition empty_init (e : Entry) : bool :=
  String.eqb (name (fst e)) "__init__.py" && (st_size (snd e) =? 0)%N.

(** An entry that gets a line of its own once the loop reaches it: a
    directory, or anything else but an empty [__init__.py]. *)
Definition shown_file_or_dir (x : Entry) : Prop :=
  is_dir (snd x) = true \/ empty_init x = false.

Section Rows.

Context `{Matching}.

Variable exclude_patterns : list string.
Variable ignore_specs : list IgnoreSpec.
Variable project_root : Path.

(** [should_process] returns true. *)
Definition included (p : Path) : bool :=
  match value (should_process p exclude_patterns ignore_specs project_root) with
  | Ok b => b
  | Raise _ => false
  end.

Fixpoint rows_loop (entries_count index : nat)
    (entries : list (Entry * (string -> list Row))) (prefix : string)
  : list Row :=
  match entries with
  | [] => []
  | (e, subrows) :: entries' =>
      let rest := rows_loop entries_count (S index) entries' prefix in
      let last := (index =? entries_count - 1)%nat in
      let connector := if last then "└──" else "├──" in
      if negb (included (fst e)) then rest
      else if is_dir (snd e) then
        (e, prefix +++ connector +++ " " +++ name (fst e) +++ "/")
        :: subrows (prefix +++ (if last then "    " else "│   ")) ++ rest
      else if empty_init e then rest
      else (e, prefix +++ connector +++ " " +++ name (fst e)) :: rest
  end.

Fixpoint tree_rows (current : node) (current_path : Path) (prefix : string)
  : list Row :=
  match current with
  | Dir children =>
      let entries :=
        sorted (fun x : Entry * (string -> list Row) => tree_key (fst x))
          (filter (fun x : Entry * (string -> list Row) => prefiltered (fst (fst x)))
             (map (fun e => ((current_path ++ [fst e], snd e),
                             tree_rows (snd e) (current_path ++ [fst e])))
                children)) in
      rows_loop (length entries) 0 entries prefix
  | Link target => tree_rows target current_path prefix
  | _ => []
  end.

(** An entry that the file collector keeps: a regular file that passes
    [should_process] and is not an empty [__init__.py]. *)
Definition collected_entry (x : Entry) : bool :=
  included (fst x) && is_file (snd x) && negb (empty_init x).

(** Every directory on the way from [path] down to the entry [path ++ rel]
    is itself shown in the tree: it passes the pre-filter on names and
    [should_process]. *)
Fixpoint ancestors_shown (path : Path) (rel : list string) : bool :=
  match rel with
  | [] => true
  | nm :: rel' =>
      match rel' with
      | [] => true
      | _ :: _ =>
          prefiltered (path ++ [nm]) && included (path ++ [nm])
          && ancestors_shown (path ++ [nm]) rel'
      end
  end.

(** Every directory on the way from [path] down to the entry [path ++ rel]
    passes [should_process]. *)
Fixpoint ancestors_included (path : Path) (rel : list string) : bool :=
  match rel with
  | [] => true
  | nm :: rel' =>
      match rel' with
      | [] => true
      | _ :: _ => included (path ++ [nm]) && ancestors_included (path ++ [nm]) rel'
      end
  end.

(** The renderer reaches [p] from [dir_path]. *)
Definition reached (dir_path p : Path) : bool :=
  match relative_to p dir_path with
  | Ok rel => ancestors_shown dir_path rel && prefiltered p
  | Raise _ => false
  end.

End Rows.

(** *** Well-formed file systems *)

(** No directory holds two entries of the same name. *)
Fixpoint unique_names (n : node) : Prop :=
  match n with
  | Dir children =>
      NoDup (map fst children) /\
      (fix all (l : list (string * node)) : Prop :=
         match l with
         | [] => True
         | e :: l' => unique_names (snd e) /\ all l'
         end) children
  | Link target => unique_names target
  | _ => True
  end.

(** *** The document *)

(** An event that touches the output file. *)
Definition writes_file (ev : event) : bool :=
  match ev with
  | OpenW _ | Write _ => true
  | _ => false
  end.

(** The texts written to the output file, in order. *)
Definition writes (w : list event) : list string :=
  flat_map (fun ev => match ev with Write text => [text] | _ => [] end) w.

(** [c] occurs in [s]. *)
Fixpoint occurs (c : ascii) (s : string) : bool :=
  match s with
  | EmptyString => false
  | String a s' => Ascii.eqb a c || occurs c s'
  end.

(** The file name [nm] has the extension [ext]: [nm] is [base.ext] with
    a base and an extension that are not empty, and no dot inside [ext]. *)
Definition has_extension (nm ext : string) : Prop :=
  exists base,
    nm = base +++ "." +++ ext /\ base <> "" /\ ext <> "" /\ occurs "." ext = false.

(** The fence of a code block with the language tag [tag]. *)
Definition backticks (tag : string) : string :=
  if String.eqb tag "md" then "````" else "```".

(** [read_text] returns or raises [UnicodeDecodeError], the one exception
    that [create_markdown] catches. *)
Definition readable (fs : node) (file_path : Path) : Prop :=
  match read_text (lookup fs file_path) with
  | Ok _ | Raise UnicodeDecodeError => True
  | Raise _ => False
  end.

(** The text shown for a file: its content, or the placeholder. *)
Definition shown_content (fs : node) (file_path : Path) : string :=
  match read_text (lookup fs file_path) with
  | Ok text => text
  | Raise _ => "# [Binary file not displayed]" +++ nl
  end.

(** The four writes of the section of one collected file, with the
    language tag [tag]. *)
Definition code_section (fs : node) (tag : string) (f : string * Path)
  : list string :=
  [ "### " +++ fst f +++ nl;
    backticks tag +++ tag +++ nl;
    shown_content fs (snd f) +++ nl;
    backticks tag +++ nl +++ nl ].

(** ** Inputs of the examples *)

(** The ignore file [proj/.llmignore] with the one line [*.log], and the
    ignore file [proj/tmp/.gitignore] with the one line [*]. *)
Definition log_spec : IgnoreSpec :=
  (["proj"], ["proj"; ".llmignore"], "*.log", GitWildMatch.compile ["*.log"]).

Definition tmp_spec : IgnoreSpec :=
  (["proj"; "tmp"], ["proj"; "tmp"; ".gitignore"], "*", GitWildMatch.compile ["*"]).

(** The two lines of the negation example, as an ignore file reads. *)
Definition keep_content : string :=
  "build/*" +++ nl +++ "!build/keep.txt" +++ nl.

(** The spec that [load_ignore_files] makes of [.llmignore] in [base_dir]
    with that content. *)
Definition keep_spec (base_dir : Path) : IgnoreSpec :=
  (base_dir, base_dir ++ [".llmignore"], keep_content,
   GitWildMatch.compile (splitlines keep_content)).

(** A project with that ignore file and a [build] directory. *)
Definition keep_project : node :=
  Dir [("proj",
        Dir [(".llmignore", File 24 (Some keep_content));
             ("build", Dir [("keep.txt", File 4 (Some "keep"));
                            ("other.txt", File 5 (Some "other"))]);
             ("main.py", File 9 (Some "print(1)"))])].

(** A project whose directory [b] holds one file. *)
Definition nested_project : node :=
  Dir [("proj",
        Dir [("a.py", File 6 (Some "a = 1"));
             ("b", Dir [("c.py", File 6 (Some "c = 3"))])])].

(** A project of two files. *)
Definition flat_project : node :=
  Dir [("proj",
        Dir [("a.py", File 6 (Some "a = 1"));
             ("b.py", File 6 (Some "b = 2"))])].

(** A project with a directory and a file after it. *)
Definition mixed_project : node :=
  Dir [("proj",
        Dir [("d", Dir [("f.py", File 6 (Some "f = 1"))]);
             ("z.py", File 6 (Some "z = 2"))])].

(** A project with a Markdown file, a file without extension and a
    Python file. *)
Definition doc_project : node :=
  Dir [("proj",
        Dir [("README.md", File 5 (Some "# hi"));
             ("Makefile", File 4 (Some "all:"));
             ("main.py", File 8 (Some "print(1)"))])].

(** ** Vocabulary of the further properties *)

(** The components of an entry of [ignore_specs]. *)
Definition base_dir_of `{Matching} (s : IgnoreSpec) : Path := fst (fst (fst s)).
Definition ignore_path_of `{Matching} (s : IgnoreSpec) : Path := snd (fst (fst s)).

(** An event that consults a CLI exclude pattern. *)
Definition consults_cli (ev : event) : bool :=
  match ev with
  | Fnmatch _ _ => true
  | _ => false
  end.

(** What a run of the decider may leave in the trace: log records at
    level info, and consultations of the patterns and of the ignore files
    it was given. *)
Definition decider_event (exclude_patterns : list string)
    (ignore_paths : list Path) (ev : event) : Prop :=
  match ev with
  | LogInfo _ => True
  | Fnmatch _ pattern => In pattern exclude_patterns
  | MatchFile ignore_path _ => In ignore_path ignore_paths
  | _ => False
  end.

(** The record that [matches_any] logs for a match. *)
Definition match_record (identifier pattern : string) : event :=
  LogInfo ("Match: '" +++ pattern +++ "' for identifier: '" +++ identifier +++ "'").

(** The entries that [project_dir.rglob(file_name)] yields. *)
Definition ignore_files (fs : node) (project_dir : Path) (file_name : string)
  : list Entry :=
  match lookup fs project_dir with
  | Some current =>
      filter (fun e : Entry => String.eqb (name (fst e)) file_name)
        (rglob current project_dir)
  | None => []
  end.

(** The lines of the entry, when it can be read, are all patterns. *)
Definition compiles `{Matching} (e : Entry) : Prop :=
  forall content,
    read_text (Some (snd e)) = Ok content ->
    exists spec, from_lines (splitlines content) = Ok spec.

(** What [load_ignore_files] logs for an entry: a warning when it cannot
    be read. *)
Definition read_warning `{Matching} (e : Entry) : list event :=
  match read_text (Some (snd e)) with
  | Raise err =>
      [LogWarning ("Could not read " +++ as_posix (fst e) +++ ": "
                   +++ str_exception (fst e) err)]
  | Ok _ => []
  end.

(** What [load_ignore_files] makes of an entry: a spec when it can be
    read and its lines compile. *)
Definition loaded `{Matching} (e : Entry) : list IgnoreSpec :=
  match read_text (Some (snd e)) with
  | Ok content =>
      match from_lines (splitlines content) with
      | Ok spec => [(parent (fst e), fst e, content, spec)]
      | Raise _ => []
      end
  | Raise _ => []
  end.


(** The order of two entries by their sorting keys, and by their names
    without regard to case. *)
Definition key_order (a b : Entry) : Prop :=
  key_le (tree_key a) (tree_key b) = true.

Definition name_order (a b : Entry) : Prop :=
  String.leb (lower (name (fst a))) (lower (name (fst b))) = true.

(** The project root that a traversal works with. *)
Definition root_of (dir_path : Path) (project_root : option Path) : Path :=
  match project_root with
  | None => dir_path
  | Some r => r
  end.

(** The two connectors and the two units of indentation of the tree. *)
Definition is_connector (c : string) : Prop := c = "└──" \/ c = "├──".

Definition is_indent_unit (u : string) : Prop := u = "    " \/ u = "│   ".

(** A project with a byte-code cache. *)
Definition cache_project : node :=
  Dir [("proj",
        Dir [("__pycache__", Dir [("m.pyc", File 3 None)]);
             ("m.py", File 6 (Some "m = 1"))])].

(** A project with a package whose [__init__.py] is empty. *)
Definition package_project : node :=
  Dir [("proj",
        Dir [("pkg", Dir [("__init__.py", File 0 (Some ""));
                          ("core.py", File 6 (Some "x = 1"))])])].

(** A string of ASCII characters. *)
Fixpoint ascii_only (s : string) : bool :=
  match s with
  | EmptyString => true
  | String c s' => (nat_of_ascii c <? 128)%nat && ascii_only s'
  end.


(** A project whose ignore file holds a line that is no pattern. *)
Definition bang_project : node :=
  Dir [("proj",
        Dir [(".llmignore", File 1 (Some "!"));
             ("main.py", File 8 (Some "print(1)"))])].

(** A project with a symbolic link to a directory outside it. *)
Definition linked_project : node :=
  Dir [("proj",
        Dir [("a.py", File 6 (Some "a = 1"));
             ("lib", Link (Dir [("x.py", File 6 (Some "x = 1"))]))])].

(** A record of the log. *)
Definition is_log_record (ev : event) : Prop :=
  match ev with
  | LogInfo _ | LogWarning _ => True
  | _ => False
  end.

(** A message echoed with [typer.echo], on either stream. *)
Definition prints (ev : event) : bool :=
  match ev with
  | Echo _ | EchoErr _ => true
  | _ => false
  end.

(** The names of the ignore files that the flags of [main] enable. *)
Definition enabled_ignore_names (no_llmignore use_gitignore : bool) : list string :=
  (if no_llmignore then [] else [".llmignore"])
  ++ (if use_gitignore then [".gitignore"] else []).

(** The event consults no ignore file but one with a name among [names]. *)
Definition consults_only_files (names : list string) (ev : event) : Prop :=
  match ev with
  | MatchFile ignore_path _ => In (name ignore_path) names
  | _ => True
  end.

(** A project with a file whose bytes are not UTF-8. *)
Definition binary_project : node :=
  Dir [("proj",
        Dir [("logo.png", File 4 None);
             ("main.py", File 8 (Some "print(1)"))])].

(** * Properties *)

(** ** The monad *)

Lemma value_bind {A B} (m : M A) (f : A -> M B) :
  value (bind m f) =
  match value m with
  | Ok a => value (f a)
  | Raise e => Raise e
  end.
Proof.
  unfold bind; destruct m as [[a | e] w]; simpl; [destruct (f a) | ]; reflexivity.
Qed.

Lemma trace_bind {A B} (m : M A) (f : A -> M B) :
  trace (bind m f) =
  match value m with
  | Ok a => trace m ++ trace (f a)
  | Raise _ => trace m
  end.
Proof.
  unfold bind; destruct m as [[a | e] w]; simpl; [destruct (f a) | ]; reflexivity.
Qed.

Lemma bind_ext {A B} (m : M A) (f g : A -> M B) :
  (forall a, f a = g a) -> bind m f = bind m g.
Proof.
  intros E. unfold bind. destruct m as [[a | e] w]; [rewrite E | ]; reflexivity.
Qed.

Lemma value_emit_bind {B} ev (k : M B) : value (emit ev ;; k) = value k.
Proof. rewrite value_bind; reflexivity. Qed.

Lemma trace_emit_bind {B} ev (k : M B) : trace (emit ev ;; k) = ev :: trace k.
Proof. rewrite trace_bind; reflexivity. Qed.

Lemma never_app p w w' : never p (w ++ w') <-> never p w /\ never p w'.
Proof.
  unfold never. rewrite forallb_app, andb_true_iff. reflexivity.
Qed.

Lemma never_cons p ev w : never p (ev :: w) <-> p ev = false /\ never p w.
Proof.
  unfold never. simpl. rewrite andb_true_iff, negb_true_iff. reflexivity.
Qed.

(** ** Paths *)

Lemma strip_parts_app (root l : Path) : strip_parts (root ++ l) root = Ok l.
Proof.
  induction root as [ | c root IH]; simpl; [reflexivity | ].
  rewrite String.eqb_refl. exact IH.
Qed.

Lemma strip_parts_Ok (path root r : Path) :
  strip_parts path root = Ok r -> path = root ++ r.
Proof.
  revert path; induction root as [ | c root IH]; intros path; simpl.
  - intros E; injection E as ->; reflexivity.
  - destruct path as [ | p path]; [discriminate | ].
    destruct (String.eqb_spec c p) as [-> | ]; [ | discriminate].
    intros E. rewrite (IH _ E). reflexivity.
Qed.

Lemma strip_parts_Raise (path root : Path) e :
  strip_parts path root = Raise e -> e = ValueError.
Proof.
  revert path; induction root as [ | c root IH]; intros path; simpl.
  - discriminate.
  - destruct path as [ | p path]; [congruence | ].
    destruct (String.eqb c p); [apply IH | congruence].
Qed.

Lemma relative_to_app (root l : Path) :
  below root l -> relative_to (root ++ l) root = Ok l.
Proof.
  intros Hb. destruct root as [ | c root].
  - simpl. rewrite (Hb eq_refl). reflexivity.
  - exact (strip_parts_app (c :: root) l).
Qed.

Lemma relative_to_Ok (path root r : Path) :
  relative_to path root = Ok r -> path = root ++ r.
Proof.
  destruct root as [ | c root].
  - simpl. destruct (is_absolute path); [discriminate | ].
    intros E; injection E as ->; reflexivity.
  - apply strip_parts_Ok.
Qed.

Lemma relative_to_Ok_below (path root r : Path) :
  relative_to path root = Ok r -> below root r.
Proof.
  intros E ->. simpl in E. destruct (is_absolute path) eqn:Ha; [discriminate | ].
  injection E as <-. exact Ha.
Qed.

Lemma relative_to_Raise (path root : Path) e :
  relative_to path root = Raise e -> e = ValueError.
Proof.
  destruct root as [ | c root].
  - simpl. destruct (is_absolute path); congruence.
  - apply strip_parts_Raise.
Qed.

Lemma is_absolute_app (p q : Path) :
  p <> [] -> is_absolute (p ++ q) = is_absolute p.
Proof. destruct p; [congruence | reflexivity]. Qed.

Lemma below_app (root l m : Path) :
  below root l -> l <> [] -> below root (l ++ m).
Proof.
  intros Hb Hl E. rewrite is_absolute_app by exact Hl. exact (Hb E).
Qed.

Lemma below_nonempty (root l : Path) : root <> [] -> below root l.
Proof. intros Hr E. contradiction. Qed.

(** The path [path ++ rel] below a path under [root]. *)
Lemma relative_to_below (path root l rel : Path) :
  relative_to path root = Ok l ->
  below path rel ->
  relative_to (path ++ rel) root = Ok (l ++ rel).
Proof.
  intros E Hb. pose proof (relative_to_Ok _ _ _ E) as ->.
  rewrite <- app_assoc. apply relative_to_app.
  intros ->. pose proof (relative_to_Ok_below _ _ _ E eq_refl) as Hl.
  destruct l as [ | c l]; [apply Hb; reflexivity | exact Hl].
Qed.

(** ** The inclusion decider *)

Section DeciderFacts.

Context `{Matching}.

Lemma matches_any_value identifier patterns :
  value (matches_any identifier patterns) = Ok (existsb (fnmatch identifier) patterns).
Proof.
  induction patterns as [ | pattern patterns IH]; simpl; [reflexivity | ].
  rewrite value_bind, value_emit_bind. simpl.
  destruct (fnmatch identifier pattern); simpl; [reflexivity | exact IH].
Qed.

Lemma matches_any_trace identifier patterns :
  never consults_spec (trace (matches_any identifier patterns)).
Proof.
  induction patterns as [ | pattern patterns IH]; simpl; [reflexivity | ].
  rewrite trace_bind, value_emit_bind, trace_emit_bind. simpl.
  destruct (fnmatch identifier pattern); simpl; [reflexivity | exact IH].
Qed.

Lemma should_process_specs_value path identifier ignore_specs :
  value (should_process_specs path identifier ignore_specs) =
  Ok (negb (existsb (excluded_by path) ignore_specs)).
Proof.
  induction ignore_specs as [ | [[[base_dir ignore_path] content] spec] specs IH];
    simpl; [reflexivity | ].
  destruct (relative_to path base_dir) as [r | e]; simpl; [ | exact IH].
  rewrite value_bind, value_emit_bind. simpl.
  destruct (match_file spec (as_posix r)); simpl; [reflexivity | exact IH].
Qed.

(** The value of [should_process], in closed form. *)
Lemma should_process_value path exclude_patterns ignore_specs project_root :
  value (should_process path exclude_patterns ignore_specs project_root) =
  match relative_to path project_root with
  | Ok r =>
      Ok (negb (contains ".git" r)
          && negb (existsb (fnmatch (as_posix r)) exclude_patterns)
          && negb (existsb (excluded_by path) ignore_specs))
  | Raise _ => if contains ".git" path then Ok false else Raise ValueError
  end.
Proof.
  unfold should_process, relative_parts.
  destruct (relative_to path project_root) as [r | e] eqn:E.
  - destruct (contains ".git" r); simpl; [reflexivity | ].
    rewrite value_bind. simpl. rewrite value_bind, matches_any_value.
    destruct (existsb (fnmatch (as_posix r)) exclude_patterns); simpl;
      [reflexivity | apply should_process_specs_value].
  - destruct (contains ".git" path); simpl; [reflexivity | ].
    rewrite (relative_to_Raise _ _ _ E). reflexivity.
Qed.

Lemma should_process_under path exclude_patterns ignore_specs root l :
  relative_to path root = Ok l ->
  exists b, value (should_process path exclude_patterns ignore_specs root) = Ok b.
Proof.
  intros E. rewrite should_process_value, E. eauto.
Qed.

End DeciderFacts.

Lemma existsb_Permutation {A} (f : A -> bool) (l l' : list A) :
  Permutation l l' -> existsb f l = existsb f l'.
Proof.
  induction 1 as [ | x l l' _ IH | x y l | l l' l'' _ IH1 _ IH2]; simpl.
  - reflexivity.
  - rewrite IH; reflexivity.
  - destruct (f x), (f y); reflexivity.
  - congruence.
Qed.

(** C3, as stated, fails: a path with a [.git] component that belongs to
    the project root itself (the tool run on [.git/hooks]) is included. *)
Lemma git_component_in_project_root_is_included :
  contains ".git" [".git"; "hooks"; "pre-commit"] = true /\
  value (should_process [".git"; "hooks"; "pre-commit"] [] [] [".git"; "hooks"])
  = Ok true.
Proof. split; reflexivity. Qed.

(** C3 (amended): for every path whose components relative to the project
    root (all its components, when it does not lie under the project root)
    include [.git], and for every list of CLI exclude patterns and of ignore
    specs, [should_process] returns false; it logs one record and consults
    no pattern before it returns. *)
Theorem should_process_git_excluded `{Matching}
    (path : Path) (exclude_patterns : list string)
    (ignore_specs : list IgnoreSpec) (project_root : Path) :
  contains ".git" (relative_parts path project_root) = true ->
  should_process path exclude_patterns ignore_specs project_root
  = (Ok false, [LogInfo ("Ignoring .git folder or file: " +++ as_posix path)])
  /\ never consults
       (trace (should_process path exclude_patterns ignore_specs project_root)).
Proof.
  intros Hgit.
  assert (E : should_process path exclude_patterns ignore_specs project_root
              = (Ok false,
                 [LogInfo ("Ignoring .git folder or file: " +++ as_posix path)])).
  { unfold should_process. rewrite Hgit. reflexivity. }
  split; [exact E | rewrite E; reflexivity].
Qed.

Lemma should_process_git_excluded_witness :
  contains ".git" (relative_parts ["proj"; "sub"; ".git"; "config"] ["proj"]) = true /\
  value (should_process ["proj"; "sub"; ".git"; "config"] ["*.md"] [log_spec] ["proj"])
  = Ok false.
Proof.
  split; [reflexivity | ].
  pose proof (should_process_git_excluded
                ["proj"; "sub"; ".git"; "config"] ["*.md"] [log_spec] ["proj"]
                eq_refl) as [E _].
  rewrite E. reflexivity.
Defined.

(** C4: when the identifier of a path, relative to the project root,
    matches one of the CLI exclude patterns, [should_process] returns
    false whatever the ignore specs are, and no ignore spec is consulted. *)
Theorem cli_exclude_takes_precedence `{Matching}
    (path : Path) (exclude_patterns : list string)
    (ignore_specs : list IgnoreSpec) (project_root r : Path) (pattern : string) :
  relative_to path project_root = Ok r ->
  In pattern exclude_patterns ->
  fnmatch (as_posix r) pattern = true ->
  value (should_process path exclude_patterns ignore_specs project_root) = Ok false
  /\ never consults_spec
       (trace (should_process path exclude_patterns ignore_specs project_root)).
Proof.
  intros Hrel Hin Hmatch.
  assert (Hex : existsb (fnmatch (as_posix r)) exclude_patterns = true).
  { apply existsb_exists. exists pattern. split; assumption. }
  split.
  - rewrite should_process_value, Hrel, Hex.
    destruct (contains ".git" r); reflexivity.
  - unfold should_process, relative_parts. rewrite Hrel.
    destruct (contains ".git" r); [reflexivity | ].
    rewrite trace_bind. simpl.
    rewrite trace_bind, matches_any_value, Hex. simpl.
    apply never_app. split; [apply matches_any_trace | reflexivity].
Qed.

Lemma cli_exclude_takes_precedence_witness :
  value (should_process ["proj"; "docs"; "README.md"] ["*.log"; "*.md"]
           [log_spec; tmp_spec] ["proj"]) = Ok false.
Proof.
  apply (cli_exclude_takes_precedence
           ["proj"; "docs"; "README.md"] ["*.log"; "*.md"] [log_spec; tmp_spec]
           ["proj"] ["docs"; "README.md"] "*.md").
  - reflexivity.
  - simpl; auto.
  - reflexivity.
Defined.

(** C7: the result of [should_process] does not depend on the order of
    the ignore specs. *)
Theorem should_process_permutation `{Matching}
    (path : Path) (exclude_patterns : list string)
    (ignore_specs ignore_specs' : list IgnoreSpec) (project_root : Path) :
  Permutation ignore_specs ignore_specs' ->
  value (should_process path exclude_patterns ignore_specs project_root)
  = value (should_process path exclude_patterns ignore_specs' project_root).
Proof.
  intros Hperm. rewrite !should_process_value.
  rewrite (existsb_Permutation (excluded_by path) _ _ Hperm). reflexivity.
Qed.

Lemma should_process_permutation_witness :
  value (should_process ["proj"; "tmp"; "a.log"] [] [log_spec; tmp_spec] ["proj"])
  = value (should_process ["proj"; "tmp"; "a.log"] [] [tmp_spec; log_spec] ["proj"]).
Proof.
  apply (should_process_permutation ["proj"; "tmp"; "a.log"] []
           [log_spec; tmp_spec] [tmp_spec; log_spec] ["proj"]).
  apply perm_swap.
Defined.



Lemma strip_parts_app_both (root l m : Path) :
  strip_parts (root ++ l) (root ++ m) = strip_parts l m.
Proof.
  induction root as [ | c root IH]; simpl; [reflexivity | ].
  rewrite String.eqb_refl. exact IH.
Qed.

Lemma relative_to_strip_parts (path other : Path) :
  other <> [] -> relative_to path other = strip_parts path other.
Proof. destruct other; [congruence | reflexivity]. Qed.

Lemma contains_app x l m : contains x (l ++ m) = contains x l || contains x m.
Proof. apply existsb_app. Qed.

(** C5: an ignore file with the lines [build/*] and [!build/keep.txt],
    and no CLI excludes: [build/keep.txt] under the file's directory is
    processed, [build/other.txt] is not, wherever below the project root
    the file's directory [project_root ++ mid] lies.  The spec is the one
    that [load_ignore_files] compiles from the file. *)
Theorem negation_within_one_spec (project_root mid : Path) :
  below project_root mid ->
  contains ".git" mid = false ->
  let base_dir := project_root ++ mid in
  value (should_process (base_dir ++ ["build"; "keep.txt"]) []
           [keep_spec base_dir] project_root) = Ok true
  /\ value (should_process (base_dir ++ ["build"; "other.txt"]) []
              [keep_spec base_dir] project_root) = Ok false
  /\ value (load_ignore_files keep_project ["proj"] ".llmignore")
     = Ok [keep_spec ["proj"]].
Proof.
  intros Hrel Hmid base_dir. subst base_dir.
  assert (Hb : forall nm, below project_root (mid ++ ["build"; nm])).
  { intros nm E. destruct mid; [reflexivity | exact (Hrel E)]. }
  assert (Hb' : forall nm, below (project_root ++ mid) ["build"; nm]).
  { intros nm _. reflexivity. }
  split; [ | split].
  - rewrite should_process_value, <- app_assoc, (relative_to_app _ _ (Hb _)).
    rewrite contains_app, Hmid. simpl.
    rewrite app_assoc, (relative_to_app _ _ (Hb' _)). reflexivity.
  - rewrite should_process_value, <- app_assoc, (relative_to_app _ _ (Hb _)).
    rewrite contains_app, Hmid. simpl.
    rewrite app_assoc, (relative_to_app _ _ (Hb' _)). reflexivity.
  - reflexivity.
Qed.

Lemma negation_within_one_spec_witness :
  value (should_process ["proj"; "build"; "keep.txt"] [] [keep_spec ["proj"]]
           ["proj"]) = Ok true
  /\ value (should_process ["proj"; "build"; "other.txt"] [] [keep_spec ["proj"]]
              ["proj"]) = Ok false.
Proof.
  destruct (negation_within_one_spec ["proj"] [] (fun _ => eq_refl) eq_refl)
    as (Hkeep & Hother & _).
  split; [exact Hkeep | exact Hother].
Defined.

Section Scoping.

Context `{Matching}.

Lemma should_process_specs_out_of_scope path identifier specs1 specs2
    base_dir ignore_path content spec e :
  relative_to path base_dir = Raise e ->
  should_process_specs path identifier
    (specs1 ++ (base_dir, ignore_path, content, spec) :: specs2)
  = should_process_specs path identifier (specs1 ++ specs2).
Proof.
  intros Hout.
  induction specs1 as [ | [[[b i] c] s] specs1 IH]; simpl.
  - rewrite Hout. reflexivity.
  - rewrite IH. reflexivity.
Qed.

Lemma should_process_out_of_scope path exclude_patterns specs1 specs2
    project_root base_dir ignore_path content spec e :
  relative_to path base_dir = Raise e ->
  should_process path exclude_patterns
    (specs1 ++ (base_dir, ignore_path, content, spec) :: specs2) project_root
  = should_process path exclude_patterns (specs1 ++ specs2) project_root.
Proof.
  intros Hout. unfold should_process.
  destruct (contains ".git" (relative_parts path project_root)); [reflexivity | ].
  apply bind_ext; intros r. apply bind_ext; intros [ | ]; [reflexivity | ].
  eapply should_process_specs_out_of_scope; eassumption.
Qed.

End Scoping.

(** C6: an ignore spec is applied to a path only when the path lies under
    the spec's scope root, and then to the path re-expressed relative to
    that root.  Out of scope the spec changes nothing, neither the result
    nor what is consulted.  In particular a spec of [a/b], whose pattern
    matches [x], does not affect [a/x] and excludes [a/b/x]. *)
Theorem ignore_spec_scoping `{Matching}
    (path project_root base_dir ignore_path : Path) (content : string)
    (spec : PathSpec) (exclude_patterns : list string)
    (specs1 specs2 : list IgnoreSpec) :
  let s : IgnoreSpec := (base_dir, ignore_path, content, spec) in
  (relative_to path base_dir = Raise ValueError ->
   should_process path exclude_patterns (specs1 ++ s :: specs2) project_root
   = should_process path exclude_patterns (specs1 ++ specs2) project_root)
  /\ (forall r p,
         relative_to path base_dir = Ok r ->
         relative_to path project_root = Ok p ->
         match_file spec (as_posix r) = true ->
         value (should_process path exclude_patterns (specs1 ++ s :: specs2)
                  project_root) = Ok false)
  /\ (base_dir = project_root ++ ["a"; "b"] ->
      match_file spec "x" = true ->
      should_process (project_root ++ ["a"; "x"]) exclude_patterns
        (specs1 ++ s :: specs2) project_root
      = should_process (project_root ++ ["a"; "x"]) exclude_patterns
          (specs1 ++ specs2) project_root
      /\ value (should_process (project_root ++ ["a"; "b"; "x"]) exclude_patterns
                  (specs1 ++ s :: specs2) project_root) = Ok false).
Proof.
  intros s. subst s.
  assert (Hin : forall q r p,
             relative_to q base_dir = Ok r ->
             relative_to q project_root = Ok p ->
             match_file spec (as_posix r) = true ->
             value (should_process q exclude_patterns
                      (specs1 ++ (base_dir, ignore_path, content, spec) :: specs2)
                      project_root) = Ok false).
  { intros q r p Hr Hp Hm.
    rewrite should_process_value, Hp.
    assert (Hex : existsb (excluded_by q)
                    (specs1 ++ (base_dir, ignore_path, content, spec) :: specs2)
                  = true).
    { apply existsb_exists. exists (base_dir, ignore_path, content, spec).
      split; [apply in_elt | ]. simpl. rewrite Hr. exact Hm. }
    rewrite Hex, andb_false_r. reflexivity. }
  split; [ | split].
  - intros Hout. eapply should_process_out_of_scope; eassumption.
  - apply Hin.
  - intros -> Hx. split.
    + eapply should_process_out_of_scope with (e := ValueError).
      rewrite relative_to_strip_parts by (destruct project_root; discriminate).
      rewrite strip_parts_app_both. reflexivity.
    + apply (Hin _ ["x"] ["a"; "b"; "x"]).
      * replace (project_root ++ ["a"; "b"; "x"])
          with ((project_root ++ ["a"; "b"]) ++ ["x"])
          by (rewrite <- app_assoc; reflexivity).
        apply relative_to_app. intros _. reflexivity.
      * apply relative_to_app. intros _. reflexivity.
      * exact Hx.
Qed.

Lemma ignore_spec_scoping_witness :
  value (should_process ["a"; "x"] []
           [(["a"; "b"], ["a"; "b"; ".llmignore"], "x", GitWildMatch.compile ["x"])]
           [])
  = Ok true
  /\ value (should_process ["a"; "b"; "x"] []
              [(["a"; "b"], ["a"; "b"; ".llmignore"], "x",
                GitWildMatch.compile ["x"])] [])
     = Ok false.
Proof.
  destruct (@ignore_spec_scoping python_matching
              ["a"; "x"] [] ["a"; "b"] ["a"; "b"; ".llmignore"]
              "x" (GitWildMatch.compile ["x"]) [] [] []) as (_ & _ & Hab).
  destruct (Hab eq_refl eq_refl) as [Hout Hin].
  split.
  - exact (eq_trans (f_equal value Hout) eq_refl).
  - exact Hin.
Defined.

(** ** Sorting and the listing of a directory *)

Lemma in_insert_by {A} (key : A -> bool * string) (x y : A) (l : list A) :
  In y (insert_by key x l) <-> y = x \/ In y l.
Proof.
  induction l as [ | z l IH]; simpl.
  - intuition congruence.
  - destruct (key_le (key x) (key z)); simpl; [ | rewrite IH]; intuition congruence.
Qed.

Lemma in_sorted {A} (key : A -> bool * string) (y : A) (l : list A) :
  In y (sorted key l) <-> In y l.
Proof.
  induction l as [ | x l IH]; simpl; [reflexivity | ].
  rewrite in_insert_by, IH. intuition congruence.
Qed.

Lemma insert_by_map {A B} (h : A -> B) keyA keyB (x : A) (l : list A) :
  (forall a, keyB (h a) = keyA a) ->
  insert_by keyB (h x) (map h l) = map h (insert_by keyA x l).
Proof.
  intros Hkey. induction l as [ | y l IH]; simpl; [reflexivity | ].
  rewrite !Hkey. destruct (key_le (keyA x) (keyA y)); simpl;
    [reflexivity | rewrite IH; reflexivity].
Qed.

Lemma sorted_map {A B} (h : A -> B) keyA keyB (l : list A) :
  (forall a, keyB (h a) = keyA a) ->
  sorted keyB (map h l) = map h (sorted keyA l).
Proof.
  intros Hkey. unfold sorted.
  induction l as [ | x l IH]; simpl; [reflexivity | ].
  rewrite IH. apply insert_by_map. exact Hkey.
Qed.

Lemma filter_map_commute {A B} (h : A -> B) pA pB (l : list A) :
  (forall a, pB (h a) = pA a) ->
  filter pB (map h l) = map h (filter pA l).
Proof.
  intros Hp. induction l as [ | x l IH]; simpl; [reflexivity | ].
  rewrite Hp, IH. destruct (pA x); reflexivity.
Qed.

(** The listing with something attached to each entry is the plain
    listing with the same thing attached afterwards. *)
Lemma listing_attach {T} (sub : node -> Path -> T) current_path children :
  sorted (fun x : Entry * T => tree_key (fst x))
    (filter (fun x : Entry * T => prefiltered (fst (fst x)))
       (map (fun e => ((current_path ++ [fst e], snd e),
                       sub (snd e) (current_path ++ [fst e])))
          children))
  = map (fun e : Entry => (e, sub (snd e) (fst e))) (listing current_path children).
Proof.
  unfold listing, iterdir.
  rewrite <- (sorted_map (fun e : Entry => (e, sub (snd e) (fst e)))
                tree_key (fun x : Entry * T => tree_key (fst x)))
    by reflexivity.
  rewrite <- (filter_map_commute (fun e : Entry => (e, sub (snd e) (fst e)))
                (fun p : Entry => prefiltered (fst p))
                (fun x : Entry * T => prefiltered (fst (fst x))))
    by reflexivity.
  rewrite map_map. reflexivity.
Qed.

Lemma in_listing current_path children (e : Entry) :
  In e (listing current_path children) <->
  prefiltered (fst e) = true /\
  exists nm, In (nm, snd e) children /\ fst e = current_path ++ [nm].
Proof.
  unfold listing, iterdir. rewrite in_sorted, filter_In, in_map_iff.
  split.
  - intros [[[nm c] [E Hin]] Hp]. subst e. simpl in *. eauto.
  - intros [Hp [nm [Hin E]]]. split; [ | exact Hp].
    exists (nm, snd e). split; [ | exact Hin].
    simpl. rewrite <- E. destruct e; reflexivity.
Qed.

(** Induction on the tree, with the hypothesis for every child. *)
Lemma node_ind_children (P : node -> Prop) :
  (forall children, Forall (fun e => P (snd e)) children -> P (Dir children)) ->
  (forall sz text, P (File sz text)) ->
  (forall sz, P (Special sz)) ->
  (forall target, P target -> P (Link target)) ->
  forall n, P n.
Proof.
  intros HDir HFile HSpecial HLink.
  fix IH 1. intros [children | sz text | sz | target].
  - apply HDir. induction children as [ | [nm c] children IHc].
    + constructor.
    + constructor; [apply IH | exact IHc].
  - apply HFile.
  - apply HSpecial.
  - apply HLink. apply IH.
Qed.

(** ** Symbolic links *)

Lemma follow_idem (n : node) : follow (follow n) = follow n.
Proof. induction n; simpl; auto. Qed.

Lemma follow_not_link (n target : node) : follow n <> Link target.
Proof. induction n; simpl; auto; discriminate. Qed.

Lemma is_dir_follow (n : node) : is_dir (follow n) = is_dir n.
Proof. unfold is_dir. rewrite follow_idem. reflexivity. Qed.

Lemma is_file_follow (n : node) : is_file (follow n) = is_file n.
Proof. unfold is_file. rewrite follow_idem. reflexivity. Qed.

Lemma st_size_follow (n : node) : st_size (follow n) = st_size n.
Proof. unfold st_size. rewrite follow_idem. reflexivity. Qed.

Lemma read_text_follow (n : node) :
  read_text (Some (follow n)) = read_text (Some n).
Proof. unfold read_text. simpl. rewrite follow_idem. reflexivity. Qed.

Lemma is_dir_Dir (n : node) :
  is_dir n = true <-> exists children, follow n = Dir children.
Proof.
  unfold is_dir. destruct (follow n); split; try discriminate; eauto;
    intros [c E]; discriminate.
Qed.

Lemma is_dir_is_file (n : node) : is_file n = true -> is_dir n = false.
Proof. unfold is_dir, is_file. destruct (follow n); congruence. Qed.

(** ** The tree renderer *)

Section TreeFacts.

Context `{Matching}.

Variable exclude_patterns : list string.
Variable ignore_specs : list IgnoreSpec.
Variable root : Path.

#[local] Abbreviation included' := (included exclude_patterns ignore_specs root).
#[local] Abbreviation _tree' := (_tree exclude_patterns ignore_specs root).
#[local] Abbreviation tree_rows' := (tree_rows exclude_patterns ignore_specs root).

Lemma included_value (p l : Path) :
  relative_to p root = Ok l ->
  value (should_process p exclude_patterns ignore_specs root)
  = Ok (included' p).
Proof.
  intros E.
  destruct (should_process_under p exclude_patterns ignore_specs root l E)
    as [b Eb].
  unfold included. rewrite Eb. reflexivity.
Qed.

Lemma included_under (l : Path) :
  below root l ->
  value (should_process (root ++ l) exclude_patterns ignore_specs root)
  = Ok (included' (root ++ l)).
Proof.
  intros Hb. apply (included_value _ l). apply relative_to_app. exact Hb.
Qed.

Lemma _tree_Dir children current_path prefix :
  _tree' (Dir children) current_path prefix
  = tree_loop exclude_patterns ignore_specs root
      (length (listing current_path children)) 0
      (map (fun e : Entry => (e, _tree' (snd e) (fst e)))
         (listing current_path children))
      prefix [].
Proof.
  cbn [_tree]. unfold TreeEntry.
  rewrite (listing_attach _tree'), length_map. reflexivity.
Qed.

Lemma tree_rows_Dir children current_path prefix :
  tree_rows' (Dir children) current_path prefix
  = rows_loop exclude_patterns ignore_specs root
      (length (listing current_path children)) 0
      (map (fun e : Entry => (e, tree_rows' (snd e) (fst e)))
         (listing current_path children))
      prefix.
Proof.
  cbn [tree_rows].
  rewrite (listing_attach tree_rows'), length_map. reflexivity.
Qed.

Lemma tree_loop_rows (L : list Entry) :
  (forall e, In e L -> exists l, relative_to (fst e) root = Ok l) ->
  (forall e, In e L -> is_dir (snd e) = true ->
     forall pre, value (_tree' (snd e) (fst e) pre)
                 = Ok (map snd (tree_rows' (snd e) (fst e) pre))) ->
  forall count index prefix acc,
    value (tree_loop exclude_patterns ignore_specs root count index
             (map (fun e : Entry => (e, _tree' (snd e) (fst e))) L) prefix acc)
    = Ok (acc ++ map snd
            (rows_loop exclude_patterns ignore_specs root count index
               (map (fun e : Entry => (e, tree_rows' (snd e) (fst e))) L) prefix)).
Proof.
  induction L as [ | [entry n] L IH]; intros Hunder Hsub count index prefix acc.
  - simpl. rewrite app_nil_r. reflexivity.
  - assert (IH' := IH (fun e He => Hunder e (or_intror He))
                      (fun e He => Hsub e (or_intror He))).
    destruct (Hunder (entry, n) (or_introl eq_refl)) as [l El].
    simpl in El.
    cbn [map tree_loop rows_loop fst snd].
    rewrite value_bind, (included_value _ _ El).
    destruct (included' entry); cbn [negb].
    + destruct (is_dir n) eqn:Edir.
      * rewrite value_bind.
        rewrite (Hsub (entry, n) (or_introl eq_refl) Edir).
        rewrite IH'. cbn [map snd]. rewrite map_app, <- !app_assoc. reflexivity.
      * unfold empty_init. cbn [fst snd].
        destruct (String.eqb (name entry) "__init__.py" && (st_size n =? 0)%N).
        -- apply IH'.
        -- rewrite IH'. cbn [map snd]. rewrite <- app_assoc. reflexivity.
    + apply IH'.
Qed.

Lemma in_rglob_links_child children path nm c x :
  In (nm, c) children ->
  In x (rglob_links c (path ++ [nm])) ->
  In x (rglob_links (Dir children) path).
Proof.
  intros Hc Hx. cbn [rglob_links]. apply in_or_app. right.
  apply in_flat_map. exists (nm, c). split; [exact Hc | exact Hx].
Qed.

Lemma in_rglob_links_entry children path nm c :
  In (nm, c) children ->
  In (path ++ [nm], c) (rglob_links (Dir children) path).
Proof.
  intros Hc. cbn [rglob_links]. apply in_or_app. left.
  unfold iterdir. apply in_map_iff. exists (nm, c). split; [reflexivity | exact Hc].
Qed.

(** The lines that [_tree] returns are the lines of the rows, for a
    directory whose entries all lie under the project root. *)
Lemma tree_rows_lines (current : node) :
  is_dir current = true ->
  forall path prefix,
    (forall e, In e (rglob_links current path) ->
               exists l, relative_to (fst e) root = Ok l) ->
    value (_tree' current path prefix)
    = Ok (map snd (tree_rows' current path prefix)).
Proof.
  induction current as [children IH | sz text | sz | target IH]
    using node_ind_children;
    intros Hdir path prefix Hunder; try discriminate.
  - rewrite _tree_Dir, tree_rows_Dir, tree_loop_rows; [reflexivity | | ].
    + intros e He. apply in_listing in He. destruct He as [_ [nm [Hin E]]].
      apply Hunder. destruct e as [p n]. simpl in *. subst p.
      apply in_rglob_links_entry. exact Hin.
    + intros e He Edir pre. apply in_listing in He.
      destruct He as [_ [nm [Hin E]]].
      rewrite Forall_forall in IH. rewrite E.
      apply (IH _ Hin Edir (path ++ [nm]) pre).
      intros x Hx. apply Hunder.
      exact (in_rglob_links_child _ _ _ _ _ Hin Hx).
  - exact (IH Hdir path prefix Hunder).
Qed.

(** Which entries the rows show. *)

Lemma in_rows_loop (L : list Entry) (Qsub : Entry -> Entry -> Prop) :
  (forall e, In e L -> forall pre x,
       In x (map fst (tree_rows' (snd e) (fst e) pre)) <-> Qsub e x) ->
  forall count index prefix x,
    In x (map fst
            (rows_loop exclude_patterns ignore_specs root count index
               (map (fun e : Entry => (e, tree_rows' (snd e) (fst e))) L) prefix))
    <-> exists e, In e L /\ included' (fst e) = true /\
                  ((x = e /\ shown_file_or_dir e) \/
                   (is_dir (snd e) = true /\ Qsub e x)).
Proof.
  unfold shown_file_or_dir.
  induction L as [ | e L IH]; intros Hsub count index prefix x.
  - simpl. split; [intros [] | intros [e [[] _]]].
  - specialize (IH (fun e' He' => Hsub e' (or_intror He'))).
    assert (Hrest : forall y,
               (exists e', In e' L /\ included' (fst e') = true /\
                           ((y = e' /\ (is_dir (snd e') = true \/ empty_init e' = false))
                            \/ (is_dir (snd e') = true /\ Qsub e' y)))
               -> exists e', In e' (e :: L) /\ included' (fst e') = true /\
                             ((y = e' /\ (is_dir (snd e') = true \/ empty_init e' = false))
                              \/ (is_dir (snd e') = true /\ Qsub e' y))).
    { intros y [e' [He' Hrest]]. exists e'. split; [right; exact He' | exact Hrest]. }
    cbn [map rows_loop fst snd].
    destruct (included' (fst e)) eqn:Einc; cbn [negb].
    + destruct (is_dir (snd e)) eqn:Edir.
      * cbn [map fst]. rewrite map_app. simpl. rewrite in_app_iff.
        rewrite (Hsub e (or_introl eq_refl)), IH.
        split.
        -- intros [E | [HQ | Hin]].
           ++ exists e. split; [left; reflexivity | ]. split; [exact Einc | ].
              left. split; [symmetry; exact E | left; exact Edir].
           ++ exists e. split; [left; reflexivity | ]. split; [exact Einc | ].
              right. split; [exact Edir | exact HQ].
           ++ apply Hrest. exact Hin.
        -- intros [e' [[<- | He'] [Hinc Hcase]]].
           ++ destruct Hcase as [[-> _] | [_ HQ]]; [left; reflexivity | right; left; exact HQ].
           ++ right; right. exists e'. split; [exact He' | split; [exact Hinc | exact Hcase]].
      * destruct (empty_init e) eqn:Einit.
        -- rewrite IH. split.
           ++ apply Hrest.
           ++ intros [e' [[<- | He'] [Hinc Hcase]]].
              ** destruct Hcase as [[-> [Hd | Hi]] | [Hd _]]; congruence.
              ** exists e'. split; [exact He' | split; [exact Hinc | exact Hcase]].
        -- cbn [map fst]. simpl. rewrite IH. split.
           ++ intros [E | Hin].
              ** exists e. split; [left; reflexivity | ]. split; [exact Einc | ].
                 left. split; [symmetry; exact E | right; exact Einit].
              ** apply Hrest. exact Hin.
           ++ intros [e' [[<- | He'] [Hinc Hcase]]].
              ** destruct Hcase as [[-> _] | [Hd _]]; [left; reflexivity | congruence].
              ** right. exists e'. split; [exact He' | split; [exact Hinc | exact Hcase]].
    + rewrite IH. split.
      * apply Hrest.
      * intros [e' [[<- | He'] [Hinc Hcase]]]; [congruence | ].
        exists e'. split; [exact He' | split; [exact Hinc | exact Hcase]].
Qed.

Lemma rglob_links_paths (current : node) :
  forall path x,
    In x (rglob_links current path) ->
    exists nm rel children,
      fst x = path ++ nm :: rel /\ follow current = Dir children /\
      In nm (map fst children).
Proof.
  induction current as [children IH | sz text | sz | target IH]
    using node_ind_children;
    intros path x Hin; try contradiction.
  - cbn [rglob_links] in Hin. apply in_app_or in Hin. destruct Hin as [Hin | Hin].
    + unfold iterdir in Hin. apply in_map_iff in Hin.
      destruct Hin as [[nm c] [<- Hc]]. exists nm, [], children.
      split; [reflexivity | split; [reflexivity | ]].
      apply in_map_iff. exists (nm, c). split; [reflexivity | exact Hc].
    + apply in_flat_map in Hin. destruct Hin as [[nm c] [Hc Hin]].
      rewrite Forall_forall in IH.
      destruct (IH _ Hc _ _ Hin) as (nm' & rel & _ & E & _). simpl in E.
      exists nm, (nm' :: rel), children.
      split; [rewrite E, <- app_assoc; reflexivity | split; [reflexivity | ]].
      apply in_map_iff. exists (nm, c). split; [reflexivity | exact Hc].
  - exact (IH path x Hin).
Qed.

Lemma rglob_paths (current : node) :
  forall path x,
    In x (rglob_links current path) -> exists rel, rel <> [] /\ fst x = path ++ rel.
Proof.
  intros path x Hin.
  destruct (rglob_links_paths _ _ _ Hin) as (nm & rel & _ & E & _).
  exists (nm :: rel). split; [discriminate | exact E].
Qed.

Lemma rglob_not_dir (current : node) path :
  is_dir current = false -> rglob current path = [].
Proof. destruct current; [discriminate | reflexivity ..]. Qed.

Lemma rglob_links_not_dir (current : node) path :
  is_dir current = false -> rglob_links current path = [].
Proof.
  induction current as [children IH | sz text | sz | target IH]
    using node_ind_children; intros Hdir;
    [discriminate | reflexivity | reflexivity | exact (IH Hdir)].
Qed.

(** What [rglob] finds, the renderer can reach. *)
Lemma rglob_rglob_links (current : node) :
  forall path x, In x (rglob current path) -> In x (rglob_links current path).
Proof.
  induction current as [children IH | sz text | sz | target IH]
    using node_ind_children;
    intros path x Hin; try contradiction.
  cbn [rglob] in Hin. cbn [rglob_links].
  apply in_app_or in Hin. apply in_or_app. destruct Hin as [Hin | Hin].
  - left. exact Hin.
  - right. apply in_flat_map in Hin. destruct Hin as [[nm c] [Hc Hin]].
    apply in_flat_map. exists (nm, c). split; [exact Hc | ].
    rewrite Forall_forall in IH. exact (IH _ Hc _ _ Hin).
Qed.

(** The entries that the rows of a directory show: those the renderer can
    reach that pass [should_process], are not an empty [__init__.py], and
    whose directories above are all shown. *)
Lemma in_tree_rows (current : node) :
  forall path prefix x,
    In x (map fst (tree_rows' current path prefix)) <->
    In x (rglob_links current path) /\ included' (fst x) = true /\
    shown_file_or_dir x /\
    exists rel, fst x = path ++ rel /\
                ancestors_shown exclude_patterns ignore_specs root path rel = true /\
                prefiltered (fst x) = true.
Proof.
  induction current as [children IH | sz text | sz | target IH]
    using node_ind_children;
    intros path prefix x; try (simpl; tauto).
  2: { exact (IH path prefix x). }
  rewrite Forall_forall in IH.
  rewrite tree_rows_Dir.
  rewrite (in_rows_loop (listing path children)
             (fun e x =>
                In x (rglob_links (snd e) (fst e)) /\ included' (fst x) = true /\
                shown_file_or_dir x /\
                exists rel, fst x = fst e ++ rel /\
                  ancestors_shown exclude_patterns ignore_specs root (fst e) rel = true /\
                  prefiltered (fst x) = true)).
  2: { intros e He pre y. apply in_listing in He.
       destruct He as [_ [nm [Hin _]]]. apply (IH _ Hin). }
  cbn [rglob_links]. split.
  - intros [e [He [Hinc [[-> Hshown] | [Hdir HQ]]]]];
      apply in_listing in He; destruct He as [Hpre [nm [Hin E]]].
    + split; [ | split; [exact Hinc | split; [exact Hshown | ]]].
      * apply in_or_app. left. unfold iterdir. apply in_map_iff.
        exists (nm, snd e). split; [ | exact Hin].
        simpl. rewrite <- E. destruct e; reflexivity.
      * exists [nm]. split; [exact E | split; [reflexivity | exact Hpre]].
    + destruct HQ as (Hx & Hincx & Hshown & rel & Erel & Hanc & Hprex).
      split; [ | split; [exact Hincx | split; [exact Hshown | ]]].
      * apply in_or_app. right. apply in_flat_map.
        exists (nm, snd e). split; [exact Hin | ]. simpl. rewrite <- E. exact Hx.
      * destruct (rglob_paths _ _ _ Hx) as [rel' [Hne E']].
        rewrite Erel in E'. apply app_inv_head in E'. subst rel'.
        exists (nm :: rel). split; [ | split; [ | exact Hprex]].
        -- rewrite Erel, E, <- app_assoc. reflexivity.
        -- destruct rel as [ | r rel]; [congruence | ].
           cbn [ancestors_shown]. rewrite <- E, Hpre, Hinc. exact Hanc.
  - intros (Hx & Hincx & Hshown & rel & Erel & Hanc & Hprex).
    apply in_app_or in Hx. destruct Hx as [Hx | Hx].
    + unfold iterdir in Hx. apply in_map_iff in Hx.
      destruct Hx as [[nm c] [Ex Hin]]. simpl in Ex.
      exists x. split; [ | split; [exact Hincx | left; split; [reflexivity | exact Hshown]]].
      apply in_listing. split; [exact Hprex | ].
      exists nm. subst x. split; [exact Hin | reflexivity].
    + apply in_flat_map in Hx. destruct Hx as [[nm c] [Hin Hx]]. simpl in Hx.
      destruct (is_dir c) eqn:Edir.
      2: { rewrite rglob_links_not_dir in Hx by exact Edir. contradiction. }
      destruct (rglob_paths _ _ _ Hx) as [rel' [Hne E']].
      assert (Erel' : rel = nm :: rel').
      { apply (app_inv_head path). rewrite <- Erel, E', <- app_assoc. reflexivity. }
      subst rel. destruct rel' as [ | r rel']; [congruence | ].
      cbn [ancestors_shown] in Hanc.
      apply andb_true_iff in Hanc. destruct Hanc as [Hanc Hanc'].
      apply andb_true_iff in Hanc. destruct Hanc as [Hpre Hinc].
      exists (path ++ [nm], c). split; [ | split; [exact Hinc | right]].
      * apply in_listing. split; [exact Hpre | ]. exists nm. split; [exact Hin | reflexivity].
      * split; [exact Edir | ]. simpl.
        split; [exact Hx | split; [exact Hincx | split; [exact Hshown | ]]].
        exists (r :: rel'). split; [exact E' | split; [exact Hanc' | exact Hprex]].
Qed.

End TreeFacts.

(** ** The file collector *)

Section CollectorFacts.

Context `{Matching}.

Variable exclude_patterns : list string.
Variable ignore_specs : list IgnoreSpec.
Variable dir_path : Path.

#[local] Abbreviation collected' :=
  (collected_entry exclude_patterns ignore_specs dir_path).

Lemma included_no_git (p : Path) :
  contains ".git" (relative_parts p dir_path) = true ->
  included exclude_patterns ignore_specs dir_path p = false.
Proof.
  unfold relative_parts, included.
  rewrite should_process_value.
  destruct (relative_to p dir_path) as [r | e].
  - intros ->. reflexivity.
  - intros ->. reflexivity.
Qed.

Lemma get_code_files_loop_value (paths : list Entry) :
  (forall x, In x paths -> exists l, relative_to (fst x) dir_path = Ok l) ->
  forall code_files,
    value (get_code_files_loop exclude_patterns ignore_specs dir_path dir_path
             paths code_files)
    = Ok (code_files ++
          flat_map (fun x : Entry =>
                      if collected' x
                      then [(as_posix (relative_parts (fst x) dir_path), fst x)]
                      else [])
            paths).
Proof.
  induction paths as [ | [path n] paths IH]; intros Hunder code_files.
  - simpl. rewrite app_nil_r. reflexivity.
  - assert (IH' := IH (fun x Hx => Hunder x (or_intror Hx))).
    destruct (Hunder (path, n) (or_introl eq_refl)) as [l El].
    simpl in El.
    cbn [get_code_files_loop flat_map]. unfold collected_entry, empty_init.
    cbn [fst snd].
    destruct (contains ".git" (relative_parts path dir_path)) eqn:Egit.
    + rewrite included_no_git by exact Egit. simpl. apply IH'.
    + rewrite value_bind, (included_value _ _ _ _ _ El).
      destruct (included exclude_patterns ignore_specs dir_path path);
        cbn [negb andb]; [ | apply IH'].
      destruct (is_file n); cbn [andb]; [ | apply IH'].
      destruct (String.eqb (name path) "__init__.py" && (st_size n =? 0)%N);
        cbn [negb]; [apply IH' | ].
      rewrite value_bind. unfold relative_parts.
      rewrite El. simpl value at 1. cbv iota beta.
      rewrite IH'. cbn [app]. rewrite <- app_assoc. reflexivity.
Qed.

(** The directory found at [Path(".")] has no entry named ["/"]. *)
Lemma lookup_nil_children (fs : node) (children : list (string * node)) :
  follow (working_directory fs) = Dir children ->
  forall nm, In nm (map fst children) -> String.eqb nm "/" = false.
Proof.
  unfold working_directory. intros E nm Hnm.
  destruct (follow fs) as [c | sz text | sz | target] eqn:Ef;
    try discriminate.
  - simpl in E. injection E as <-.
    apply in_map_iff in Hnm. destruct Hnm as [[nm' n] [<- Hin]].
    apply filter_In in Hin. destruct Hin as [_ Hnm]. simpl in *.
    apply negb_true_iff in Hnm. exact Hnm.
  - exfalso. exact (follow_not_link _ _ Ef).
Qed.

(** What the renderer reaches from the directory at [dir_path] lies
    below [dir_path]. *)
Lemma rglob_links_below (fs current : node) (x : Entry) :
  lookup fs dir_path = Some current ->
  In x (rglob_links current dir_path) ->
  exists rel, rel <> [] /\ fst x = dir_path ++ rel /\ below dir_path rel.
Proof.
  intros Hlook Hx.
  destruct (rglob_links_paths _ _ _ Hx) as (nm & rel & children & E & Ef & Hnm).
  exists (nm :: rel). split; [discriminate | ]. split; [exact E | ].
  intros ->. simpl in Hlook. injection Hlook as <-.
  simpl. exact (lookup_nil_children _ _ Ef _ Hnm).
Qed.

Lemma rglob_links_under (fs current : node) (root l : Path) (x : Entry) :
  lookup fs dir_path = Some current ->
  relative_to dir_path root = Ok l ->
  In x (rglob_links current dir_path) ->
  exists l', relative_to (fst x) root = Ok l'.
Proof.
  intros Hlook Hrel Hx.
  destruct (rglob_links_below _ _ _ Hlook Hx) as (rel & _ & -> & Hb).
  exists (l ++ rel). apply relative_to_below; assumption.
Qed.

Lemma relative_to_refl (p : Path) : relative_to p p = Ok [].
Proof.
  rewrite <- (app_nil_r p) at 1. apply relative_to_app. intros _. reflexivity.
Qed.

Lemma get_code_files_value (fs current : node) :
  lookup fs dir_path = Some current ->
  value (get_code_files fs dir_path exclude_patterns ignore_specs None)
  = Ok (flat_map (fun x : Entry =>
                    if collected' x
                    then [(as_posix (relative_parts (fst x) dir_path), fst x)]
                    else [])
          (rglob current dir_path)).
Proof.
  intros Hlook. unfold get_code_files. rewrite Hlook.
  rewrite get_code_files_loop_value; [reflexivity | ].
  intros x Hx. apply (rglob_links_under fs current dir_path [] x Hlook).
  - apply relative_to_refl.
  - apply rglob_rglob_links. exact Hx.
Qed.

Lemma generate_tree_value (fs current : node) :
  lookup fs dir_path = Some current ->
  is_dir current = true ->
  value (generate_tree fs dir_path exclude_patterns ignore_specs None)
  = Ok (String.concat nl
          ((name dir_path +++ "/")
           :: map snd (tree_rows exclude_patterns ignore_specs dir_path
                         current dir_path ""))).
Proof.
  intros Hlook Hdir. unfold generate_tree. rewrite Hlook, value_bind.
  rewrite (tree_rows_lines exclude_patterns ignore_specs dir_path current
             Hdir dir_path ""); [reflexivity | ].
  intros x Hx. apply (rglob_links_under fs current dir_path [] x Hlook).
  - apply relative_to_refl.
  - exact Hx.
Qed.

End CollectorFacts.

(** C1, as stated, fails: with the CLI exclude pattern [b] the directory
    [b] is excluded and the renderer does not descend into it, while the
    collector still reaches [b/c.py], whose identifier the pattern does not
    match.  The tree has no line for [c.py]; the collected list has the file. *)
Lemma file_below_excluded_directory_diverges :
  value (generate_tree nested_project ["proj"] ["b"] [] None)
  = Ok ("proj/" +++ nl +++ "└── a.py")
  /\ value (get_code_files nested_project ["proj"] ["b"] [] None)
     = Ok [("a.py", ["proj"; "a.py"]); ("b/c.py", ["proj"; "b"; "c.py"])].
Proof. split; reflexivity. Qed.

(** A regular file that [rglob] finds has a row in the tree exactly when
    it is collected and the renderer reaches it. *)
Lemma file_rows_iff_collected_and_reached `{Matching}
    (fs : node) (dir_path : Path) (children : list (string * node))
    (exclude_patterns : list string) (ignore_specs : list IgnoreSpec) :
  lookup fs dir_path = Some (Dir children) ->
  let rows :=
    tree_rows exclude_patterns ignore_specs dir_path (Dir children) dir_path "" in
  exists code_files,
    value (generate_tree fs dir_path exclude_patterns ignore_specs None)
    = Ok (String.concat nl ((name dir_path +++ "/") :: map snd rows))
    /\ value (get_code_files fs dir_path exclude_patterns ignore_specs None)
       = Ok code_files
    /\ forall p : Path,
         (exists n line, In ((p, n), line) rows /\ is_file n = true /\
                         In (p, n) (rglob (Dir children) dir_path)) <->
         (In p (map snd code_files) /\
          reached exclude_patterns ignore_specs dir_path dir_path p = true).
Proof.
  intros Hlook rows.
  eexists. split; [ | split].
  - apply (generate_tree_value _ _ _ _ _ Hlook). reflexivity.
  - apply (get_code_files_value _ _ _ _ _ Hlook).
  - intros p. split.
    + intros (n & line & Hrow & Hfile & Hx).
      assert (Hin : In (p, n) (map fst rows)).
      { apply in_map_iff. exists ((p, n), line). split; [reflexivity | exact Hrow]. }
      apply in_tree_rows in Hin.
      destruct Hin as (Hx' & Hinc & Hshown & rel & Erel & Hanc & Hpre).
      simpl in Hinc, Erel, Hpre.
      split.
      * apply in_map_iff. exists (as_posix (relative_parts p dir_path), p).
        split; [reflexivity | ]. apply in_flat_map. exists (p, n).
        split; [exact Hx | ].
        unfold collected_entry. cbn [fst snd]. rewrite Hinc, Hfile.
        destruct Hshown as [Hd | Hi].
        -- simpl in Hd. rewrite (is_dir_is_file _ Hfile) in Hd. discriminate.
        -- rewrite Hi. left; reflexivity.
      * destruct (rglob_links_below _ _ _ _ Hlook Hx') as (rel' & _ & E' & Hb).
        simpl in E'. rewrite Erel in E'. apply app_inv_head in E'. subst rel'.
        unfold reached. rewrite Erel, (relative_to_app _ _ Hb), Hanc.
        rewrite <- Erel. exact Hpre.
    + intros [Hcol Hreach].
      apply in_map_iff in Hcol. destruct Hcol as [[s q] [Eq Hcol]].
      simpl in Eq. subst q.
      apply in_flat_map in Hcol. destruct Hcol as [[q n] [Hx Hcol]].
      unfold collected_entry in Hcol. cbn [fst snd] in Hcol.
      destruct (included exclude_patterns ignore_specs dir_path q) eqn:Hinc;
        [ | contradiction].
      destruct (is_file n) eqn:Hfile; [ | contradiction].
      destruct (empty_init (q, n)) eqn:Hinit; [contradiction | ].
      simpl in Hcol. destruct Hcol as [Eq | []].
      injection Eq as _ ->.
      unfold reached in Hreach.
      destruct (relative_to p dir_path) as [rel | e] eqn:Erel; [ | discriminate].
      apply relative_to_Ok in Erel.
      apply andb_true_iff in Hreach. destruct Hreach as [Hanc Hpre].
      assert (Hin : In (p, n) (map fst rows)).
      { apply in_tree_rows. split; [apply rglob_rglob_links; exact Hx | ].
        split; [exact Hinc | ].
        split; [right; exact Hinit | ].
        exists rel. split; [exact Erel | split; [exact Hanc | exact Hpre]]. }
      apply in_map_iff in Hin. destruct Hin as [[[p' n'] line] [E Hrow]].
      simpl in E. injection E as -> ->.
      exists n, line. split; [exact Hrow | split; [exact Hfile | exact Hx]].
Qed.


Lemma last_app_In (path rel : list string) (d : string) :
  rel <> [] -> In (last (path ++ rel) d) rel.
Proof.
  intros Hne. induction path as [ | c path IH]; simpl.
  - clear - Hne. induction rel as [ | a rel IH]; [congruence | ].
    destruct rel as [ | b rel]; [left; reflexivity | ].
    right. apply IH. discriminate.
  - destruct (path ++ rel) as [ | x t] eqn:E; [ | exact IH].
    apply app_eq_nil in E. destruct E as [_ ->]. congruence.
Qed.

Lemma contains_false_In (x : string) (parts : list string) (y : string) :
  contains x parts = false -> In y parts -> String.eqb y x = false.
Proof.
  intros Hc Hin. unfold contains in Hc.
  rewrite String.eqb_sym.
  destruct (String.eqb x y) eqn:E; [ | reflexivity].
  rewrite <- Hc. symmetry. apply existsb_exists. exists y. split; assumption.
Qed.

Lemma prefiltered_components (path rel : list string) :
  rel <> [] ->
  contains "__pycache__" rel = false ->
  contains ".git" rel = false ->
  prefiltered (path ++ rel) = true.
Proof.
  intros Hne Hpc Hgit. unfold prefiltered, name.
  destruct (is_root (path ++ rel)); [reflexivity | ].
  pose proof (last_app_In path rel "" Hne) as Hin.
  rewrite (contains_false_In _ _ _ Hpc Hin), (contains_false_In _ _ _ Hgit Hin).
  reflexivity.
Qed.

Section ReachedFacts.

Context `{Matching}.

Variable exclude_patterns : list string.
Variable ignore_specs : list IgnoreSpec.
Variable root : Path.

Lemma included_git_free (l : Path) :
  included exclude_patterns ignore_specs root (root ++ l) = true ->
  contains ".git" l = false.
Proof.
  unfold included. rewrite should_process_value.
  destruct (relative_to (root ++ l) root) as [r | e] eqn:E.
  - apply relative_to_Ok in E. apply app_inv_head in E. subst r.
    destruct (contains ".git" l); [discriminate | reflexivity].
  - destruct (contains ".git" (root ++ l)); discriminate.
Qed.

Lemma included_relative (p : Path) :
  included exclude_patterns ignore_specs root p = true ->
  exists l, relative_to p root = Ok l.
Proof.
  unfold included. rewrite should_process_value.
  destruct (relative_to p root) as [r | e]; [eauto | ].
  destruct (contains ".git" p); discriminate.
Qed.

Lemma ancestors_shown_cons path nm r rel :
  ancestors_shown exclude_patterns ignore_specs root path (nm :: r :: rel)
  = prefiltered (path ++ [nm])
    && included exclude_patterns ignore_specs root (path ++ [nm])
    && ancestors_shown exclude_patterns ignore_specs root (path ++ [nm]) (r :: rel).
Proof. reflexivity. Qed.

Lemma ancestors_included_cons path nm r rel :
  ancestors_included exclude_patterns ignore_specs root path (nm :: r :: rel)
  = included exclude_patterns ignore_specs root (path ++ [nm])
    && ancestors_included exclude_patterns ignore_specs root (path ++ [nm]) (r :: rel).
Proof. reflexivity. Qed.

(** Below a directory that passes [should_process], and away from
    [__pycache__], the pre-filter on names removes nothing. *)
Lemma ancestors_shown_included (rel : list string) :
  contains "__pycache__" rel = false ->
  forall l,
    ancestors_shown exclude_patterns ignore_specs root (root ++ l) rel
    = ancestors_included exclude_patterns ignore_specs root (root ++ l) rel.
Proof.
  induction rel as [ | nm rel IH]; intros Hpc l; [reflexivity | ].
  destruct rel as [ | r rel]; [reflexivity | ].
  rewrite ancestors_shown_cons, ancestors_included_cons.
  unfold contains in Hpc. cbn [existsb] in Hpc. fold (contains "__pycache__" (r :: rel)) in Hpc.
  apply orb_false_iff in Hpc. destruct Hpc as [Hnm Hpc].
  destruct (included exclude_patterns ignore_specs root ((root ++ l) ++ [nm]))
    eqn:Hinc; [ | rewrite andb_false_r; reflexivity].
  rewrite <- app_assoc in Hinc. apply included_git_free in Hinc.
  rewrite contains_app in Hinc. apply orb_false_iff in Hinc.
  destruct Hinc as [_ Hgit].
  rewrite (prefiltered_components (root ++ l) [nm]).
  - cbn [andb]. rewrite <- app_assoc. apply IH. exact Hpc.
  - discriminate.
  - unfold contains. cbn [existsb]. rewrite Hnm. reflexivity.
  - exact Hgit.
Qed.

End ReachedFacts.

(** C1 (amended): the lines of the rendered tree are the lines of
    [tree_rows], and for a regular file that [rglob] finds below [dir_path]
    (a file that does not lie below a symbolic link to a directory), with
    no component named [__pycache__]: it has a line in the tree if and only
    if it is in the collected list and every directory between [dir_path]
    and the file passes [should_process]. *)
Theorem tree_and_collector_agree_below_included_directories `{Matching}
    (fs : node) (dir_path : Path) (children : list (string * node))
    (exclude_patterns : list string) (ignore_specs : list IgnoreSpec) :
  lookup fs dir_path = Some (Dir children) ->
  let rows :=
    tree_rows exclude_patterns ignore_specs dir_path (Dir children) dir_path "" in
  exists code_files,
    value (generate_tree fs dir_path exclude_patterns ignore_specs None)
    = Ok (String.concat nl ((name dir_path +++ "/") :: map snd rows))
    /\ value (get_code_files fs dir_path exclude_patterns ignore_specs None)
       = Ok code_files
    /\ forall rel : list string,
         contains "__pycache__" rel = false ->
         ((exists n line,
              In ((dir_path ++ rel, n), line) rows /\ is_file n = true /\
              In (dir_path ++ rel, n) (rglob (Dir children) dir_path))
          <->
          (In (dir_path ++ rel) (map snd code_files) /\
           ancestors_included exclude_patterns ignore_specs dir_path dir_path rel
           = true)).
Proof.
  intros Hlook rows.
  destruct (file_rows_iff_collected_and_reached fs dir_path children
              exclude_patterns ignore_specs Hlook)
    as (code_files & Htree & Hcol & Hiff).
  exists code_files. split; [exact Htree | ]. split; [exact Hcol | ].
  intros rel Hpc. fold rows in Hiff.
  pose proof (ancestors_shown_included exclude_patterns ignore_specs dir_path rel
                Hpc []) as Eanc.
  rewrite app_nil_r in Eanc.
  split.
  - intros Hrow. apply Hiff in Hrow. destruct Hrow as [Hin Hr].
    split; [exact Hin | ].
    unfold reached in Hr.
    destruct (relative_to (dir_path ++ rel) dir_path) as [rel' | e] eqn:Erel;
      [ | discriminate].
    apply relative_to_Ok in Erel. apply app_inv_head in Erel. subst rel'.
    apply andb_true_iff in Hr. destruct Hr as [Ha _].
    rewrite <- Eanc. exact Ha.
  - intros [Hin Hr]. apply Hiff. split; [exact Hin | ].
    rewrite (get_code_files_value _ _ _ _ _ Hlook) in Hcol. injection Hcol as <-.
    apply in_map_iff in Hin. destruct Hin as [[s q] [Eq Hin]]. simpl in Eq. subst q.
    apply in_flat_map in Hin. destruct Hin as [[q n] [Hx Hin]].
    unfold collected_entry in Hin. cbn [fst snd] in Hin.
    destruct (included exclude_patterns ignore_specs dir_path q) eqn:Hinc;
      [ | contradiction].
    destruct (is_file n); [ | contradiction].
    destruct (empty_init (q, n)); [contradiction | ].
    destruct Hin as [Eq | []]. injection Eq as _ Eq. subst q.
    destruct (rglob_links_below _ _ _ _ Hlook
                (rglob_rglob_links (Dir children) dir_path _ Hx))
      as (rel' & Hne & E & Hb).
    cbn [fst] in E. apply app_inv_head in E. subst rel'.
    unfold reached. rewrite (relative_to_app _ _ Hb), Eanc, Hr. cbn [andb].
    apply prefiltered_components; [exact Hne | exact Hpc | ].
    apply (included_git_free exclude_patterns ignore_specs dir_path rel Hinc).
Qed.

Lemma tree_and_collector_agree_below_included_directories_witness :
  exists code_files,
    value (get_code_files nested_project ["proj"] ["b"] [] None) = Ok code_files
    /\ In ["proj"; "b"; "c.py"] (map snd code_files)
    /\ ancestors_included ["b"] [] ["proj"] ["proj"] ["b"; "c.py"] = false
    /\ ~ (exists n line,
            In ((["proj"; "b"; "c.py"], n), line)
              (tree_rows ["b"] [] ["proj"]
                 (Dir [("a.py", File 6 (Some "a = 1"));
                       ("b", Dir [("c.py", File 6 (Some "c = 3"))])])
                 ["proj"] "")
            /\ is_file n = true
            /\ In (["proj"; "b"; "c.py"], n)
                 (rglob (Dir [("a.py", File 6 (Some "a = 1"));
                              ("b", Dir [("c.py", File 6 (Some "c = 3"))])])
                    ["proj"])).
Proof.
  destruct (tree_and_collector_agree_below_included_directories nested_project
              ["proj"]
              [("a.py", File 6 (Some "a = 1"));
               ("b", Dir [("c.py", File 6 (Some "c = 3"))])]
              ["b"] [] eq_refl) as (code_files & _ & Hcol & Hiff).
  exists code_files. split; [exact Hcol | ].
  assert (E : Ok code_files
              = Ok [("a.py", ["proj"; "a.py"]); ("b/c.py", ["proj"; "b"; "c.py"])]).
  { rewrite <- Hcol. reflexivity. }
  injection E as ->.
  split; [simpl; auto | ]. split; [reflexivity | ].
  intros Hrow. apply (Hiff ["b"; "c.py"] eq_refl) in Hrow.
  destruct Hrow as [_ Hanc]. discriminate Hanc.
Defined.

(** C2, evaluated where it fails.  The connector is chosen by the position
    in the listing before [should_process] is applied: when the last entry
    of the listing is excluded, the last line that is rendered keeps the
    connector and the indentation of an inner sibling. *)
Theorem last_rendered_sibling_keeps_inner_connector :
  value (generate_tree flat_project ["proj"] ["b.py"] [] None)
  = Ok ("proj/" +++ nl +++
        "├── a.py")
  /\ value (generate_tree mixed_project ["proj"] ["z.py"] [] None)
     = Ok ("proj/" +++ nl +++
           "├── d/" +++ nl +++
           "│   └── f.py").
Proof. split; reflexivity. Qed.

(** ** Well-formed file systems *)

Lemma unique_names_Dir (children : list (string * node)) :
  unique_names (Dir children) <->
  NoDup (map fst children) /\ Forall (fun e => unique_names (snd e)) children.
Proof.
  cbn [unique_names].
  assert (E : forall l : list (string * node),
             (fix all (l : list (string * node)) : Prop :=
                match l with
                | [] => True
                | e :: l' => unique_names (snd e) /\ all l'
                end) l
             <-> Forall (fun e => unique_names (snd e)) l).
  { induction l as [ | e l IH].
    - split; [constructor | trivial].
    - rewrite Forall_cons_iff, IH. reflexivity. }
  rewrite E. reflexivity.
Qed.

Lemma find_unique (children : list (string * node)) nm c :
  NoDup (map fst children) ->
  In (nm, c) children ->
  find (fun e => String.eqb (fst e) nm) children = Some (nm, c).
Proof.
  induction children as [ | [nm' c'] children IH]; intros Hnd Hin; [contradiction | ].
  simpl in *. inversion Hnd as [ | ? ? Hnotin Hnd']; subst.
  destruct Hin as [E | Hin].
  - injection E as -> ->. rewrite String.eqb_refl. reflexivity.
  - destruct (String.eqb_spec nm' nm) as [-> | _]; [ | apply IH; assumption].
    exfalso. apply Hnotin. apply in_map_iff. exists (nm, c). split; [reflexivity | exact Hin].
Qed.

Lemma walk_app (n : node) (p q : Path) :
  walk n (p ++ q) =
  match walk n p with
  | Some m => walk m q
  | None => None
  end.
Proof.
  revert n. induction p as [ | c p IH]; intros n; simpl; [reflexivity | ].
  destruct (follow n) as [children | | | ]; try reflexivity.
  destruct (find (fun e => String.eqb (fst e) c) children) as [[nm m] | ];
    [apply IH | reflexivity].
Qed.

Lemma walk_follow (n : node) (p : Path) :
  p <> [] -> walk (follow n) p = walk n p.
Proof.
  destruct p as [ | c p]; [congruence | ]. intros _. simpl.
  rewrite follow_idem. reflexivity.
Qed.

Lemma unique_names_follow (n : node) : unique_names n -> unique_names (follow n).
Proof. induction n; simpl; auto. Qed.

Lemma unique_names_walk (p : Path) :
  forall n m, unique_names n -> walk n p = Some m -> unique_names m.
Proof.
  induction p as [ | c p IH]; intros n m Hu Hl; simpl in Hl.
  - injection Hl as <-. exact Hu.
  - apply unique_names_follow in Hu.
    destruct (follow n) as [children | | | ]; try discriminate.
    destruct (find (fun e => String.eqb (fst e) c) children) as [[nm k] | ] eqn:Ef;
      [ | discriminate].
    apply unique_names_Dir in Hu. destruct Hu as [_ Hall].
    rewrite Forall_forall in Hall.
    apply find_some in Ef. destruct Ef as [Hin _].
    apply (IH k m); [apply (Hall _ Hin) | exact Hl].
Qed.

(** Leaving entries out of a directory keeps its names distinct. *)
Lemma filter_keeps_names_distinct (keep : string * node -> bool)
    (children : list (string * node)) :
  NoDup (map fst children) -> NoDup (map fst (filter keep children)).
Proof.
  intros Hnd. induction children as [ | c children IH]; [exact Hnd | ].
  cbn [map] in Hnd. apply NoDup_cons_iff in Hnd. destruct Hnd as [Hfresh Hnd].
  cbn [filter]. destruct (keep c); [ | exact (IH Hnd)].
  cbn [map]. apply NoDup_cons; [ | exact (IH Hnd)].
  intros Hin. apply Hfresh. apply in_map_iff in Hin.
  destruct Hin as [d [E Hd]]. apply filter_In in Hd.
  apply in_map_iff. exists d. split; [exact E | apply Hd].
Qed.

Lemma unique_names_working_directory (fs : node) :
  unique_names fs -> unique_names (working_directory fs).
Proof.
  intros Hu. apply unique_names_follow in Hu. unfold working_directory.
  destruct (follow fs) as [children | | | ]; try exact Hu.
  apply unique_names_Dir in Hu. destruct Hu as [Hnd Hall].
  apply unique_names_Dir. split; [apply filter_keeps_names_distinct; exact Hnd | ].
  rewrite Forall_forall in *. intros e He. apply filter_In in He.
  apply Hall. apply He.
Qed.

Lemma unique_names_lookup (p : Path) :
  forall fs n, unique_names fs -> lookup fs p = Some n -> unique_names n.
Proof.
  intros fs n Hu Hl. destruct p as [ | c p].
  - simpl in Hl. injection Hl as <-. apply unique_names_working_directory. exact Hu.
  - unfold lookup in Hl.
    destruct (walk fs (c :: p)) as [m | ] eqn:Ew; [ | discriminate].
    simpl in Hl. injection Hl as <-.
    apply unique_names_follow. exact (unique_names_walk _ _ _ Hu Ew).
Qed.

(** In a well-formed tree, walking down the path of an entry that the
    renderer reaches finds that entry. *)
Lemma rglob_links_walk (current : node) :
  unique_names current ->
  forall path x,
    In x (rglob_links current path) ->
    exists rel, rel <> [] /\ fst x = path ++ rel /\ walk current rel = Some (snd x).
Proof.
  induction current as [children IH | sz text | sz | target IH]
    using node_ind_children;
    intros Hu path x Hin; try contradiction.
  - apply unique_names_Dir in Hu. destruct Hu as [Hnd Hall].
    rewrite Forall_forall in IH, Hall.
    cbn [rglob_links] in Hin. apply in_app_or in Hin. destruct Hin as [Hin | Hin].
    + unfold iterdir in Hin. apply in_map_iff in Hin.
      destruct Hin as [[nm c] [<- Hc]]. exists [nm].
      split; [discriminate | split; [reflexivity | ]].
      simpl. rewrite (find_unique _ _ _ Hnd Hc). reflexivity.
    + apply in_flat_map in Hin. destruct Hin as [[nm c] [Hc Hin]].
      destruct (IH _ Hc (Hall _ Hc) _ _ Hin) as (rel & Hne & E & Hl).
      simpl in E, Hl.
      exists (nm :: rel).
      split; [discriminate | split; [rewrite E, <- app_assoc; reflexivity | ]].
      simpl. rewrite (find_unique _ _ _ Hnd Hc). exact Hl.
  - destruct (IH Hu path x Hin) as (rel & Hne & E & Hl).
    exists rel. split; [exact Hne | split; [exact E | ]].
    rewrite <- Hl. destruct rel as [ | c rel]; [congruence | reflexivity].
Qed.

Lemma find_filter_other {A} (f p : A -> bool) (l : list A) :
  (forall x, f x = true -> p x = true) ->
  find f (filter p l) = find f l.
Proof.
  intros Hfp. induction l as [ | x l IH]; [reflexivity | ].
  simpl. destruct (p x) eqn:Ep; simpl.
  - destruct (f x); [reflexivity | exact IH].
  - destruct (f x) eqn:Ef; [ | exact IH].
    rewrite (Hfp _ Ef) in Ep. discriminate.
Qed.

Lemma walk_working_directory (fs : node) (rel : Path) :
  rel <> [] -> is_absolute rel = false ->
  walk (working_directory fs) rel = walk fs rel.
Proof.
  destruct rel as [ | c rel]; [congruence | ]. intros _ Habs. simpl in Habs.
  unfold working_directory. simpl.
  destruct (follow fs) as [children | sz text | sz | target] eqn:Ef;
    try reflexivity.
  - simpl. rewrite find_filter_other; [reflexivity | ].
    intros [nm n] E. simpl in *. apply String.eqb_eq in E. subst nm.
    rewrite Habs. reflexivity.
  - exfalso. exact (follow_not_link _ _ Ef).
Qed.

(** What the file system holds below the directory found at [dir_path]. *)
Lemma lookup_below (fs d : node) (dir_path rel : Path) :
  lookup fs dir_path = Some d ->
  rel <> [] -> below dir_path rel ->
  lookup fs (dir_path ++ rel) = option_map follow (walk d rel).
Proof.
  intros Hlook Hne Hb. destruct dir_path as [ | c dir_path].
  - simpl in Hlook. injection Hlook as <-. simpl.
    rewrite walk_working_directory by (auto using Hb).
    destruct rel; [congruence | reflexivity].
  - unfold lookup in Hlook. cbn [app]. unfold lookup.
    change (c :: dir_path ++ rel) with ((c :: dir_path) ++ rel).
    rewrite walk_app.
    destruct (walk fs (c :: dir_path)) as [m | ]; [ | discriminate].
    simpl in Hlook. injection Hlook as <-.
    rewrite walk_follow by exact Hne. reflexivity.
Qed.


(** In a well-formed file system, looking up the path of an entry that
    the renderer reaches from [dir_path] finds that entry. *)
Lemma rglob_links_lookup (fs d : node) (dir_path : Path) (x : Entry) :
  unique_names fs ->
  lookup fs dir_path = Some d ->
  In x (rglob_links d dir_path) ->
  lookup fs (fst x) = Some (follow (snd x)).
Proof.
  intros Hu Hlook Hx.
  destruct (rglob_links_below _ _ _ _ Hlook Hx) as (rel & Hne & E & Hb).
  destruct (rglob_links_walk d (unique_names_lookup _ _ _ Hu Hlook) _ _ Hx)
    as (rel' & _ & E' & Hw).
  rewrite E in E'. apply app_inv_head in E'. subst rel'.
  rewrite E, (lookup_below _ _ _ _ Hlook Hne Hb), Hw. reflexivity.
Qed.

(** ** The document assembler and [main] *)

Lemma in_trace_bind_l {A B} (m : M A) (f : A -> M B) ev :
  In ev (trace m) -> In ev (trace (bind m f)).
Proof.
  intros Hin. rewrite trace_bind. destruct (value m); [apply in_or_app; left | ];
    exact Hin.
Qed.

Lemma in_trace_bind_r {A B} (m : M A) (f : A -> M B) a ev :
  value m = Ok a -> In ev (trace (f a)) -> In ev (trace (bind m f)).
Proof.
  intros E Hin. rewrite trace_bind, E. apply in_or_app. right. exact Hin.
Qed.

Lemma create_markdown_loop_run (fs : node) (code_files : list (string * Path)) :
  Forall (fun f => readable fs (snd f)) code_files ->
  create_markdown_loop fs code_files
  = (Ok tt,
     map Write
       (flat_map (fun f => code_section fs (extension_of (snd f)) f) code_files)).
Proof.
  induction 1 as [ | [rel_path file_path] code_files Hr _ IH]; [reflexivity | ].
  cbn [create_markdown_loop flat_map]. rewrite IH.
  unfold readable in Hr. unfold code_section, shown_content, code_block_start,
    code_block_end, backticks.
  cbn [fst snd] in *.
  destruct (read_text (lookup fs file_path)) as [text | e].
  - destruct (String.eqb (extension_of file_path) "md"); reflexivity.
  - destruct e; try contradiction.
    destruct (String.eqb (extension_of file_path) "md"); reflexivity.
Qed.

Section MainFacts.

Context `{Matching}.

Variable resolve : Path -> Path.

(** In a well-formed tree every collected file can be read. *)
Lemma collected_readable fs dir_path current exclude_patterns ignore_specs
    code_files :
  unique_names fs ->
  lookup fs dir_path = Some current ->
  value (get_code_files fs dir_path exclude_patterns ignore_specs (Some dir_path))
  = Ok code_files ->
  Forall (fun f => readable fs (snd f)) code_files.
Proof.
  intros Hu Hlook Hval.
  change (get_code_files fs dir_path exclude_patterns ignore_specs (Some dir_path))
    with (get_code_files fs dir_path exclude_patterns ignore_specs None) in Hval.
  rewrite (get_code_files_value _ _ _ _ _ Hlook) in Hval. injection Hval as <-.
  apply Forall_forall. intros [s p] Hin.
  apply in_flat_map in Hin. destruct Hin as [[q n] [Hx Hin]].
  unfold collected_entry in Hin. cbn [fst snd] in Hin.
  destruct (included exclude_patterns ignore_specs dir_path q); [ | contradiction].
  destruct (is_file n) eqn:Hfile; [ | contradiction].
  destruct (negb (empty_init (q, n))); [ | contradiction].
  destruct Hin as [Eq | []]. injection Eq as _ ->.
  pose proof (rglob_links_lookup _ _ _ _ Hu Hlook (rglob_rglob_links _ _ _ Hx))
    as Hl. cbn [fst snd] in Hl.
  unfold readable. cbn [snd]. rewrite Hl, read_text_follow.
  unfold is_file in Hfile. unfold read_text. simpl.
  destruct (follow n) as [ | sz [text | ] | | ]; try discriminate; exact I.
Qed.

Lemma create_markdown_value fs dir_path children output_file exclude_patterns
    ignore_specs tree_only :
  unique_names fs ->
  lookup fs dir_path = Some (Dir children) ->
  value (create_markdown resolve fs dir_path output_file exclude_patterns
           ignore_specs tree_only) = Ok tt.
Proof.
  intros Hu Hlook. unfold create_markdown.
  rewrite !value_emit_bind, value_bind.
  change (generate_tree fs dir_path exclude_patterns ignore_specs (Some dir_path))
    with (generate_tree fs dir_path exclude_patterns ignore_specs None).
  rewrite (generate_tree_value _ _ _ _ _ Hlook eq_refl).
  rewrite !value_emit_bind.
  destruct tree_only; cbn [negb]; [reflexivity | ].
  rewrite value_emit_bind, value_bind.
  destruct (get_code_files fs dir_path exclude_patterns ignore_specs (Some dir_path))
    as [[code_files | e] w] eqn:Eg.
  - cbn [value fst].
    rewrite (create_markdown_loop_run fs code_files); [reflexivity | ].
    apply (collected_readable fs dir_path (Dir children) exclude_patterns
             ignore_specs); [exact Hu | exact Hlook | rewrite Eg; reflexivity].
  - exfalso.
    change (get_code_files fs dir_path exclude_patterns ignore_specs (Some dir_path))
      with (get_code_files fs dir_path exclude_patterns ignore_specs None) in Eg.
    pose proof (get_code_files_value exclude_patterns ignore_specs dir_path _ _ Hlook)
      as Ev.
    rewrite Eg in Ev. discriminate.
Qed.


End MainFacts.



(** ** Strings and file names *)

Lemma length_append (a b : string) :
  String.length (a +++ b) = String.length a + String.length b.
Proof. induction a as [ | c a IH]; simpl; [reflexivity | rewrite IH; reflexivity]. Qed.

Lemma substring_full (s : string) : substring 0 (String.length s) s = s.
Proof. induction s as [ | c s IH]; simpl; [reflexivity | rewrite IH; reflexivity]. Qed.

Lemma substring_skip (pre rest : string) (m : nat) :
  substring (String.length pre) m (pre +++ rest) = substring 0 m rest.
Proof. induction pre as [ | c pre IH]; simpl; [reflexivity | exact IH]. Qed.

Lemma rfind_lower_bound c s : (-1 <= rfind c s)%Z.
Proof.
  induction s as [ | a s IH]; simpl; [lia | ].
  destruct (Z.leb_spec 0 (rfind c s)); [lia | destruct (Ascii.eqb a c); lia].
Qed.

Lemma rfind_absent c s : occurs c s = false -> rfind c s = (-1)%Z.
Proof.
  induction s as [ | a s IH]; simpl; [reflexivity | ].
  intros Ho. apply orb_false_iff in Ho. destruct Ho as [Ha Ho].
  rewrite (IH Ho), Ha. reflexivity.
Qed.

Lemma rfind_last (c : ascii) (pre post : string) :
  occurs c post = false ->
  rfind c (pre +++ String c post) = Z.of_nat (String.length pre).
Proof.
  intros Ho. induction pre as [ | a pre IH].
  - simpl. rewrite (rfind_absent _ _ Ho), Ascii.eqb_refl. reflexivity.
  - cbn [String.append rfind String.length]. rewrite IH.
    destruct (Z.leb_spec 0 (Z.of_nat (String.length pre))); lia.
Qed.

Lemma rfind_split (c : ascii) (s : string) :
  (0 <= rfind c s)%Z ->
  exists pre post,
    s = pre +++ String c post /\ occurs c post = false /\
    rfind c s = Z.of_nat (String.length pre).
Proof.
  induction s as [ | a s IH]; simpl; [lia | ].
  destruct (Z.leb_spec 0 (rfind c s)) as [Hge | Hlt].
  - intros _. destruct (IH Hge) as (pre & post & E & Ho & Er).
    exists (String a pre), post. split; [simpl; rewrite <- E; reflexivity | ].
    split; [exact Ho | ]. rewrite Er. simpl String.length. lia.
  - destruct (Ascii.eqb_spec a c) as [-> | Hne]; [ | lia].
    intros _. exists "", s. split; [reflexivity | ]. split; [ | reflexivity].
    destruct (occurs c s) eqn:Ho; [ | reflexivity].
    exfalso. clear IH. induction s as [ | b s IHs]; [discriminate | ].
    simpl in Hlt, Ho.
    destruct (Z.leb_spec 0 (rfind c s)) as [Hge' | Hlt']; [pose proof (rfind_lower_bound c s); lia | ].
    destruct (Ascii.eqb b c); [lia | ]. apply IHs; [exact Hlt' | exact Ho].
Qed.

Lemma suffix_of_extension (file_path : Path) (ext : string) :
  has_extension (name file_path) ext -> suffix file_path = String "." ext.
Proof.
  intros (base & E & Hbase & Hext & Hdot).
  unfold suffix. rewrite E.
  change (base +++ "." +++ ext) with (base +++ String "." ext).
  rewrite (rfind_last "." base ext Hdot), length_append.
  assert (Hb : 0 < String.length base) by (destruct base; [congruence | simpl; lia]).
  assert (He : 0 < String.length ext) by (destruct ext; [congruence | simpl; lia]).
  simpl String.length.
  replace ((0 <? Z.of_nat (String.length base))
           && (Z.of_nat (String.length base)
               <? Z.of_nat (String.length base + S (String.length ext)) - 1))%Z
    with true by (symmetry; apply andb_true_iff; split; apply Z.ltb_lt; lia).
  unfold slice_from. rewrite Nat2Z.id, length_append, substring_skip.
  simpl String.length.
  replace (String.length base + S (String.length ext) - String.length base)
    with (String.length (String "." ext)) by (simpl; lia).
  apply substring_full.
Qed.

Lemma no_extension (file_path : Path) :
  (forall ext, ~ has_extension (name file_path) ext) ->
  suffix file_path = "" /\ stem file_path = name file_path.
Proof.
  intros Hnone. unfold suffix, stem.
  destruct ((0 <? rfind "." (name file_path))
            && (rfind "." (name file_path)
                <? Z.of_nat (String.length (name file_path)) - 1))%Z eqn:Econd;
    [ | split; reflexivity].
  exfalso. apply andb_true_iff in Econd. destruct Econd as [Hlo Hhi].
  apply Z.ltb_lt in Hlo, Hhi.
  destruct (rfind_split "." (name file_path)) as (pre & post & E & Ho & Er); [lia | ].
  apply (Hnone post). exists pre. split; [exact E | ].
  rewrite Er in Hlo, Hhi. rewrite E, length_append in Hhi. simpl in Hhi.
  split; [ | split; [ | exact Ho]].
  - intros ->. simpl in Hlo. lia.
  - intros ->. simpl in Hhi. lia.
Qed.

(** The language tag of the source is the extension, or the whole name
    (which is then also the stem) when there is none. *)
Lemma extension_of_spec (file_path : Path) :
  (forall ext, has_extension (name file_path) ext -> extension_of file_path = ext)
  /\ ((forall ext, ~ has_extension (name file_path) ext) ->
      extension_of file_path = stem file_path
      /\ extension_of file_path = name file_path).
Proof.
  split.
  - intros ext Hext. unfold extension_of.
    rewrite (suffix_of_extension _ _ Hext). cbn [String.eqb negb].
    unfold slice_from. change (Z.to_nat 1) with 1%nat.
    cbn [String.length].
    replace (S (String.length ext) - 1) with (String.length ext) by lia.
    cbn [substring]. apply substring_full.
  - intros Hnone. destruct (no_extension _ Hnone) as [Es Et].
    unfold extension_of. rewrite Es. cbn [String.eqb negb].
    split; [reflexivity | exact Et].
Qed.

(** ** What reaches the output file *)

Lemma never_bind {A B} p (m : M A) (f : A -> M B) :
  never p (trace m) -> (forall a, never p (trace (f a))) ->
  never p (trace (bind m f)).
Proof.
  intros Hm Hf. rewrite trace_bind.
  destruct (value m); [apply never_app; split; [exact Hm | apply Hf] | exact Hm].
Qed.

Lemma writes_app (w w' : list event) : writes (w ++ w') = writes w ++ writes w'.
Proof. apply flat_map_app. Qed.

Lemma writes_cons (ev : event) (w : list event) :
  writes (ev :: w)
  = match ev with Write text => [text] | _ => [] end ++ writes w.
Proof. reflexivity. Qed.

Lemma writes_map_Write (l : list string) : writes (map Write l) = l.
Proof.
  induction l as [ | s l IH]; [reflexivity | ].
  cbn [map]. rewrite writes_cons, IH. reflexivity.
Qed.

Lemma writes_never (w : list event) : never writes_file w -> writes w = [].
Proof.
  induction w as [ | ev w IH]; [reflexivity | ].
  intros Hn. apply never_cons in Hn. destruct Hn as [Hev Hn].
  destruct ev; try discriminate; simpl; apply IH; exact Hn.
Qed.

Section QuietFacts.

Context `{Matching}.

Variable exclude_patterns : list string.
Variable ignore_specs : list IgnoreSpec.
Variable root : Path.

Lemma matches_any_quiet identifier patterns :
  never writes_file (trace (matches_any identifier patterns)).
Proof.
  induction patterns as [ | pattern patterns IH]; simpl; [reflexivity | ].
  apply never_bind; [reflexivity | ]. intros [ | ]; [reflexivity | exact IH].
Qed.

Lemma should_process_specs_quiet path identifier specs :
  never writes_file (trace (should_process_specs path identifier specs)).
Proof.
  induction specs as [ | [[[base_dir ignore_path] content] spec] specs IH]; simpl;
    [reflexivity | ].
  destruct (relative_to path base_dir); [ | exact IH].
  apply never_bind; [reflexivity | ]. intros [ | ]; [reflexivity | exact IH].
Qed.

Lemma should_process_quiet path :
  never writes_file
    (trace (should_process path exclude_patterns ignore_specs root)).
Proof.
  unfold should_process.
  destruct (contains ".git" (relative_parts path root)); [reflexivity | ].
  apply never_bind; [reflexivity | ]. intros r.
  apply never_bind; [apply matches_any_quiet | ].
  intros [ | ]; [reflexivity | apply should_process_specs_quiet].
Qed.

Lemma tree_loop_quiet (entries : list TreeEntry) :
  (forall x, In x entries -> forall pre, never writes_file (trace (snd x pre))) ->
  forall count index prefix acc,
    never writes_file
      (trace (tree_loop exclude_patterns ignore_specs root count index entries
                prefix acc)).
Proof.
  induction entries as [ | [[entry n] subtree] entries IH];
    intros Hsub count index prefix acc; [reflexivity | ].
  assert (IH' := IH (fun x Hx => Hsub x (or_intror Hx))).
  cbn [tree_loop]. apply never_bind; [apply should_process_quiet | ].
  intros [ | ]; cbn [negb]; [ | apply IH'].
  destruct (is_dir n).
  - apply never_bind;
      [apply (Hsub (entry, n, subtree) (or_introl eq_refl)) | intros sub; apply IH'].
  - destruct (String.eqb (name entry) "__init__.py" && (st_size n =? 0)%N); apply IH'.
Qed.

Lemma _tree_quiet (current : node) :
  forall path prefix,
    never writes_file
      (trace (_tree exclude_patterns ignore_specs root current path prefix)).
Proof.
  induction current as [children IH | sz text | sz | target IH]
    using node_ind_children;
    intros path prefix; try reflexivity.
  - rewrite _tree_Dir. apply tree_loop_quiet.
    intros x Hx pre. apply in_map_iff in Hx. destruct Hx as [e [<- He]].
    apply in_listing in He. destruct He as [_ [nm [Hin _]]].
    rewrite Forall_forall in IH. apply (IH _ Hin).
  - exact (IH path prefix).
Qed.

Lemma get_code_files_loop_quiet dir_path (paths : list Entry) :
  forall code_files,
    never writes_file
      (trace (get_code_files_loop exclude_patterns ignore_specs root dir_path
                paths code_files)).
Proof.
  induction paths as [ | [path n] paths IH]; intros code_files; [reflexivity | ].
  cbn [get_code_files_loop].
  destruct (contains ".git" (relative_parts path root)); [apply IH | ].
  apply never_bind; [apply should_process_quiet | ].
  intros [ | ]; cbn [negb]; [ | apply IH].
  destruct (is_file n); [ | apply IH].
  destruct (String.eqb (name path) "__init__.py" && (st_size n =? 0)%N); [apply IH | ].
  apply never_bind; [reflexivity | intros r; apply IH].
Qed.

End QuietFacts.

Lemma generate_tree_quiet `{Matching} fs dir_path exclude_patterns ignore_specs
    project_root :
  never writes_file
    (trace (generate_tree fs dir_path exclude_patterns ignore_specs project_root)).
Proof.
  unfold generate_tree. apply never_bind; [ | reflexivity].
  destruct (lookup fs dir_path); [apply _tree_quiet | reflexivity].
Qed.

Lemma get_code_files_quiet `{Matching} fs dir_path exclude_patterns ignore_specs
    project_root :
  never writes_file
    (trace (get_code_files fs dir_path exclude_patterns ignore_specs project_root)).
Proof. apply get_code_files_loop_quiet. Qed.

(** C8: the document that [create_markdown] writes ends with one section
    per collected file, whose block opens with the fence and the language
    tag and closes with the same fence.  The tag is the extension of the
    file name without its dot, or the stem, which is then the whole name,
    when the name has no extension; the fence is four backticks when the
    tag is [md] and three otherwise. *)
Theorem code_block_tag_and_fences `{Matching}
    (resolve : Path -> Path) (fs : node) (dir_path output_file : Path)
    (children : list (string * node))
    (exclude_patterns : list string) (ignore_specs : list IgnoreSpec)
    (tree_str : string) (code_files : list (string * Path)) :
  unique_names fs ->
  lookup fs dir_path = Some (Dir children) ->
  value (generate_tree fs dir_path exclude_patterns ignore_specs (Some dir_path))
  = Ok tree_str ->
  value (get_code_files fs dir_path exclude_patterns ignore_specs (Some dir_path))
  = Ok code_files ->
  writes (trace (create_markdown resolve fs dir_path output_file exclude_patterns
                   ignore_specs false))
  = [ "# " +++ name (resolve dir_path) +++ " Overview" +++ nl +++ nl;
      "## Folder Structure" +++ nl;
      "```tree" +++ nl;
      tree_str +++ nl;
      "```" +++ nl +++ nl;
      "## Code" +++ nl ]
    ++ flat_map (fun f => code_section fs (extension_of (snd f)) f) code_files
  /\ forall f, In f code_files ->
       let tag := extension_of (snd f) in
       (forall ext, has_extension (name (snd f)) ext -> tag = ext)
       /\ ((forall ext, ~ has_extension (name (snd f)) ext) ->
           tag = stem (snd f) /\ tag = name (snd f))
       /\ (tag = "md" -> backticks tag = "````")
       /\ (tag <> "md" -> backticks tag = "```").
Proof.
  intros Hu Hlook Htree Hfiles. split.
  - unfold create_markdown. rewrite !trace_emit_bind.
    rewrite trace_bind, Htree, !trace_emit_bind. cbn [negb].
    rewrite !trace_emit_bind, trace_bind, Hfiles.
    rewrite (create_markdown_loop_run fs code_files)
      by (apply (collected_readable fs dir_path (Dir children) exclude_patterns
                   ignore_specs); assumption).
    cbn [trace snd].
    repeat (rewrite ?writes_cons, ?writes_app; cbn [app]).
    rewrite (writes_never _ (generate_tree_quiet _ _ _ _ _)).
    rewrite (writes_never _ (get_code_files_quiet _ _ _ _ _)).
    rewrite writes_map_Write. reflexivity.
  - intros f _ tag. subst tag.
    destruct (extension_of_spec (snd f)) as [Hext Hnone].
    split; [exact Hext | split; [exact Hnone | split]].
    + intros ->. reflexivity.
    + intros Hne. unfold backticks.
      destruct (String.eqb_spec (extension_of (snd f)) "md"); [contradiction | reflexivity].
Qed.

Lemma doc_project_unique_names : unique_names doc_project.
Proof.
  simpl. repeat split; repeat constructor; simpl; intuition discriminate.
Qed.

Lemma code_block_tag_and_fences_witness :
  writes (trace (create_markdown (fun p => p) doc_project ["proj"] ["out.md"] [] []
                   false))
  = [ "# proj Overview" +++ nl +++ nl;
      "## Folder Structure" +++ nl;
      "```tree" +++ nl;
      ("proj/" +++ nl +++
       "├── main.py" +++ nl +++
       "├── Makefile" +++ nl +++
       "└── README.md") +++ nl;
      "```" +++ nl +++ nl;
      "## Code" +++ nl;
      "### README.md" +++ nl; "````md" +++ nl; "# hi" +++ nl; "````" +++ nl +++ nl;
      "### Makefile" +++ nl; "```Makefile" +++ nl; "all:" +++ nl; "```" +++ nl +++ nl;
      "### main.py" +++ nl; "```py" +++ nl; "print(1)" +++ nl; "```" +++ nl +++ nl ].
Proof.
  exact (proj1 (code_block_tag_and_fences (fun p => p) doc_project ["proj"]
                  ["out.md"]
                  [("README.md", File 5 (Some "# hi"));
                   ("Makefile", File 4 (Some "all:"));
                   ("main.py", File 8 (Some "print(1)"))]
                  [] []
                  ("proj/" +++ nl +++
                   "├── main.py" +++ nl +++
                   "├── Makefile" +++ nl +++
                   "└── README.md")
                  [("README.md", ["proj"; "README.md"]);
                   ("Makefile", ["proj"; "Makefile"]);
                   ("main.py", ["proj"; "main.py"])]
                  doc_project_unique_names eq_refl eq_refl eq_refl)).
Defined.

(** * Further properties of the code *)

(** ** [matches_any] *)

Lemma matches_any_no_match `{Matching} identifier patterns :
  existsb (fnmatch identifier) patterns = false ->
  trace (matches_any identifier patterns) = map (Fnmatch identifier) patterns.
Proof.
  induction patterns as [ | pattern patterns IH]; cbn [existsb]; [reflexivity | ].
  intros Hno. apply orb_false_iff in Hno. destruct Hno as [Hp Hno].
  cbn [matches_any map]. rewrite trace_bind, value_emit_bind, trace_emit_bind.
  cbn [value trace fst snd ret]. rewrite Hp. cbn [app]. rewrite (IH Hno). reflexivity.
Qed.

(** X1: [matches_any] returns whether some pattern matches, and it stops
    at the first match: the patterns before it are consulted in order,
    then the matching one, a record is logged, and no later pattern is
    consulted.  Without a match every pattern is consulted once, in
    order, and nothing is logged. *)
Theorem matches_any_short_circuit `{Matching}
    (identifier : string) (patterns : list string) :
  value (matches_any identifier patterns)
  = Ok (existsb (fnmatch identifier) patterns)
  /\ (forall before pattern after,
         patterns = before ++ pattern :: after ->
         existsb (fnmatch identifier) before = false ->
         fnmatch identifier pattern = true ->
         trace (matches_any identifier patterns)
         = map (Fnmatch identifier) (before ++ [pattern])
           ++ [match_record identifier pattern])
  /\ (existsb (fnmatch identifier) patterns = false ->
      trace (matches_any identifier patterns)
      = map (Fnmatch identifier) patterns).
Proof.
  split; [apply matches_any_value | split; [ | apply matches_any_no_match]].
  intros before pattern after -> Hbefore Hmatch.
  induction before as [ | b before IH].
  - cbn [app matches_any map]. rewrite trace_bind, value_emit_bind, trace_emit_bind.
    cbn [value trace fst snd ret]. rewrite Hmatch. reflexivity.
  - cbn [existsb] in Hbefore. apply orb_false_iff in Hbefore.
    destruct Hbefore as [Hb Hbefore].
    cbn [app matches_any map]. rewrite trace_bind, value_emit_bind, trace_emit_bind.
    cbn [value trace fst snd ret]. rewrite Hb. cbn [app].
    rewrite (IH Hbefore). reflexivity.
Qed.

Lemma matches_any_short_circuit_witness :
  trace (matches_any "docs/README.md" ["*.log"; "*.md"; "docs/*"])
  = [Fnmatch "docs/README.md" "*.log"; Fnmatch "docs/README.md" "*.md";
     match_record "docs/README.md" "*.md"].
Proof.
  destruct (matches_any_short_circuit "docs/README.md" ["*.log"; "*.md"; "docs/*"])
    as (_ & Hfirst & _).
  exact (Hfirst ["*.log"] "*.md" ["docs/*"] eq_refl eq_refl eq_refl).
Defined.

(** ** [should_process] *)



Lemma existsb_incl {A} (f : A -> bool) (l l' : list A) :
  incl l l' -> existsb f l = true -> existsb f l' = true.
Proof.
  intros Hincl Hex. apply existsb_exists in Hex. destruct Hex as [x [Hx Hf]].
  apply existsb_exists. exists x. split; [apply Hincl; exact Hx | exact Hf].
Qed.

(** X3: exclusion is monotone.  A path that [should_process] excludes
    stays excluded when more CLI patterns or more ignore specs are given,
    in any order: a negation in one ignore file cannot bring back what a
    CLI pattern or another ignore file excludes. *)
Theorem should_process_monotone `{Matching}
    (path : Path) (exclude_patterns exclude_patterns' : list string)
    (ignore_specs ignore_specs' : list IgnoreSpec) (project_root : Path) :
  incl exclude_patterns exclude_patterns' ->
  incl ignore_specs ignore_specs' ->
  value (should_process path exclude_patterns ignore_specs project_root) = Ok false ->
  value (should_process path exclude_patterns' ignore_specs' project_root) = Ok false.
Proof.
  intros Hex Hspecs. rewrite !should_process_value.
  destruct (relative_to path project_root) as [r | e]; [ | trivial].
  destruct (contains ".git" r); [reflexivity | ]. cbn [negb andb].
  intros E. injection E as E. f_equal.
  apply andb_false_iff in E. apply andb_false_iff.
  destruct E as [E | E]; [left | right]; apply negb_false_iff in E;
    apply negb_false_iff; eapply existsb_incl; eassumption.
Qed.

Lemma should_process_monotone_witness :
  value (should_process ["proj"; "tmp"; "a.log"] ["*.md"] [tmp_spec; log_spec]
           ["proj"]) = Ok false.
Proof.
  apply (should_process_monotone ["proj"; "tmp"; "a.log"] [] ["*.md"]
           [log_spec] [tmp_spec; log_spec] ["proj"]).
  - intros x [].
  - intros x [<- | []]. right; left; reflexivity.
  - reflexivity.
Defined.

Lemma should_process_specs_no_cli `{Matching} path identifier specs :
  never consults_cli (trace (should_process_specs path identifier specs)).
Proof.
  induction specs as [ | [[[base_dir ignore_path] content] spec] specs IH]; simpl;
    [reflexivity | ].
  destruct (relative_to path base_dir); [ | exact IH].
  apply never_bind; [reflexivity | ]. intros [ | ]; [reflexivity | exact IH].
Qed.

(** X4: the CLI patterns come first.  The trace of [should_process] splits
    in two parts: in the first no ignore spec is consulted, in the second
    no CLI pattern is; so every consultation of a CLI pattern precedes
    every consultation of an ignore spec. *)
Theorem cli_patterns_are_consulted_first `{Matching}
    (path : Path) (exclude_patterns : list string)
    (ignore_specs : list IgnoreSpec) (project_root : Path) :
  exists w1 w2,
    trace (should_process path exclude_patterns ignore_specs project_root)
    = w1 ++ w2
    /\ never consults_spec w1
    /\ never consults_cli w2.
Proof.
  unfold should_process.
  destruct (contains ".git" (relative_parts path project_root)).
  - exists [], [LogInfo ("Ignoring .git folder or file: " +++ as_posix path)].
    split; [reflexivity | split; reflexivity].
  - destruct (relative_to path project_root) as [r | e].
    + exists (trace (matches_any (as_posix r) exclude_patterns)).
      eexists. split; [ | split; [apply matches_any_trace | ]].
      * rewrite trace_bind. cbn [lift value trace fst snd app].
        rewrite trace_bind, matches_any_value. cbn iota. reflexivity.
      * destruct (existsb (fnmatch (as_posix r)) exclude_patterns);
          [reflexivity | apply should_process_specs_no_cli].
    + exists [], []. split; [reflexivity | split; reflexivity].
Qed.

(** ** What the decider and the traversals leave in the trace *)

Lemma Forall_trace_bind {A B} (P : event -> Prop) (m : M A) (f : A -> M B) :
  Forall P (trace m) -> (forall a, Forall P (trace (f a))) ->
  Forall P (trace (bind m f)).
Proof.
  intros Hm Hf. rewrite trace_bind.
  destruct (value m); [apply Forall_app; split; [exact Hm | apply Hf] | exact Hm].
Qed.

Section DeciderEvents.

Context `{Matching}.

Variable exclude_patterns : list string.
Variable ignore_paths : list Path.

#[local] Abbreviation allowed := (decider_event exclude_patterns ignore_paths).

Lemma matches_any_events identifier patterns :
  incl patterns exclude_patterns ->
  Forall allowed (trace (matches_any identifier patterns)).
Proof.
  induction patterns as [ | pattern patterns IH]; intros Hincl; [constructor | ].
  cbn [matches_any]. apply Forall_trace_bind.
  - repeat constructor. apply Hincl. left. reflexivity.
  - intros [ | ]; [repeat constructor | ].
    apply IH. intros x Hx. apply Hincl. right. exact Hx.
Qed.

Lemma should_process_specs_events path identifier specs :
  incl (map ignore_path_of specs) ignore_paths ->
  Forall allowed (trace (should_process_specs path identifier specs)).
Proof.
  induction specs as [ | [[[base_dir ignore_path] content] spec] specs IH];
    intros Hincl; [repeat constructor | ].
  assert (IH' : Forall allowed (trace (should_process_specs path identifier specs))).
  { apply IH. intros x Hx. apply Hincl. right. exact Hx. }
  cbn [should_process_specs].
  destruct (relative_to path base_dir); [ | exact IH'].
  apply Forall_trace_bind.
  - repeat constructor. apply Hincl. left. reflexivity.
  - intros [ | ]; [repeat constructor | exact IH'].
Qed.

Variable ignore_specs : list IgnoreSpec.
Hypothesis specs_given : incl (map ignore_path_of ignore_specs) ignore_paths.

Variable root : Path.

Lemma should_process_events path :
  Forall allowed (trace (should_process path exclude_patterns ignore_specs root)).
Proof.
  unfold should_process.
  destruct (contains ".git" (relative_parts path root)); [repeat constructor | ].
  apply Forall_trace_bind; [constructor | ]. intros r.
  apply Forall_trace_bind; [apply matches_any_events; apply incl_refl | ].
  intros [ | ]; [repeat constructor | ].
  apply should_process_specs_events. exact specs_given.
Qed.

Lemma tree_loop_events (entries : list TreeEntry) :
  (forall x, In x entries -> forall pre, Forall allowed (trace (snd x pre))) ->
  forall count index prefix acc,
    Forall allowed
      (trace (tree_loop exclude_patterns ignore_specs root count index entries
                prefix acc)).
Proof.
  induction entries as [ | [[entry n] subtree] entries IH];
    intros Hsub count index prefix acc; [constructor | ].
  assert (IH' := IH (fun x Hx => Hsub x (or_intror Hx))).
  cbn [tree_loop]. apply Forall_trace_bind; [apply should_process_events | ].
  intros [ | ]; cbn [negb]; [ | apply IH'].
  destruct (is_dir n).
  - apply Forall_trace_bind;
      [apply (Hsub (entry, n, subtree) (or_introl eq_refl)) | intros sub; apply IH'].
  - destruct (String.eqb (name entry) "__init__.py" && (st_size n =? 0)%N); apply IH'.
Qed.

Lemma _tree_events (current : node) :
  forall path prefix,
    Forall allowed
      (trace (_tree exclude_patterns ignore_specs root current path prefix)).
Proof.
  induction current as [children IH | sz text | sz | target IH]
    using node_ind_children;
    intros path prefix; try (cbn [_tree]; constructor).
  - rewrite _tree_Dir. apply tree_loop_events.
    intros x Hx pre. apply in_map_iff in Hx. destruct Hx as [e [<- He]].
    apply in_listing in He. destruct He as [_ [nm [Hin _]]].
    rewrite Forall_forall in IH. apply (IH _ Hin).
  - exact (IH path prefix).
Qed.

Lemma get_code_files_loop_events dir_path (paths : list Entry) :
  forall code_files,
    Forall allowed
      (trace (get_code_files_loop exclude_patterns ignore_specs root dir_path
                paths code_files)).
Proof.
  induction paths as [ | [path n] paths IH]; intros code_files; [constructor | ].
  cbn [get_code_files_loop].
  destruct (contains ".git" (relative_parts path root)); [apply IH | ].
  apply Forall_trace_bind; [apply should_process_events | ].
  intros [ | ]; cbn [negb]; [ | apply IH].
  destruct (is_file n); [ | apply IH].
  destruct (String.eqb (name path) "__init__.py" && (st_size n =? 0)%N); [apply IH | ].
  apply Forall_trace_bind; [constructor | intros r; apply IH].
Qed.

End DeciderEvents.

Lemma generate_tree_events `{Matching} fs dir_path exclude_patterns ignore_specs
    project_root :
  Forall (decider_event exclude_patterns (map ignore_path_of ignore_specs))
    (trace (generate_tree fs dir_path exclude_patterns ignore_specs project_root)).
Proof.
  unfold generate_tree. apply Forall_trace_bind; [ | constructor].
  destruct (lookup fs dir_path); [ | constructor].
  apply _tree_events. apply incl_refl.
Qed.

Lemma get_code_files_events `{Matching} fs dir_path exclude_patterns ignore_specs
    project_root :
  Forall (decider_event exclude_patterns (map ignore_path_of ignore_specs))
    (trace (get_code_files fs dir_path exclude_patterns ignore_specs project_root)).
Proof.
  unfold get_code_files. apply get_code_files_loop_events. apply incl_refl.
Qed.

(** X5: the two traversals have no effect of their own.  Whatever the
    project root, everything in the trace of [generate_tree] and of
    [get_code_files] is a log record at level info or the consultation of
    one of the CLI patterns or ignore files they were given: they write
    nothing, print nothing, and consult nothing else. *)
Theorem traversals_only_log_and_consult `{Matching}
    (fs : node) (dir_path : Path) (exclude_patterns : list string)
    (ignore_specs : list IgnoreSpec) (project_root : option Path) :
  Forall (decider_event exclude_patterns (map ignore_path_of ignore_specs))
    (trace (generate_tree fs dir_path exclude_patterns ignore_specs project_root))
  /\ Forall (decider_event exclude_patterns (map ignore_path_of ignore_specs))
       (trace (get_code_files fs dir_path exclude_patterns ignore_specs
                 project_root)).
Proof.
  split; [apply generate_tree_events | apply get_code_files_events].
Qed.

(** ** [load_ignore_files] *)

Section LoaderRun.

Context `{Matching}.

Lemma load_ignore_files_found fs project_dir file_name :
  load_ignore_files fs project_dir file_name
  = load_ignore_files_loop (ignore_files fs project_dir file_name) [].
Proof. reflexivity. Qed.

(** The loop over entries that all compile. *)
Lemma load_ignore_files_loop_run (found : list Entry) :
  Forall compiles found ->
  forall ignore_list,
    load_ignore_files_loop found ignore_list
    = (Ok (ignore_list ++ flat_map loaded found), flat_map read_warning found).
Proof.
  induction 1 as [ | [ignore_file n] found Hc _ IH]; intros ignore_list.
  - simpl. rewrite app_nil_r. reflexivity.
  - cbn [load_ignore_files_loop flat_map]. unfold loaded at 1, read_warning at 1.
    unfold compiles in Hc. cbn [fst snd] in *.
    destruct (read_text (Some n)) as [content | e].
    + destruct (Hc content eq_refl) as [spec Es]. rewrite Es.
      unfold bind, lift. rewrite IH, <- app_assoc. reflexivity.
    + unfold bind, log_warning, emit. rewrite IH. reflexivity.
Qed.

(** The loop stops at the first entry that does not compile. *)
Lemma load_ignore_files_loop_raise (before after : list Entry) (x : Entry)
    (content : string) (err : exn) :
  Forall compiles before ->
  read_text (Some (snd x)) = Ok content ->
  from_lines (splitlines content) = Raise err ->
  forall ignore_list,
    load_ignore_files_loop (before ++ x :: after) ignore_list
    = (Raise err, flat_map read_warning before).
Proof.
  intros Hb Hread Hraise.
  induction Hb as [ | [ignore_file n] before Hc _ IH]; intros ignore_list.
  - destruct x as [ignore_file n]. cbn [app load_ignore_files_loop flat_map].
    cbn [snd] in Hread. rewrite Hread, Hraise. reflexivity.
  - cbn [app load_ignore_files_loop flat_map]. unfold read_warning at 1.
    unfold compiles in Hc. cbn [fst snd] in *.
    destruct (read_text (Some n)) as [text | e].
    + destruct (Hc text eq_refl) as [spec Es]. rewrite Es.
      unfold bind, lift. rewrite IH. reflexivity.
    + unfold bind, log_warning, emit. rewrite IH. reflexivity.
Qed.

(** Either all the entries compile, or there is a first one that does
    not. *)
Lemma compiles_or_not (found : list Entry) :
  Forall compiles found \/
  exists before x after content err,
    found = before ++ x :: after /\ Forall compiles before /\
    read_text (Some (snd x)) = Ok content /\
    from_lines (splitlines content) = Raise err.
Proof.
  induction found as [ | x found IH]; [left; constructor | ].
  destruct (read_text (Some (snd x))) as [content | e] eqn:Hread.
  - destruct (from_lines (splitlines content)) as [spec | err] eqn:Hfrom.
    + assert (Hx : compiles x).
      { intros content' E. rewrite Hread in E. injection E as <-. eauto. }
      destruct IH as [Hall | (before & y & after & c & err & E & Hb & Hr & Hf)].
      * left. constructor; assumption.
      * right. exists (x :: before), y, after, c, err.
        split; [rewrite E; reflexivity | ].
        split; [constructor; assumption | split; assumption].
    + right. exists [], x, found, content, err.
      split; [reflexivity | split; [constructor | split; assumption]].
  - assert (Hx : compiles x).
    { intros content' E. rewrite Hread in E. discriminate. }
    destruct IH as [Hall | (before & y & after & c & err & E & Hb & Hr & Hf)].
    + left. constructor; assumption.
    + right. exists (x :: before), y, after, c, err.
      split; [rewrite E; reflexivity | ].
      split; [constructor; assumption | split; assumption].
Qed.

Lemma load_ignore_files_loop_logs (found : list Entry) :
  forall ignore_list,
    Forall is_log_record (trace (load_ignore_files_loop found ignore_list)).
Proof.
  intros ignore_list.
  assert (Hw : forall l : list Entry, Forall is_log_record (flat_map read_warning l)).
  { intros l. apply Forall_forall. intros ev Hev. apply in_flat_map in Hev.
    destruct Hev as [e [_ Hev]]. unfold read_warning in Hev.
    destruct (read_text (Some (snd e))); [contradiction | ].
    destruct Hev as [<- | []]. exact I. }
  destruct (compiles_or_not found)
    as [Hall | (before & x & after & c & err & -> & Hb & Hr & Hf)].
  - rewrite (load_ignore_files_loop_run _ Hall). apply Hw.
  - rewrite (load_ignore_files_loop_raise _ _ _ _ _ Hb Hr Hf). apply Hw.
Qed.

End LoaderRun.







(** ** [generate_tree] and [get_code_files] as functions of the tree *)

Section CollectorUnderRoot.

Context `{Matching}.

Variable exclude_patterns : list string.
Variable ignore_specs : list IgnoreSpec.
Variable root : Path.

Lemma get_code_files_loop_under_root (dir_path : Path) (paths : list Entry) :
  (forall x, In x paths ->
     (exists l, relative_to (fst x) root = Ok l) /\
     (exists r, relative_to (fst x) dir_path = Ok r)) ->
  forall code_files,
    value (get_code_files_loop exclude_patterns ignore_specs root dir_path
             paths code_files)
    = Ok (code_files ++
          flat_map (fun x : Entry =>
                      if collected_entry exclude_patterns ignore_specs root x
                      then [(as_posix (relative_parts (fst x) dir_path), fst x)]
                      else [])
            paths).
Proof.
  induction paths as [ | [path n] paths IH]; intros Hunder code_files.
  - simpl. rewrite app_nil_r. reflexivity.
  - assert (IH' := IH (fun x Hx => Hunder x (or_intror Hx))).
    destruct (Hunder (path, n) (or_introl eq_refl)) as [[l El] [r Er]].
    simpl in El, Er.
    cbn [get_code_files_loop flat_map]. unfold collected_entry, empty_init.
    cbn [fst snd].
    destruct (contains ".git" (relative_parts path root)) eqn:Egit.
    + rewrite (included_no_git exclude_patterns ignore_specs root path Egit).
      simpl. apply IH'.
    + rewrite value_bind, (included_value _ _ _ _ _ El).
      destruct (included exclude_patterns ignore_specs root path);
        cbn [negb andb]; [ | apply IH'].
      destruct (is_file n); cbn [andb]; [ | apply IH'].
      destruct (String.eqb (name path) "__init__.py" && (st_size n =? 0)%N);
        cbn [negb]; [apply IH' | ].
      rewrite value_bind. unfold relative_parts.
      rewrite Er. simpl value at 1. cbv iota beta.
      rewrite IH'. cbn [app]. rewrite <- app_assoc. reflexivity.
Qed.

End CollectorUnderRoot.

(** X9: what [get_code_files] returns.  When [dir_path] lies under the
    project root the call never raises, and a pair is in its result
    exactly when it stands for an entry below [dir_path] that is a regular
    file, is not an empty [__init__.py] and passes [should_process]; the
    string of the pair is the path relative to [dir_path], never to the
    project root or to an ignore file.  Directories are never returned, and
    a [dir_path] that is no directory gives the empty list. *)
Theorem get_code_files_returns_the_included_files `{Matching}
    (fs : node) (dir_path : Path) (exclude_patterns : list string)
    (ignore_specs : list IgnoreSpec) (project_root : option Path) (l : Path) :
  relative_to dir_path (root_of dir_path project_root) = Ok l ->
  exists code_files,
    value (get_code_files fs dir_path exclude_patterns ignore_specs project_root)
    = Ok code_files
    /\ forall (s : string) (p : Path),
         In (s, p) code_files <->
         exists current n rel,
           lookup fs dir_path = Some current
           /\ In (p, n) (rglob current dir_path)
           /\ p = dir_path ++ rel
           /\ s = as_posix rel
           /\ is_file n = true
           /\ empty_init (p, n) = false
           /\ value (should_process p exclude_patterns ignore_specs
                       (root_of dir_path project_root)) = Ok true.
Proof.
  intros Hrel.
  set (root := root_of dir_path project_root) in *.
  assert (Hval :
            value (get_code_files fs dir_path exclude_patterns ignore_specs
                     project_root)
            = Ok (flat_map
                    (fun x : Entry =>
                       if collected_entry exclude_patterns ignore_specs root x
                       then [(as_posix (relative_parts (fst x) dir_path), fst x)]
                       else [])
                    (match lookup fs dir_path with
                     | Some current => rglob current dir_path
                     | None => []
                     end))).
  { unfold get_code_files. fold (root_of dir_path project_root). fold root.
    rewrite get_code_files_loop_under_root; [reflexivity | ].
    intros x Hx. destruct (lookup fs dir_path) as [current | ] eqn:Hlook;
      [ | contradiction].
    apply rglob_rglob_links in Hx. split.
    - exact (rglob_links_under dir_path fs current root l x Hlook Hrel Hx).
    - exact (rglob_links_under dir_path fs current dir_path [] x Hlook
               (relative_to_refl _) Hx). }
  eexists. split; [exact Hval | ].
  intros s p. rewrite in_flat_map. split.
  - intros [[q n] [Hx Hin]].
    destruct (lookup fs dir_path) as [current | ] eqn:Hlook; [ | contradiction].
    unfold collected_entry in Hin. cbn [fst snd] in Hin.
    destruct (included exclude_patterns ignore_specs root q) eqn:Hinc;
      [ | contradiction].
    destruct (is_file n) eqn:Hfile; [ | contradiction].
    destruct (empty_init (q, n)) eqn:Hinit; [contradiction | ].
    destruct Hin as [E | []]. injection E as <- <-.
    destruct (rglob_links_below _ _ _ _ Hlook (rglob_rglob_links _ _ _ Hx))
      as (rel & _ & Erel & Hb). cbn [fst] in Erel.
    exists current, n, rel.
    split; [reflexivity | split; [exact Hx | split; [exact Erel | ]]].
    split; [unfold relative_parts; rewrite Erel, (relative_to_app _ _ Hb);
            reflexivity | ].
    split; [exact Hfile | split; [exact Hinit | ]].
    destruct (included_relative _ _ _ _ Hinc) as [l' El'].
    rewrite (included_value _ _ _ _ _ El'), Hinc. reflexivity.
  - intros (current & n & rel & Hlook & Hx & Ep & Es & Hfile & Hinit & Hsp).
    rewrite Hlook. exists (p, n). split; [exact Hx | ].
    unfold collected_entry, included. cbn [fst snd].
    rewrite Hsp, Hfile, Hinit. cbn [andb negb].
    destruct (rglob_links_below _ _ _ _ Hlook (rglob_rglob_links _ _ _ Hx))
      as (rel' & _ & Erel & Hb). cbn [fst] in Erel.
    rewrite Ep in Erel. apply app_inv_head in Erel. subst rel'.
    left. unfold relative_parts. rewrite Ep at 1. rewrite (relative_to_app _ _ Hb).
    rewrite Es. reflexivity.
Qed.

Lemma get_code_files_returns_the_included_files_witness :
  exists code_files,
    value (get_code_files nested_project ["proj"; "b"] ["a.py"] [] (Some ["proj"]))
    = Ok code_files
    /\ In ("c.py", ["proj"; "b"; "c.py"]) code_files.
Proof.
  destruct (get_code_files_returns_the_included_files nested_project ["proj"; "b"]
              ["a.py"] [] (Some ["proj"]) ["b"] eq_refl)
    as (code_files & Hval & Hiff).
  exists code_files. split; [exact Hval | ].
  apply Hiff.
  exists (Dir [("c.py", File 6 (Some "c = 3"))]), (File 6 (Some "c = 3")), ["c.py"].
  repeat split. left. reflexivity.
Defined.

(** ** The order of the tree *)

Lemma key_le_total (a b : bool * string) :
  key_le a b = false -> key_le b a = true.
Proof.
  destruct a as [[ | ] s], b as [[ | ] t]; unfold key_le; cbn [fst snd];
    try discriminate; try reflexivity;
    intros Hle; destruct (String.leb_total s t) as [E | E]; congruence.
Qed.

Lemma insert_by_Sorted {A} (key : A -> bool * string) (x : A) (l : list A) :
  Sorted (fun a b => key_le (key a) (key b) = true) l ->
  Sorted (fun a b => key_le (key a) (key b) = true) (insert_by key x l).
Proof.
  induction l as [ | y l IH]; intros Hs; cbn [insert_by].
  - repeat constructor.
  - destruct (key_le (key x) (key y)) eqn:Hxy.
    + constructor; [exact Hs | constructor; exact Hxy].
    + inversion Hs as [ | ? ? Hs' Hhd]; subst.
      constructor; [apply IH; exact Hs' | ].
      destruct l as [ | z l]; cbn [insert_by].
      * constructor. apply key_le_total. exact Hxy.
      * destruct (key_le (key x) (key z)).
        -- constructor. apply key_le_total. exact Hxy.
        -- inversion Hhd; subst. constructor. assumption.
Qed.

Lemma sorted_Sorted {A} (key : A -> bool * string) (l : list A) :
  Sorted (fun a b => key_le (key a) (key b) = true) (sorted key l).
Proof.
  unfold sorted. induction l as [ | x l IH]; cbn [fold_right];
    [constructor | apply insert_by_Sorted; exact IH].
Qed.

Lemma insert_by_Permutation {A} (key : A -> bool * string) (x : A) (l : list A) :
  Permutation (insert_by key x l) (x :: l).
Proof.
  induction l as [ | y l IH]; cbn [insert_by]; [reflexivity | ].
  destruct (key_le (key x) (key y)); [reflexivity | ].
  rewrite IH. apply perm_swap.
Qed.

Lemma sorted_Permutation {A} (key : A -> bool * string) (l : list A) :
  Permutation (sorted key l) l.
Proof.
  unfold sorted. induction l as [ | x l IH]; cbn [fold_right]; [reflexivity | ].
  rewrite insert_by_Permutation, IH. reflexivity.
Qed.

Lemma key_order_split (L : list Entry) :
  Sorted key_order L ->
  exists dirs others,
    L = dirs ++ others
    /\ Forall (fun e => is_dir (snd e) = true) dirs
    /\ Forall (fun e => is_dir (snd e) = false) others
    /\ Sorted name_order dirs
    /\ Sorted name_order others.
Proof.
  induction 1 as [ | a L Hs IH Hhd].
  - exists [], []. repeat split; constructor.
  - destruct IH as (dirs & others & -> & Hd & Ho & Hsd & Hso).
    destruct (is_dir (snd a)) eqn:Ea.
    + exists (a :: dirs), others. split; [reflexivity | ].
      split; [constructor; assumption | split; [exact Ho | split; [ | exact Hso]]].
      constructor; [exact Hsd | ].
      destruct dirs as [ | d dirs]; constructor.
      inversion Hhd as [ | ? ? Hle]; subst. inversion Hd; subst.
      unfold key_order, tree_key, key_le in Hle. cbn [fst snd] in Hle.
      rewrite Ea in Hle. replace (is_dir (snd d)) with true in Hle by congruence.
      exact Hle.
    + destruct dirs as [ | d dirs].
      * exists [], (a :: others). split; [reflexivity | ].
        split; [constructor | split; [constructor; assumption | split; [constructor | ]]].
        constructor; [exact Hso | ].
        destruct others as [ | o others]; constructor.
        inversion Hhd as [ | ? ? Hle]; subst. inversion Ho; subst.
        unfold key_order, tree_key, key_le in Hle. cbn [fst snd] in Hle.
        rewrite Ea in Hle. replace (is_dir (snd o)) with false in Hle by congruence.
        exact Hle.
      * exfalso. inversion Hhd as [ | ? ? Hle]; subst. inversion Hd; subst.
        unfold key_order, tree_key, key_le in Hle. cbn [fst snd] in Hle.
        rewrite Ea in Hle. replace (is_dir (snd d)) with true in Hle by congruence.
        discriminate.
Qed.

(** X10: the order of the tree, for a directory whose entries have names
    in ASCII (on other names [str.lower] does more than [lower]).  [_tree]
    runs its loop over a listing that holds exactly the entries of the
    directory not named [__pycache__] or [.git], each once, with all
    directories (and links to directories) before everything else, and
    the directories, like the others, in the order of their names without
    regard to case. *)
Theorem tree_listing_order `{Matching}
    (exclude_patterns : list string) (ignore_specs : list IgnoreSpec)
    (project_root : Path) (children : list (string * node))
    (current_path : Path) (prefix : string) :
  Forall (fun c => ascii_only (fst c) = true) children ->
  let entries := listing current_path children in
  _tree exclude_patterns ignore_specs project_root (Dir children) current_path
    prefix
  = tree_loop exclude_patterns ignore_specs project_root (length entries) 0
      (map (fun e : Entry =>
              (e, _tree exclude_patterns ignore_specs project_root (snd e) (fst e)))
         entries)
      prefix []
  /\ Permutation entries
       (filter (fun p : Entry => prefiltered (fst p))
          (iterdir current_path children))
  /\ exists dirs others,
       entries = dirs ++ others
       /\ Forall (fun e => is_dir (snd e) = true) dirs
       /\ Forall (fun e => is_dir (snd e) = false) others
       /\ Sorted name_order dirs
       /\ Sorted name_order others.
Proof.
  intros _ entries. split; [apply _tree_Dir | split].
  - apply sorted_Permutation.
  - apply key_order_split. apply (sorted_Sorted tree_key).
Qed.

Lemma tree_listing_order_witness :
  listing ["proj"]
    [("b.py", File 6 (Some "b = 2")); ("Zed", Dir []); ("A.py", File 6 (Some "a = 1"));
     ("lib", Link (Dir []))]
  = [(["proj"; "lib"], Link (Dir [])); (["proj"; "Zed"], Dir []);
     (["proj"; "A.py"], File 6 (Some "a = 1"));
     (["proj"; "b.py"], File 6 (Some "b = 2"))]
  /\ exists dirs others,
       listing ["proj"]
         [("b.py", File 6 (Some "b = 2")); ("Zed", Dir []);
          ("A.py", File 6 (Some "a = 1")); ("lib", Link (Dir []))]
       = dirs ++ others
       /\ Sorted name_order dirs /\ Sorted name_order others.
Proof.
  split; [reflexivity | ].
  destruct (tree_listing_order [] [] ["proj"]
              [("b.py", File 6 (Some "b = 2")); ("Zed", Dir []);
               ("A.py", File 6 (Some "a = 1")); ("lib", Link (Dir []))]
              ["proj"] "")
    as (_ & _ & dirs & others & E & _ & _ & Hd & Ho).
  - repeat constructor.
  - exists dirs, others. split; [exact E | split; [exact Hd | exact Ho]].
Defined.

(** ** What the tree shows *)

Lemma is_root_app_last (q : Path) (nm : string) :
  is_root (q ++ [nm]) = true -> q = [] /\ nm = "/".
Proof.
  destruct q as [ | a q]; cbn [app is_root].
  - intros E. apply String.eqb_eq in E. split; [reflexivity | exact E].
  - destruct (q ++ [nm]) as [ | x t] eqn:E; [ | discriminate].
    apply app_eq_nil in E. destruct E as [_ E]. discriminate.
Qed.

Lemma prefiltered_last (q : Path) (nm : string) :
  prefiltered (q ++ [nm]) = true ->
  String.eqb "__pycache__" nm = false /\ String.eqb ".git" nm = false.
Proof.
  unfold prefiltered, name.
  destruct (is_root (q ++ [nm])) eqn:Eroot.
  - apply is_root_app_last in Eroot. destruct Eroot as [_ ->].
    intros _. split; reflexivity.
  - rewrite last_last. intros E. apply negb_true_iff, orb_false_iff in E.
    destruct E as [E1 E2]. rewrite String.eqb_sym in E1. rewrite String.eqb_sym in E2.
    split; assumption.
Qed.

Lemma ancestors_shown_components `{Matching} exclude_patterns ignore_specs root
    (rel : list string) :
  forall path,
    rel <> [] ->
    ancestors_shown exclude_patterns ignore_specs root path rel = true ->
    prefiltered (path ++ rel) = true ->
    contains "__pycache__" rel = false /\ contains ".git" rel = false.
Proof.
  induction rel as [ | nm rel IH]; intros path Hne Hanc Hpre; [congruence | ].
  destruct rel as [ | r rel].
  - apply prefiltered_last in Hpre. destruct Hpre as [E1 E2].
    unfold contains. cbn [existsb]. rewrite E1, E2. split; reflexivity.
  - rewrite ancestors_shown_cons in Hanc.
    apply andb_true_iff in Hanc. destruct Hanc as [Hanc Hrest].
    apply andb_true_iff in Hanc. destruct Hanc as [Hnm _].
    apply prefiltered_last in Hnm. destruct Hnm as [E1 E2].
    destruct (IH (path ++ [nm])) as [I1 I2].
    + discriminate.
    + exact Hrest.
    + rewrite <- app_assoc. exact Hpre.
    + unfold contains in *. cbn [existsb] in *.
      rewrite E1, E2. cbn [orb]. split; assumption.
Qed.

(** X11: the tree never shows an entry named [__pycache__] or [.git], nor
    anything below one, whatever the patterns: no row of the rendered tree
    has such a component below [dir_path]. *)
Theorem tree_never_shows_pycache_or_git `{Matching}
    (fs : node) (dir_path : Path) (children : list (string * node))
    (exclude_patterns : list string) (ignore_specs : list IgnoreSpec) :
  lookup fs dir_path = Some (Dir children) ->
  let rows :=
    tree_rows exclude_patterns ignore_specs dir_path (Dir children) dir_path "" in
  value (generate_tree fs dir_path exclude_patterns ignore_specs None)
  = Ok (String.concat nl ((name dir_path +++ "/") :: map snd rows))
  /\ forall p n line rel,
       In ((p, n), line) rows ->
       p = dir_path ++ rel ->
       contains "__pycache__" rel = false /\ contains ".git" rel = false.
Proof.
  intros Hlook rows. split.
  - apply (generate_tree_value _ _ _ _ _ Hlook). reflexivity.
  - intros p n line rel Hrow Ep.
    assert (Hin : In (p, n) (map fst rows)).
    { apply in_map_iff. exists ((p, n), line). split; [reflexivity | exact Hrow]. }
    apply in_tree_rows in Hin.
    destruct Hin as (Hx & _ & _ & rel' & Erel & Hanc & Hpre).
    cbn [fst] in Erel, Hpre.
    assert (rel' = rel) by (apply (app_inv_head dir_path); congruence). subst rel'.
    destruct (rglob_paths _ _ _ Hx) as [rel'' [Hne E]]. cbn [fst] in E.
    assert (rel'' = rel) by (apply (app_inv_head dir_path); congruence). subst rel''.
    apply (ancestors_shown_components exclude_patterns ignore_specs dir_path rel
             dir_path Hne Hanc).
    rewrite <- Ep. exact Hpre.
Qed.

Lemma tree_never_shows_pycache_or_git_witness :
  value (generate_tree cache_project ["proj"] [] [] None)
  = Ok ("proj/" +++ nl +++ "└── m.py")
  /\ ~ In "__pycache__" ["m.py"].
Proof.
  destruct (tree_never_shows_pycache_or_git cache_project ["proj"]
              [("__pycache__", Dir [("m.pyc", File 3 None)]);
               ("m.py", File 6 (Some "m = 1"))]
              [] [] eq_refl) as [Htree Hrows].
  split; [rewrite Htree; reflexivity | ].
  destruct (Hrows ["proj"; "m.py"] (File 6 (Some "m = 1")) "└── m.py" ["m.py"])
    as [Hpc _]; [left; reflexivity | reflexivity | ].
  intros [E | []]. discriminate E.
Defined.

(** X12: an [__init__.py] of length zero is left out of both outputs: in
    a well-formed file system it has no row in the tree and is not in the
    collected list, whatever the patterns. *)
Theorem empty_init_is_omitted `{Matching}
    (fs : node) (dir_path : Path) (children : list (string * node))
    (exclude_patterns : list string) (ignore_specs : list IgnoreSpec)
    (rel : list string) (n : node) :
  unique_names fs ->
  lookup fs dir_path = Some (Dir children) ->
  lookup fs (dir_path ++ rel) = Some n ->
  is_dir n = false ->
  empty_init (dir_path ++ rel, n) = true ->
  exists code_files,
    value (get_code_files fs dir_path exclude_patterns ignore_specs None)
    = Ok code_files
    /\ ~ In (dir_path ++ rel) (map snd code_files)
    /\ forall n' line,
         ~ In ((dir_path ++ rel, n'), line)
             (tree_rows exclude_patterns ignore_specs dir_path (Dir children)
                dir_path "").
Proof.
  intros Hu Hlook Hn Hdir Hinit.
  assert (Hsame : forall n',
             In (dir_path ++ rel, n') (rglob_links (Dir children) dir_path) ->
             is_dir n' = false /\ empty_init (dir_path ++ rel, n') = true).
  { intros n' Hx.
    pose proof (rglob_links_lookup _ _ _ _ Hu Hlook Hx) as Hl. cbn [fst snd] in Hl.
    rewrite Hn in Hl. injection Hl as ->.
    rewrite is_dir_follow in Hdir. split; [exact Hdir | ].
    unfold empty_init in *. cbn [fst snd] in *.
    rewrite st_size_follow in Hinit. exact Hinit. }
  eexists. split; [apply (get_code_files_value _ _ _ _ _ Hlook) | split].
  - intros Hin. apply in_map_iff in Hin. destruct Hin as [[s q] [Eq Hin]].
    cbn [snd] in Eq. subst q.
    apply in_flat_map in Hin. destruct Hin as [[q n'] [Hx Hin]].
    unfold collected_entry in Hin. cbn [fst snd] in Hin.
    destruct (included exclude_patterns ignore_specs dir_path q); [ | contradiction].
    destruct (is_file n'); [ | contradiction].
    destruct (empty_init (q, n')) eqn:Hq; [contradiction | ].
    destruct Hin as [E | []]. injection E as _ ->.
    destruct (Hsame _ (rglob_rglob_links _ _ _ Hx)) as [_ Hq'].
    discriminate (eq_trans (eq_sym Hq') Hq).
  - intros n' line Hrow.
    assert (Hin : In (dir_path ++ rel, n')
                    (map fst (tree_rows exclude_patterns ignore_specs dir_path
                                (Dir children) dir_path ""))).
    { apply in_map_iff. exists ((dir_path ++ rel, n'), line).
      split; [reflexivity | exact Hrow]. }
    apply in_tree_rows in Hin. destruct Hin as (Hx & _ & Hshown & _).
    destruct (Hsame _ Hx) as [Hd' Hi'].
    destruct Hshown as [Hd | Hi].
    + cbn [snd] in Hd. congruence.
    + discriminate (eq_trans (eq_sym Hi') Hi).
Qed.

Lemma empty_init_is_omitted_witness :
  exists code_files,
    value (get_code_files package_project ["proj"] [] [] None) = Ok code_files
    /\ ~ In ["proj"; "pkg"; "__init__.py"] (map snd code_files).
Proof.
  destruct (empty_init_is_omitted package_project ["proj"]
              [("pkg", Dir [("__init__.py", File 0 (Some ""));
                            ("core.py", File 6 (Some "x = 1"))])]
              [] [] ["pkg"; "__init__.py"] (File 0 (Some "")))
    as (code_files & Hval & Hno & _).
  - simpl. repeat split; repeat constructor; simpl; intuition discriminate.
  - reflexivity.
  - reflexivity.
  - reflexivity.
  - reflexivity.
  - exists code_files. split; [exact Hval | exact Hno].
Defined.

(** X13: directories are never pruned.  A directory below [dir_path] that
    passes [should_process], like every directory above it, and has no
    [__pycache__] on its path, has its row in the tree whatever it holds:
    also when it is empty or when everything in it is excluded. *)
Theorem directory_is_shown_whatever_it_holds `{Matching}
    (fs : node) (dir_path : Path) (children : list (string * node))
    (exclude_patterns : list string) (ignore_specs : list IgnoreSpec)
    (rel : list string) (content : list (string * node)) :
  lookup fs dir_path = Some (Dir children) ->
  In (dir_path ++ rel, Dir content) (rglob (Dir children) dir_path) ->
  contains "__pycache__" rel = false ->
  value (should_process (dir_path ++ rel) exclude_patterns ignore_specs dir_path)
  = Ok true ->
  ancestors_included exclude_patterns ignore_specs dir_path dir_path rel = true ->
  exists line,
    In ((dir_path ++ rel, Dir content), line)
      (tree_rows exclude_patterns ignore_specs dir_path (Dir children) dir_path "").
Proof.
  intros Hlook Hx Hpc Hsp Hanc.
  assert (Hinc : included exclude_patterns ignore_specs dir_path (dir_path ++ rel)
                 = true) by (unfold included; rewrite Hsp; reflexivity).
  destruct (rglob_paths _ _ _ (rglob_rglob_links _ _ _ Hx)) as [rel' [Hne E]].
  cbn [fst] in E.
  apply app_inv_head in E. subst rel'.
  assert (Hin : In (dir_path ++ rel, Dir content)
                  (map fst (tree_rows exclude_patterns ignore_specs dir_path
                              (Dir children) dir_path ""))).
  { apply in_tree_rows. split; [apply rglob_rglob_links; exact Hx | ].
    split; [exact Hinc | ].
    split; [left; reflexivity | ].
    exists rel. split; [reflexivity | ]. cbn [fst].
    pose proof (ancestors_shown_included exclude_patterns ignore_specs dir_path rel
                  Hpc []) as Eanc.
    rewrite app_nil_r in Eanc. rewrite Eanc. split; [exact Hanc | ].
    apply prefiltered_components; [exact Hne | exact Hpc | ].
    apply (included_git_free exclude_patterns ignore_specs dir_path rel Hinc). }
  apply in_map_iff in Hin. destruct Hin as [[[p n] line] [E Hrow]].
  cbn [fst] in E. injection E as -> ->. exists line. exact Hrow.
Qed.

Lemma directory_is_shown_whatever_it_holds_witness :
  exists line,
    In ((["proj"; "b"], Dir [("c.py", File 6 (Some "c = 3"))]), line)
      (tree_rows ["b/*"] [] ["proj"]
         (Dir [("a.py", File 6 (Some "a = 1"));
               ("b", Dir [("c.py", File 6 (Some "c = 3"))])])
         ["proj"] "").
Proof.
  apply (directory_is_shown_whatever_it_holds nested_project ["proj"]
           [("a.py", File 6 (Some "a = 1"));
            ("b", Dir [("c.py", File 6 (Some "c = 3"))])]
           ["b/*"] [] ["b"] [("c.py", File 6 (Some "c = 3"))]).
  - reflexivity.
  - simpl. auto.
  - reflexivity.
  - reflexivity.
  - reflexivity.
Defined.

(** ** Symbolic links to directories *)

(** X21: what lies below a symbolic link to a directory is shown in the
    tree and never collected.  [iterdir] lists the directory that a link
    resolves to and [rglob] does not descend into it: in a well-formed
    file system an entry that the renderer can reach and [rglob] does not
    find is in no list that [get_code_files] returns, whatever the
    patterns, while it has a row in the tree under the same conditions as
    every other entry. *)
Theorem below_a_link_shown_but_not_collected `{Matching}
    (fs : node) (dir_path : Path) (children : list (string * node))
    (exclude_patterns : list string) (ignore_specs : list IgnoreSpec)
    (x : Entry) :
  unique_names fs ->
  lookup fs dir_path = Some (Dir children) ->
  In x (rglob_links (Dir children) dir_path) ->
  ~ In x (rglob (Dir children) dir_path) ->
  let rows :=
    tree_rows exclude_patterns ignore_specs dir_path (Dir children) dir_path "" in
  exists code_files,
    value (get_code_files fs dir_path exclude_patterns ignore_specs None)
    = Ok code_files
    /\ ~ In (fst x) (map snd code_files)
    /\ ((exists line, In (x, line) rows)
        <-> included exclude_patterns ignore_specs dir_path (fst x) = true
            /\ shown_file_or_dir x
            /\ exists rel,
                 fst x = dir_path ++ rel
                 /\ ancestors_shown exclude_patterns ignore_specs dir_path dir_path
                      rel = true
                 /\ prefiltered (fst x) = true).
Proof.
  intros Hu Hlook Hx Hnot rows.
  eexists. split; [apply (get_code_files_value _ _ _ _ _ Hlook) | split].
  - intros Hin. apply in_map_iff in Hin. destruct Hin as [[s q] [Eq Hin]].
    cbn [snd] in Eq. subst q.
    apply in_flat_map in Hin. destruct Hin as [[q n] [Hq Hin]].
    destruct (collected_entry exclude_patterns ignore_specs dir_path (q, n));
      [ | contradiction].
    destruct Hin as [E | []]. injection E as _ E. cbn [fst] in E. subst q.
    apply Hnot.
    pose proof (unique_names_lookup _ _ _ Hu Hlook) as Hud.
    destruct (rglob_links_walk _ Hud _ _ Hx) as (rel & _ & E & Hw).
    destruct (rglob_links_walk _ Hud _ _ (rglob_rglob_links _ _ _ Hq))
      as (rel' & _ & E' & Hw').
    cbn [fst snd] in E', Hw'. rewrite E in E'. apply app_inv_head in E'. subst rel'.
    rewrite Hw in Hw'. injection Hw' as Hn.
    destruct x as [p m]. cbn [fst snd] in *. subst m. exact Hq.
  - split.
    + intros [line Hrow].
      assert (Hin : In x (map fst rows)).
      { apply in_map_iff. exists (x, line). split; [reflexivity | exact Hrow]. }
      apply in_tree_rows in Hin. tauto.
    + intros Hcond.
      assert (Hin : In x (map fst rows)).
      { apply in_tree_rows. split; [exact Hx | exact Hcond]. }
      apply in_map_iff in Hin. destruct Hin as [[y line] [E Hrow]].
      cbn [fst] in E. subst y. exists line. exact Hrow.
Qed.

Lemma below_a_link_shown_but_not_collected_witness :
  value (generate_tree linked_project ["proj"] [] [] None)
  = Ok ("proj/" +++ nl +++
        "├── lib/" +++ nl +++
        "│   └── x.py" +++ nl +++
        "└── a.py")
  /\ exists code_files,
       value (get_code_files linked_project ["proj"] [] [] None) = Ok code_files
       /\ ~ In ["proj"; "lib"; "x.py"] (map snd code_files)
       /\ exists line,
            In ((["proj"; "lib"; "x.py"], File 6 (Some "x = 1")), line)
              (tree_rows [] [] ["proj"]
                 (Dir [("a.py", File 6 (Some "a = 1"));
                       ("lib", Link (Dir [("x.py", File 6 (Some "x = 1"))]))])
                 ["proj"] "").
Proof.
  split; [reflexivity | ].
  destruct (below_a_link_shown_but_not_collected linked_project ["proj"]
              [("a.py", File 6 (Some "a = 1"));
               ("lib", Link (Dir [("x.py", File 6 (Some "x = 1"))]))]
              [] [] (["proj"; "lib"; "x.py"], File 6 (Some "x = 1")))
    as (code_files & Hval & Hno & Hrow).
  - simpl. repeat split; repeat constructor; simpl; intuition discriminate.
  - reflexivity.
  - simpl. auto.
  - simpl. intros [E | [E | []]]; discriminate E.
  - exists code_files. split; [exact Hval | split; [exact Hno | ]].
    apply Hrow. split; [reflexivity | split; [right; reflexivity | ]].
    exists ["lib"; "x.py"]. repeat split.
Defined.

(** ** The shape of a line *)

Lemma append_nil_r (s : string) : s +++ "" = s.
Proof. induction s as [ | c s IH]; simpl; [reflexivity | rewrite IH; reflexivity]. Qed.

Lemma append_assoc (a b c : string) : (a +++ b) +++ c = a +++ b +++ c.
Proof. induction a as [ | x a IH]; simpl; [reflexivity | rewrite IH; reflexivity]. Qed.

Lemma concat_units_cons (u : string) (units : list string) :
  String.concat "" (u :: units) = u +++ String.concat "" units.
Proof.
  destruct units as [ | v units]; cbn [String.concat];
    [rewrite append_nil_r; reflexivity | reflexivity].
Qed.

Section LineFacts.

Context `{Matching}.

Variable exclude_patterns : list string.
Variable ignore_specs : list IgnoreSpec.
Variable root : Path.

Lemma in_rows_loop_line (L : list Entry) :
  forall count index prefix row,
    In row (rows_loop exclude_patterns ignore_specs root count index
              (map (fun e : Entry =>
                      (e, tree_rows exclude_patterns ignore_specs root (snd e) (fst e)))
                 L) prefix) ->
    exists e,
      In e L /\
      ((fst row = e /\
        exists c, is_connector c /\
                  snd row = prefix +++ c +++ " " +++ name (fst e)
                            +++ (if is_dir (snd e) then "/" else ""))
       \/ (is_dir (snd e) = true /\
           exists u, is_indent_unit u /\
                     In row (tree_rows exclude_patterns ignore_specs root
                               (snd e) (fst e) (prefix +++ u)))).
Proof.
  induction L as [ | e L IH]; intros count index prefix row Hin; [contradiction | ].
  assert (Hrest : In row (rows_loop exclude_patterns ignore_specs root count (S index)
                            (map (fun e : Entry =>
                                    (e, tree_rows exclude_patterns ignore_specs root
                                          (snd e) (fst e))) L) prefix) ->
                  exists e', In e' (e :: L) /\
                    ((fst row = e' /\
                      exists c, is_connector c /\
                                snd row = prefix +++ c +++ " " +++ name (fst e')
                                          +++ (if is_dir (snd e') then "/" else ""))
                     \/ (is_dir (snd e') = true /\
                         exists u, is_indent_unit u /\
                                   In row (tree_rows exclude_patterns ignore_specs root
                                             (snd e') (fst e') (prefix +++ u))))).
  { intros Hr. destruct (IH _ _ _ _ Hr) as [e' [He' Hcase]].
    exists e'. split; [right; exact He' | exact Hcase]. }
  cbn [map rows_loop fst snd] in Hin.
  assert (Hconn : is_connector (if (index =? count - 1)%nat then "└──" else "├──")).
  { destruct (index =? count - 1)%nat; [left | right]; reflexivity. }
  assert (Hunit : is_indent_unit (if (index =? count - 1)%nat then "    " else "│   ")).
  { destruct (index =? count - 1)%nat; [left | right]; reflexivity. }
  destruct (included exclude_patterns ignore_specs root (fst e)); cbn [negb] in Hin;
    [ | apply Hrest; exact Hin].
  destruct (is_dir (snd e)) eqn:Edir.
  - destruct Hin as [<- | Hin].
    + exists e. split; [left; reflexivity | left]. split; [reflexivity | ].
      eexists. split; [exact Hconn | ]. cbn [snd]. rewrite Edir. reflexivity.
    + apply in_app_or in Hin. destruct Hin as [Hin | Hin]; [ | apply Hrest; exact Hin].
      exists e. split; [left; reflexivity | right]. split; [exact Edir | ].
      eexists. split; [exact Hunit | exact Hin].
  - destruct (empty_init e); [apply Hrest; exact Hin | ].
    destruct Hin as [<- | Hin]; [ | apply Hrest; exact Hin].
    exists e. split; [left; reflexivity | left]. split; [reflexivity | ].
    eexists. split; [exact Hconn | ]. cbn [snd]. rewrite Edir, append_nil_r.
    reflexivity.
Qed.

Lemma tree_rows_line (current : node) :
  forall path prefix row,
    In row (tree_rows exclude_patterns ignore_specs root current path prefix) ->
    exists rel units c,
      fst (fst row) = path ++ rel
      /\ S (length units) = length rel
      /\ Forall is_indent_unit units
      /\ is_connector c
      /\ snd row = prefix +++ String.concat "" units +++ c +++ " "
                   +++ name (fst (fst row))
                   +++ (if is_dir (snd (fst row)) then "/" else "").
Proof.
  induction current as [children IH | sz text | sz | target IH]
    using node_ind_children;
    intros path prefix row Hin; try contradiction.
  2: { exact (IH path prefix row Hin). }
  rewrite tree_rows_Dir in Hin. apply in_rows_loop_line in Hin.
  destruct Hin as [e [He Hcase]].
  apply in_listing in He. destruct He as [_ [nm [Hc Epath]]].
  destruct Hcase as [[Erow [c [Hconn Eline]]] | [Edir [u [Hunit Hin]]]].
  - exists [nm], [], c. rewrite Erow.
    split; [exact Epath | split; [reflexivity | split; [constructor | ]]].
    split; [exact Hconn | exact Eline].
  - rewrite Forall_forall in IH.
    destruct (IH _ Hc _ _ _ Hin) as (rel & units & c & Erel & Hlen & Hunits & Hconn & Eline).
    cbn [snd] in Erel.
    exists (nm :: rel), (u :: units), c.
    split; [rewrite Erel, Epath, <- app_assoc; reflexivity | ].
    split; [cbn [length]; rewrite Hlen; reflexivity | ].
    split; [constructor; assumption | split; [exact Hconn | ]].
    rewrite Eline, concat_units_cons, !append_assoc. reflexivity.
Qed.

End LineFacts.

(** X14: the shape of a line.  Every line of the tree below the root line
    is the indentation, a connector, a blank and the name of the entry,
    followed by a slash exactly for a directory; the indentation is made
    of one unit, four blanks or a bar and three blanks, for each directory
    between [dir_path] and the entry. *)
Theorem tree_line_shape `{Matching}
    (fs : node) (dir_path : Path) (children : list (string * node))
    (exclude_patterns : list string) (ignore_specs : list IgnoreSpec) :
  lookup fs dir_path = Some (Dir children) ->
  let rows :=
    tree_rows exclude_patterns ignore_specs dir_path (Dir children) dir_path "" in
  value (generate_tree fs dir_path exclude_patterns ignore_specs None)
  = Ok (String.concat nl ((name dir_path +++ "/") :: map snd rows))
  /\ forall p n line,
       In ((p, n), line) rows ->
       exists rel units c,
         p = dir_path ++ rel
         /\ S (length units) = length rel
         /\ Forall is_indent_unit units
         /\ is_connector c
         /\ line = String.concat "" units +++ c +++ " " +++ name p
                   +++ (if is_dir n then "/" else "").
Proof.
  intros Hlook rows. split.
  - apply (generate_tree_value _ _ _ _ _ Hlook). reflexivity.
  - intros p n line Hrow.
    destruct (tree_rows_line exclude_patterns ignore_specs dir_path _ _ _ _ Hrow)
      as (rel & units & c & Erel & Hlen & Hunits & Hconn & Eline).
    exists rel, units, c. cbn [fst snd] in *.
    split; [exact Erel | split; [exact Hlen | split; [exact Hunits | ]]].
    split; [exact Hconn | exact Eline].
Qed.

Lemma tree_line_shape_witness :
  value (generate_tree mixed_project ["proj"] [] [] None)
  = Ok ("proj/" +++ nl +++
        "├── d/" +++ nl +++
        "│   └── f.py" +++ nl +++
        "└── z.py").
Proof.
  rewrite (proj1 (tree_line_shape mixed_project ["proj"]
                    [("d", Dir [("f.py", File 6 (Some "f = 1"))]);
                     ("z.py", File 6 (Some "z = 2"))]
                    [] [] eq_refl)).
  reflexivity.
Defined.

(** ** More patterns, fewer files *)

Lemma included_monotone `{Matching}
    (exclude_patterns exclude_patterns' : list string)
    (ignore_specs ignore_specs' : list IgnoreSpec) (root p : Path) :
  incl exclude_patterns exclude_patterns' ->
  incl ignore_specs ignore_specs' ->
  included exclude_patterns' ignore_specs' root p = true ->
  included exclude_patterns ignore_specs root p = true.
Proof.
  intros Hex Hspecs. unfold included. rewrite !should_process_value.
  destruct (relative_to p root) as [r | e]; [ | trivial].
  destruct (contains ".git" r); [trivial | ]. cbn [negb andb].
  intros E. apply andb_true_iff in E. destruct E as [E1 E2].
  apply negb_true_iff in E1, E2. apply andb_true_iff.
  split; apply negb_true_iff.
  - destruct (existsb (fnmatch (as_posix r)) exclude_patterns) eqn:E; [ | reflexivity].
    rewrite (existsb_incl _ _ _ Hex E) in E1. discriminate.
  - destruct (existsb (excluded_by p) ignore_specs) eqn:E; [ | reflexivity].
    rewrite (existsb_incl _ _ _ Hspecs E) in E2. discriminate.
Qed.

(** X15: more patterns, fewer files.  Giving [get_code_files] more CLI
    exclude patterns or more ignore specs never adds a file to its result:
    everything it returns then, it also returns with the fewer patterns
    and specs. *)
Theorem get_code_files_monotone `{Matching}
    (fs : node) (dir_path : Path)
    (exclude_patterns exclude_patterns' : list string)
    (ignore_specs ignore_specs' : list IgnoreSpec) :
  incl exclude_patterns exclude_patterns' ->
  incl ignore_specs ignore_specs' ->
  exists code_files code_files',
    value (get_code_files fs dir_path exclude_patterns ignore_specs None)
    = Ok code_files
    /\ value (get_code_files fs dir_path exclude_patterns' ignore_specs' None)
       = Ok code_files'
    /\ incl code_files' code_files.
Proof.
  intros Hex Hspecs.
  destruct (lookup fs dir_path) as [current | ] eqn:Hlook.
  - eexists. eexists.
    split; [apply (get_code_files_value _ _ _ _ _ Hlook) | ].
    split; [apply (get_code_files_value _ _ _ _ _ Hlook) | ].
    intros f Hf. apply in_flat_map in Hf. destruct Hf as [x [Hx Hf]].
    apply in_flat_map. exists x. split; [exact Hx | ].
    unfold collected_entry in *.
    destruct (included exclude_patterns' ignore_specs' dir_path (fst x)) eqn:Hinc;
      [ | contradiction].
    rewrite (included_monotone _ _ _ _ _ _ Hex Hspecs Hinc). exact Hf.
  - exists [], []. unfold get_code_files. rewrite Hlook.
    split; [reflexivity | split; [reflexivity | apply incl_refl]].
Qed.

Lemma get_code_files_monotone_witness :
  exists code_files code_files',
    value (get_code_files doc_project ["proj"] [] [] None) = Ok code_files
    /\ value (get_code_files doc_project ["proj"] ["*.md"] [] None) = Ok code_files'
    /\ incl code_files' code_files.
Proof.
  apply (get_code_files_monotone doc_project ["proj"] [] ["*.md"] [] []).
  - intros x [].
  - apply incl_refl.
Defined.

(** ** The document *)

Lemma M_eta {A} (m : M A) : m = (value m, trace m).
Proof. destruct m; reflexivity. Qed.

Lemma create_markdown_loop_writes (fs : node) (code_files : list (string * Path)) :
  Forall (fun ev => writes_file ev = true) (trace (create_markdown_loop fs code_files)).
Proof.
  induction code_files as [ | [rel_path file_path] code_files IH]; [constructor | ].
  cbn [create_markdown_loop].
  apply Forall_trace_bind; [repeat constructor | intros _].
  apply Forall_trace_bind; [repeat constructor | intros _].
  apply Forall_trace_bind.
  - destruct (read_text (lookup fs file_path)) as [text | []]; constructor.
  - intros content.
    apply Forall_trace_bind; [repeat constructor | intros _].
    apply Forall_trace_bind; [repeat constructor | intros _; exact IH].
Qed.

Section DocumentFacts.

Context `{Matching}.

Variable resolve : Path -> Path.

(** The whole trace of [create_markdown] on a directory. *)
Lemma create_markdown_trace fs dir_path children output_file exclude_patterns
    ignore_specs tree_only tree_str code_files :
  unique_names fs ->
  lookup fs dir_path = Some (Dir children) ->
  value (generate_tree fs dir_path exclude_patterns ignore_specs (Some dir_path))
  = Ok tree_str ->
  value (get_code_files fs dir_path exclude_patterns ignore_specs (Some dir_path))
  = Ok code_files ->
  trace (create_markdown resolve fs dir_path output_file exclude_patterns
           ignore_specs tree_only)
  = [OpenW output_file;
     Write ("# " +++ name (resolve dir_path) +++ " Overview" +++ nl +++ nl);
     Write ("## Folder Structure" +++ nl);
     Write ("```tree" +++ nl)]
    ++ trace (generate_tree fs dir_path exclude_patterns ignore_specs
                (Some dir_path))
    ++ [Write (tree_str +++ nl); Write ("```" +++ nl +++ nl)]
    ++ (if tree_only then []
        else Write ("## Code" +++ nl)
             :: trace (get_code_files fs dir_path exclude_patterns ignore_specs
                         (Some dir_path))
             ++ map Write
                  (flat_map (fun f => code_section fs (extension_of (snd f)) f)
                     code_files)).
Proof.
  intros Hu Hlook Htree Hfiles. unfold create_markdown.
  rewrite !trace_emit_bind, trace_bind, Htree, !trace_emit_bind.
  cbn [app]. do 4 f_equal.
  destruct tree_only; cbn [negb]; [reflexivity | ].
  rewrite trace_emit_bind, trace_bind, Hfiles.
  rewrite (create_markdown_loop_run fs code_files)
    by (apply (collected_readable fs dir_path (Dir children) exclude_patterns
                 ignore_specs); assumption).
  reflexivity.
Qed.

End DocumentFacts.

(** X16: [--tree-only].  With [tree_only] set, [create_markdown] stops
    after the tree: it writes the title, the heading, the fenced tree and
    nothing more, no [## Code] heading, and nothing is consulted or
    logged after the closing fence of the tree is written. *)
Theorem tree_only_writes_no_code_section `{Matching}
    (resolve : Path -> Path) (fs : node) (dir_path output_file : Path)
    (children : list (string * node))
    (exclude_patterns : list string) (ignore_specs : list IgnoreSpec)
    (tree_str : string) :
  unique_names fs ->
  lookup fs dir_path = Some (Dir children) ->
  value (generate_tree fs dir_path exclude_patterns ignore_specs (Some dir_path))
  = Ok tree_str ->
  create_markdown resolve fs dir_path output_file exclude_patterns ignore_specs true
  = (Ok tt,
     [OpenW output_file;
      Write ("# " +++ name (resolve dir_path) +++ " Overview" +++ nl +++ nl);
      Write ("## Folder Structure" +++ nl);
      Write ("```tree" +++ nl)]
     ++ trace (generate_tree fs dir_path exclude_patterns ignore_specs
                 (Some dir_path))
     ++ [Write (tree_str +++ nl); Write ("```" +++ nl +++ nl)])
  /\ writes (trace (create_markdown resolve fs dir_path output_file
                      exclude_patterns ignore_specs true))
     = [ "# " +++ name (resolve dir_path) +++ " Overview" +++ nl +++ nl;
         "## Folder Structure" +++ nl;
         "```tree" +++ nl;
         tree_str +++ nl;
         "```" +++ nl +++ nl ].
Proof.
  intros Hu Hlook Htree.
  destruct (get_code_files fs dir_path exclude_patterns ignore_specs (Some dir_path))
    as [[code_files | e] w] eqn:Eg.
  2: { exfalso.
       change (get_code_files fs dir_path exclude_patterns ignore_specs (Some dir_path))
         with (get_code_files fs dir_path exclude_patterns ignore_specs None) in Eg.
       pose proof (get_code_files_value exclude_patterns ignore_specs dir_path _ _ Hlook)
         as Ev.
       rewrite Eg in Ev. discriminate. }
  assert (Etrace := create_markdown_trace resolve fs dir_path children output_file
                      exclude_patterns ignore_specs true tree_str code_files Hu Hlook
                      Htree (f_equal value Eg)).
  rewrite app_nil_r in Etrace.
  split.
  - rewrite (M_eta (create_markdown _ _ _ _ _ _ _)), Etrace.
    rewrite (create_markdown_value resolve fs dir_path children output_file
               exclude_patterns ignore_specs true Hu Hlook).
    reflexivity.
  - rewrite Etrace. cbn [app].
    repeat (rewrite ?writes_cons, ?writes_app; cbn [app]).
    rewrite (writes_never _ (generate_tree_quiet _ _ _ _ _)). reflexivity.
Qed.

Lemma tree_only_writes_no_code_section_witness :
  writes (trace (create_markdown (fun p => p) doc_project ["proj"] ["out.md"] [] []
                   true))
  = [ "# proj Overview" +++ nl +++ nl;
      "## Folder Structure" +++ nl;
      "```tree" +++ nl;
      ("proj/" +++ nl +++
       "├── main.py" +++ nl +++
       "├── Makefile" +++ nl +++
       "└── README.md") +++ nl;
      "```" +++ nl +++ nl ].
Proof.
  exact (proj2 (tree_only_writes_no_code_section (fun p => p) doc_project ["proj"]
                  ["out.md"]
                  [("README.md", File 5 (Some "# hi"));
                   ("Makefile", File 4 (Some "all:"));
                   ("main.py", File 8 (Some "print(1)"))]
                  [] []
                  ("proj/" +++ nl +++
                   "├── main.py" +++ nl +++
                   "├── Makefile" +++ nl +++
                   "└── README.md")
                  doc_project_unique_names eq_refl eq_refl)).
Defined.



Lemma code_section_blocks (fs : node) (tag : string) (f : string * Path) :
  code_section fs tag f
  = [ "### " +++ fst f +++ nl;
      code_block_start tag;
      shown_content fs (snd f) +++ nl;
      code_block_end tag ].
Proof.
  unfold code_section, code_block_start, code_block_end, backticks.
  destruct (String.eqb tag "md"); reflexivity.
Qed.

(** X18: a file that is not text does not stop the document.  When a
    collected file holds bytes that are not UTF-8, [create_markdown] still
    returns, and the section of that file holds the placeholder line, with
    its own line feed and the one that follows every content, between the
    usual fences. *)
Theorem undecodable_file_gets_placeholder `{Matching}
    (resolve : Path -> Path) (fs : node) (dir_path output_file : Path)
    (children : list (string * node))
    (exclude_patterns : list string) (ignore_specs : list IgnoreSpec)
    (code_files : list (string * Path)) (s : string) (p : Path) (sz : N) :
  unique_names fs ->
  lookup fs dir_path = Some (Dir children) ->
  value (get_code_files fs dir_path exclude_patterns ignore_specs (Some dir_path))
  = Ok code_files ->
  In (s, p) code_files ->
  lookup fs p = Some (File sz None) ->
  value (create_markdown resolve fs dir_path output_file exclude_patterns
           ignore_specs false) = Ok tt
  /\ exists before after,
       writes (trace (create_markdown resolve fs dir_path output_file
                        exclude_patterns ignore_specs false))
       = before
         ++ [ "### " +++ s +++ nl;
              code_block_start (extension_of p);
              ("# [Binary file not displayed]" +++ nl) +++ nl;
              code_block_end (extension_of p) ]
         ++ after.
Proof.
  intros Hu Hlook Hfiles Hin Hp.
  split; [apply (create_markdown_value resolve fs dir_path children); assumption | ].
  assert (Htree : value (generate_tree fs dir_path exclude_patterns ignore_specs
                           (Some dir_path))
                  = Ok (String.concat nl
                          ((name dir_path +++ "/")
                           :: map snd (tree_rows exclude_patterns ignore_specs dir_path
                                         (Dir children) dir_path "")))).
  { apply (generate_tree_value exclude_patterns ignore_specs dir_path fs
             (Dir children) Hlook eq_refl). }
  rewrite (create_markdown_trace resolve fs dir_path children output_file
             exclude_patterns ignore_specs false _ code_files Hu Hlook Htree Hfiles).
  apply in_split in Hin. destruct Hin as [l1 [l2 ->]].
  rewrite flat_map_app. cbn [flat_map].
  rewrite code_section_blocks. cbn [fst snd].
  unfold shown_content. rewrite Hp. cbn [read_text option_map follow].
  cbn [app].
  repeat (rewrite ?writes_cons, ?writes_app, ?map_app; cbn [app map]).
  rewrite (writes_never _ (generate_tree_quiet _ _ _ _ _)).
  rewrite (writes_never _ (get_code_files_quiet _ _ _ _ _)).
  rewrite !writes_map_Write. cbn [app].
  eexists (_ :: _ :: _ :: _ :: _ :: _ :: _). eexists.
  cbn [app]. reflexivity.
Qed.

Lemma binary_project_unique_names : unique_names binary_project.
Proof.
  simpl. repeat split; repeat constructor; simpl; intuition discriminate.
Qed.

Lemma undecodable_file_gets_placeholder_witness :
  value (create_markdown (fun p => p) binary_project ["proj"] ["out.md"] [] [] false)
  = Ok tt
  /\ In (("# [Binary file not displayed]" +++ nl) +++ nl)
       (writes (trace (create_markdown (fun p => p) binary_project ["proj"]
                         ["out.md"] [] [] false))).
Proof.
  destruct (undecodable_file_gets_placeholder (fun p => p) binary_project ["proj"]
              ["out.md"]
              [("logo.png", File 4 None); ("main.py", File 8 (Some "print(1)"))]
              [] []
              [("logo.png", ["proj"; "logo.png"]); ("main.py", ["proj"; "main.py"])]
              "logo.png" ["proj"; "logo.png"] 4
              binary_project_unique_names eq_refl eq_refl
              (or_introl eq_refl) eq_refl)
    as [Hval (before & after & Hw)].
  split; [exact Hval | ].
  rewrite Hw. apply in_or_app. right. right. right. left. reflexivity.
Defined.

(** ** [main] *)

Lemma Forall_trace_bind_value {A B} (P : event -> Prop) (m : M A) (f : A -> M B) :
  Forall P (trace m) ->
  (forall a, value m = Ok a -> Forall P (trace (f a))) ->
  Forall P (trace (bind m f)).
Proof.
  intros Hm Hf. rewrite trace_bind.
  destruct (value m) as [a | e];
    [apply Forall_app; split; [exact Hm | apply Hf; reflexivity] | exact Hm].
Qed.

Section MainEvents.

Context `{Matching}.

Variable resolve : Path -> Path.

Lemma extend_with_value fs directory file_name ignore_specs specs :
  value (extend_with fs directory file_name ignore_specs) = Ok specs ->
  exists data,
    specs = ignore_specs ++ data
    /\ forall s, In s data -> name (ignore_path_of s) = file_name.
Proof.
  unfold extend_with. rewrite value_bind, load_ignore_files_found.
  destruct (compiles_or_not (ignore_files fs directory file_name))
    as [Hall | (before & x & after & c & err & E & Hb & Hr & Hf)].
  - rewrite (load_ignore_files_loop_run _ Hall). cbn [value fst app].
    set (data := flat_map loaded (ignore_files fs directory file_name)).
    assert (Hdata : forall s, In s data -> name (ignore_path_of s) = file_name).
    { intros s Hs. subst data. apply in_flat_map in Hs. destruct Hs as [e [He Hs]].
      unfold ignore_files in He.
      destruct (lookup fs directory); [ | contradiction].
      apply filter_In in He. destruct He as [_ Hnm]. apply String.eqb_eq in Hnm.
      unfold loaded in Hs.
      destruct (read_text (Some (snd e))) as [content | ]; [ | contradiction].
      destruct (from_lines (splitlines content)); [ | contradiction].
      destruct Hs as [<- | []]. exact Hnm. }
    intros Hval. exists data. split; [ | exact Hdata].
    destruct data; rewrite value_bind in Hval;
      cbn [log_info emit value fst ret] in Hval;
      injection Hval as <-; [rewrite app_nil_r | ]; reflexivity.
  - rewrite E, (load_ignore_files_loop_raise _ _ _ _ _ Hb Hr Hf). discriminate.
Qed.

Lemma extend_with_logs fs directory file_name ignore_specs :
  Forall is_log_record (trace (extend_with fs directory file_name ignore_specs)).
Proof.
  unfold extend_with, load_ignore_files. apply Forall_trace_bind.
  - apply load_ignore_files_loop_logs.
  - intros [ | s data]; repeat constructor.
Qed.

Lemma create_markdown_events fs dir_path output_file exclude_patterns ignore_specs
    tree_only :
  Forall (fun ev => writes_file ev = true \/
                    decider_event exclude_patterns
                      (map ignore_path_of ignore_specs) ev)
    (trace (create_markdown resolve fs dir_path output_file exclude_patterns
              ignore_specs tree_only)).
Proof.
  unfold create_markdown.
  repeat (apply Forall_trace_bind; [repeat constructor; left; reflexivity | intros _]).
  apply Forall_trace_bind.
  - eapply Forall_impl; [ | apply generate_tree_events]. intros ev Hev. right. exact Hev.
  - intros tree_str.
    repeat (apply Forall_trace_bind; [repeat constructor; left; reflexivity | intros _]).
    destruct tree_only; cbn [negb]; [constructor | ].
    apply Forall_trace_bind; [repeat constructor; left; reflexivity | intros _].
    apply Forall_trace_bind.
    + eapply Forall_impl; [ | apply get_code_files_events].
      intros ev Hev. right. exact Hev.
    + intros code_files. eapply Forall_impl; [ | apply create_markdown_loop_writes].
      intros ev Hev. left. exact Hev.
Qed.

End MainEvents.

(** X19: the flags decide which ignore files count.  Whatever the
    directory holds, every ignore file that a run of [main] consults is
    named [.llmignore], and then [--no-llmignore] is not set, or
    [.gitignore], and then [--use-gitignore] is set; with the first flag
    set and the second not, no ignore file is consulted at all. *)
Theorem main_consults_only_enabled_ignore_files `{Matching}
    (resolve : Path -> Path) (fs : node) (directory output : Path)
    (exclude_patterns : list string) (no_llmignore use_gitignore : bool)
    (log_level : option string) (tree_only : bool) :
  Forall (consults_only_files (enabled_ignore_names no_llmignore use_gitignore))
    (trace (main resolve fs directory output exclude_patterns no_llmignore
              use_gitignore log_level tree_only)).
Proof.
  unfold main. rewrite trace_emit_bind. constructor; [exact I | ].
  destruct (negb (path_exists fs directory) || negb (path_is_dir fs directory)).
  - rewrite trace_emit_bind. repeat constructor.
  - apply Forall_trace_bind_value.
    { destruct no_llmignore; cbn [negb]; [constructor | ].
      eapply Forall_impl; [ | apply extend_with_logs].
      intros [ | | | | | | | | ]; simpl; tauto. }
    intros specs1 Hv1.
    assert (H1 : forall s, In s specs1 ->
                           In (name (ignore_path_of s))
                             (enabled_ignore_names no_llmignore use_gitignore)).
    { unfold enabled_ignore_names. destruct no_llmignore; cbn [negb] in Hv1.
      - injection Hv1 as <-. intros s [].
      - destruct (extend_with_value fs directory ".llmignore" [] _ Hv1)
          as [data [-> Hd]]. cbn [app].
        intros s Hs. left. symmetry. apply Hd. exact Hs. }
    apply Forall_trace_bind_value.
    { destruct use_gitignore; [ | constructor].
      eapply Forall_impl; [ | apply extend_with_logs].
      intros [ | | | | | | | | ]; simpl; tauto. }
    intros specs2 Hv2.
    assert (H2 : forall s, In s specs2 ->
                           In (name (ignore_path_of s))
                             (enabled_ignore_names no_llmignore use_gitignore)).
    { destruct use_gitignore.
      - destruct (extend_with_value fs directory ".gitignore" specs1 _ Hv2)
          as [data [-> Hd]].
        intros s Hs. apply in_app_or in Hs. destruct Hs as [Hs | Hs]; [apply H1; exact Hs | ].
        unfold enabled_ignore_names. apply in_or_app. right. left.
        symmetry. apply Hd. exact Hs.
      - injection Hv2 as <-. exact H1. }
    apply Forall_trace_bind; [ | repeat constructor].
    eapply Forall_impl; [ | apply create_markdown_events].
    intros ev [Hw | Hd].
    + destruct ev; try exact I. discriminate Hw.
    + destruct ev; try exact I. simpl in Hd. apply in_map_iff in Hd.
      destruct Hd as [s [<- Hs]]. apply H2. exact Hs.
Qed.

Lemma bind_run {A B} (m : M A) (f : A -> M B) :
  bind m f
  = match value m with
    | Ok a => (value (f a), trace m ++ trace (f a))
    | Raise e => (Raise e, trace m)
    end.
Proof.
  destruct m as [[a | e] w]; unfold bind; cbn [value trace fst snd];
    [destruct (f a); reflexivity | reflexivity].
Qed.

(** What [main] does with a directory: it configures the log, loads the
    ignore files that the flags enable, which may raise, makes the
    document, which may raise, and echoes the confirmation. *)
Lemma main_on_directory `{Matching}
    (resolve : Path -> Path) (fs : node) (directory output : Path)
    (exclude_patterns : list string) (no_llmignore use_gitignore : bool)
    (log_level : option string) (tree_only : bool) :
  path_is_dir fs directory = true ->
  let run :=
    main resolve fs directory output exclude_patterns no_llmignore use_gitignore
      log_level tree_only in
  exists level w,
    Forall is_log_record w
    /\ ((exists e, run = (Raise e, BasicConfig level :: w))
        \/ exists specs,
             (forall s, In s specs ->
                        In (name (ignore_path_of s))
                          (enabled_ignore_names no_llmignore use_gitignore))
             /\ run
                = match value (create_markdown resolve fs directory output
                                 exclude_patterns specs tree_only) with
                  | Ok _ =>
                      (Ok tt,
                       BasicConfig level :: w
                       ++ trace (create_markdown resolve fs directory output
                                   exclude_patterns specs tree_only)
                       ++ [Echo ("Markdown file '" +++ as_posix output
                                 +++ "' has been generated.")])
                  | Raise e =>
                      (Raise e,
                       BasicConfig level :: w
                       ++ trace (create_markdown resolve fs directory output
                                   exclude_patterns specs tree_only))
                  end).
Proof.
  intros Hdir run.
  assert (Hcond : negb (path_exists fs directory) || negb (path_is_dir fs directory)
                  = false).
  { unfold path_exists. rewrite Hdir. unfold path_is_dir in Hdir.
    destruct (lookup fs directory); [reflexivity | discriminate]. }
  set (m1 := if negb no_llmignore
             then extend_with fs directory ".llmignore" []
             else ret []).
  assert (Hl1 : Forall is_log_record (trace m1)).
  { subst m1. destruct no_llmignore; cbn [negb];
      [constructor | apply extend_with_logs]. }
  assert (Hl2 : forall specs1,
             Forall is_log_record
               (trace (if use_gitignore
                       then extend_with fs directory ".gitignore" specs1
                       else ret specs1))).
  { intros specs1. destruct use_gitignore; [apply extend_with_logs | constructor]. }
  eexists.
  subst run. unfold main. rewrite Hcond. fold m1.
  rewrite (bind_run (emit _)). cbn [emit value trace fst snd app].
  rewrite (bind_run m1).
  destruct (value m1) as [specs1 | e] eqn:Hv1; cbn [value trace fst snd].
  2: { exists (trace m1). split; [exact Hl1 | left; eauto]. }
  assert (H1 : forall s, In s specs1 ->
                         In (name (ignore_path_of s))
                           (enabled_ignore_names no_llmignore use_gitignore)).
  { unfold enabled_ignore_names. subst m1.
    destruct no_llmignore; cbn [negb] in Hv1.
    - injection Hv1 as <-. intros s [].
    - destruct (extend_with_value fs directory ".llmignore" [] _ Hv1)
        as [data [-> Hd]]. cbn [app].
      intros s Hs. left. symmetry. apply Hd. exact Hs. }
  set (m2 := if use_gitignore
             then extend_with fs directory ".gitignore" specs1
             else ret specs1).
  fold m2. rewrite (bind_run m2).
  destruct (value m2) as [specs2 | e] eqn:Hv2; cbn [value trace fst snd].
  2: { exists (trace m1 ++ trace m2).
       split; [apply Forall_app; split; [exact Hl1 | apply Hl2] | left; eauto]. }
  assert (H2 : forall s, In s specs2 ->
                         In (name (ignore_path_of s))
                           (enabled_ignore_names no_llmignore use_gitignore)).
  { subst m2. destruct use_gitignore.
    - destruct (extend_with_value fs directory ".gitignore" specs1 _ Hv2)
        as [data [-> Hd]].
      intros s Hs. apply in_app_or in Hs. destruct Hs as [Hs | Hs]; [apply H1; exact Hs | ].
      unfold enabled_ignore_names. apply in_or_app. right. left.
      symmetry. apply Hd. exact Hs.
    - injection Hv2 as <-. exact H1. }
  exists (trace m1 ++ trace m2).
  split; [apply Forall_app; split; [exact Hl1 | apply Hl2] | right].
  exists specs2. split; [exact H2 | ].
  rewrite (bind_run (create_markdown _ _ _ _ _ _ _)).
  destruct (value (create_markdown resolve fs directory output exclude_patterns
                     specs2 tree_only)) as [u | e];
    cbn [emit value trace fst snd]; rewrite <- !app_assoc; reflexivity.
Qed.

Lemma log_records_never_print (w : list event) :
  Forall is_log_record w -> never prints w.
Proof.
  intros Hw. unfold never. apply forallb_forall. intros ev Hev.
  rewrite Forall_forall in Hw. specialize (Hw ev Hev).
  destruct ev; try reflexivity; contradiction.
Qed.

Lemma create_markdown_never_prints `{Matching} resolve fs dir_path output_file
    exclude_patterns ignore_specs tree_only :
  never prints
    (trace (create_markdown resolve fs dir_path output_file exclude_patterns
              ignore_specs tree_only)).
Proof.
  unfold never. apply forallb_forall. intros ev Hev.
  pose proof (create_markdown_events resolve fs dir_path output_file
                exclude_patterns ignore_specs tree_only) as Hall.
  rewrite Forall_forall in Hall. destruct (Hall ev Hev) as [Hw | Hd];
    destruct ev; try reflexivity; try discriminate Hw; contradiction.
Qed.


(** X20: the messages of a run on a directory.  When the directory
    argument is a directory, the one message that [main] can echo is the
    confirmation on the standard output; it is echoed exactly when [main]
    returns, as the last thing it does.  When the loading of the ignore
    files or the making of the document raises, nothing is echoed.  (Log
    records are no echoes: they are left to [logging].) *)
Theorem main_prints_one_confirmation_last `{Matching}
    (resolve : Path -> Path) (fs : node) (directory output : Path)
    (exclude_patterns : list string) (no_llmignore use_gitignore : bool)
    (log_level : option string) (tree_only : bool) :
  path_is_dir fs directory = true ->
  let run :=
    main resolve fs directory output exclude_patterns no_llmignore use_gitignore
      log_level tree_only in
  exists w,
    never prints w
    /\ ((value run = Ok tt
         /\ trace run = w ++ [Echo ("Markdown file '" +++ as_posix output
                                    +++ "' has been generated.")])
        \/ ((exists e, value run = Raise e) /\ trace run = w)).
Proof.
  intros Hdir run.
  destruct (main_on_directory resolve fs directory output exclude_patterns
              no_llmignore use_gitignore log_level tree_only Hdir)
    as (level & w & Hw & [[e E] | [specs [_ E]]]); fold run in E.
  - exists (BasicConfig level :: w). split.
    + apply never_cons. split; [reflexivity | apply log_records_never_print; exact Hw].
    + right. rewrite E. split; [exists e; reflexivity | reflexivity].
  - exists (BasicConfig level :: w
            ++ trace (create_markdown resolve fs directory output exclude_patterns
                        specs tree_only)).
    split.
    + apply never_cons. split; [reflexivity | ].
      apply never_app. split; [apply log_records_never_print; exact Hw | ].
      apply create_markdown_never_prints.
    + destruct (value (create_markdown resolve fs directory output exclude_patterns
                         specs tree_only)) as [u | e]; rewrite E.
      * left. split; [reflexivity | ]. cbn [trace snd app].
        rewrite <- app_assoc. reflexivity.
      * right. split; [exists e; reflexivity | reflexivity].
Qed.

Lemma main_prints_one_confirmation_last_witness :
  (exists w,
      never prints w
      /\ trace (main (fun p => p) keep_project ["proj"] ["out.md"] [] false false
                  None true)
         = w ++ [Echo "Markdown file 'out.md' has been generated."])
  /\ never prints
       (trace (main (fun p => p) bang_project ["proj"] ["out.md"] [] false false
                 None true)).
Proof.
  split.
  - destruct (main_prints_one_confirmation_last (fun p => p) keep_project ["proj"]
                ["out.md"] [] false false None true eq_refl)
      as (w & Hw & [[_ E] | [[e E] _]]).
    + exists w. split; [exact Hw | exact E].
    + discriminate E.
  - destruct (main_prints_one_confirmation_last (fun p => p) bang_project ["proj"]
                ["out.md"] [] false false None true eq_refl)
      as (w & Hw & [[E _] | [_ E]]).
    + discriminate E.
    + rewrite E. exact Hw.
Defined.

(** ** The directory check of [main] *)



